(** * Sensor power table generator: shader-table extraction and cross-reference

    A shallow embedding of [scripts/generate_sensor_power_table.py]
    and the properties of its parser, join and sort; then, in the
    modules [Patch] and [Subst], of the two patch scripts
    [scripts/update_energy_storage.py] and
    [scripts/update_shader_energy.py].

    Conventions of the embedding.
    - Python [str] is [string]; a character is a code point below 256.
    - Python [int] is [Z]; Python [float] is an IEEE-754 binary64 value,
      [spec_float] with precision 53 and maximal exponent 1024.
    - An exception is a value of [exn] carried by [Raise].
    - [Dict[int, Param1Entry]] keeps insertion order (the comprehension
      over [param1.values()] depends on it): an association list.
    - A row of [csv.DictReader] is a finite map from column names to an
      optional cell ([None] is the reader's filler for a short row). *)

From Stdlib Require Import ZArith Bool Lia.
From Stdlib Require Import Strings.Ascii Strings.String.
From Stdlib Require Import Floats.SpecFloat.
From Stdlib Require Import Sorting.Permutation Sorting.Sorted.
From stdpp Require Import base option list strings gmap.

Local Open Scope string_scope.
Local Open Scope Z_scope.

(** ** Characters and text *)

Module Text.

(** [ord(a)] *)
Definition ord (a : ascii) : nat := nat_of_ascii a.

(** [\d] on the modelled code points. *)
Definition is_digit (a : ascii) : bool :=
  ((48 <=? ord a) && (ord a <=? 57))%nat.

(** [str.isspace] and [\s] agree: TAB..CR, FS..US, space, NEL, NBSP. *)
Definition is_space (a : ascii) : bool :=
  (((9 <=? ord a) && (ord a <=? 13))
   || ((28 <=? ord a) && (ord a <=? 32))
   || (ord a =? 133) || (ord a =? 160))%nat.

Definition is_upper (a : ascii) : bool :=
  ((65 <=? ord a) && (ord a <=? 90))%nat.

Definition is_char (c : ascii) (a : ascii) : bool := Ascii.eqb a c.

Definition is_sign (a : ascii) : bool := is_char "-" a || is_char "+" a.
Definition is_exp_mark (a : ascii) : bool := is_char "e" a || is_char "E" a.
Definition newline : ascii := ascii_of_nat 10.
(** [.] without DOTALL. *)
Definition not_newline (a : ascii) : bool := negb (Ascii.eqb a newline).
(** [[^)]]. *)
Definition not_rparen (a : ascii) : bool := negb (is_char ")" a).

Definition digit_val (a : ascii) : Z := Z.of_nat (ord a) - 48.

Fixpoint all_chars (p : ascii -> bool) (s : string) : bool :=
  match s with
  | EmptyString => true
  | String a s' => p a && all_chars p s'
  end.

Definition is_empty (s : string) : bool :=
  match s with EmptyString => true | _ => false end.

Fixpoint lstrip (s : string) : string :=
  match s with
  | String a s' => if is_space a then lstrip s' else s
  | EmptyString => EmptyString
  end.

Fixpoint rstrip (s : string) : string :=
  match s with
  | String a s' =>
      let r := rstrip s' in
      if is_space a && is_empty r then EmptyString else String a r
  | EmptyString => EmptyString
  end.

(** [s.strip()] *)
Definition strip (s : string) : string := rstrip (lstrip s).

(** [s.startswith(p)], returning what follows the prefix. *)
Fixpoint strip_prefix (p s : string) : option string :=
  match p, s with
  | EmptyString, _ => Some s
  | String a p', String b s' =>
      if Ascii.eqb a b then strip_prefix p' s' else None
  | String _ _, EmptyString => None
  end.

Definition startswith (p s : string) : bool :=
  match strip_prefix p s with Some _ => true | None => false end.

(** [needle in s] *)
Fixpoint contains (needle s : string) : bool :=
  startswith needle s
  || match s with
     | String _ s' => contains needle s'
     | EmptyString => false
     end.

(** [s.split(sep)] for a one-character separator. *)
Fixpoint split (sep : ascii) (s : string) : list string :=
  match s with
  | EmptyString => [EmptyString]
  | String a s' =>
      if Ascii.eqb a sep then EmptyString :: split sep s'
      else match split sep s' with
           | w :: ws => String a w :: ws
           | [] => [String a EmptyString]
           end
  end.

Fixpoint str_take (n : nat) (s : string) : string :=
  match n, s with
  | S n', String a s' => String a (str_take n' s')
  | _, _ => EmptyString
  end.

End Text.

Import Text.

(** ** Exceptions and results *)

(** Every [raise] of the script, and the exceptions of the built-ins and
    of the dictionary accesses it relies on.  The two [ValueError]s of the
    table parser carry the values their messages interpolate. *)
Inductive exn : Type :=
  | ParseError (fragment : string)
      (** "Could not parse float from vec4 component: {p!r}" *)
  | MalformedRow (idx : Z) (data_line : string)
      (** "Unexpected AMINO_DATA row format for idx={idx}: {data_line}" *)
  | MalformedVec4 (idx : Z) (group : string)
      (** "Unexpected vec4 component count for idx={idx}: {vec4s[3]}" *)
  | FloatValueError (lit : string)   (** [float(lit)] *)
  | IntValueError (lit : string)     (** [int(lit)] *)
  | KeyError (key : string)          (** [r[key]] on a missing column *)
  | AttributeError (key : string).   (** [None.strip()] *)

Inductive result (A : Type) : Type :=
  | Ok (a : A)
  | Raise (e : exn).
Arguments Ok {A} a.
Arguments Raise {A} e.

Definition bind {A B} (x : result A) (f : A -> result B) : result B :=
  match x with
  | Ok a => f a
  | Raise e => Raise e
  end.

Notation "'let*' x ':=' e 'in' k" := (bind e (fun x => k))
  (at level 10, x name, e at level 100, k at level 200).

Fixpoint mapM_result {A B} (f : A -> result B) (l : list A) : result (list B) :=
  match l with
  | [] => Ok []
  | a :: l' =>
      let* b := f a in
      let* bs := mapM_result f l' in
      Ok (b :: bs)
  end.

(** ** Regular expressions

    The fragment of Python's [re] the script uses, with its backtracking
    order: greedy quantifiers try the longest repetition first, the lazy
    one the shortest; the first complete match found is the match. *)

Module Re.

Inductive regex : Type :=
  | Chr (p : ascii -> bool)          (** a character class *)
  | Lit (l : string)                 (** literal text *)
  | Seq (r1 r2 : regex)
  | Opt (r : regex)                  (** [r?] *)
  | Star (p : ascii -> bool)         (** [[p]*] *)
  | Plus (p : ascii -> bool)         (** [[p]+] *)
  | PlusLazy (p : ascii -> bool)     (** [[p]+?] *)
  | Group (n : nat) (r : regex)      (** the [n]-th capturing group *)
  | Bol                              (** [^] *)
  | Eol.                             (** [$] without MULTILINE *)

Definition caps := list (nat * string).

Definition group (n : nat) (c : caps) : option string :=
  snd <$> List.find (fun '(k, _) => Nat.eqb k n) c.

(** [$] matches at the end and before a newline that ends the text. *)
Definition at_eol (s : string) : bool :=
  match s with
  | EmptyString => true
  | String a EmptyString => Ascii.eqb a newline
  | _ => false
  end.

Section Matcher.
Context {A : Type}.

(** A continuation receives the position reached, the text from
    there on and the groups captured so far. *)
Definition cont := nat -> string -> caps -> option A.

Definition orelse (x y : option A) : option A :=
  match x with Some _ => x | None => y end.

Fixpoint star (p : ascii -> bool) (pos : nat) (s : string) (c : caps)
    (k : cont) : option A :=
  match s with
  | String a s' =>
      if p a then orelse (star p (S pos) s' c k) (k pos s c)
      else k pos s c
  | EmptyString => k pos s c
  end.

Fixpoint plus_lazy (p : ascii -> bool) (pos : nat) (s : string) (c : caps)
    (k : cont) : option A :=
  match s with
  | String a s' =>
      if p a then orelse (k (S pos) s' c) (plus_lazy p (S pos) s' c k)
      else None
  | EmptyString => None
  end.

Fixpoint run (r : regex) (pos : nat) (s : string) (c : caps) (k : cont)
    : option A :=
  match r with
  | Chr p =>
      match s with
      | String a s' => if p a then k (S pos) s' c else None
      | EmptyString => None
      end
  | Lit l =>
      match strip_prefix l s with
      | Some s' => k (pos + String.length l)%nat s' c
      | None => None
      end
  | Seq r1 r2 => run r1 pos s c (fun pos' s' c' => run r2 pos' s' c' k)
  | Opt r1 => orelse (run r1 pos s c k) (k pos s c)
  | Star p => star p pos s c k
  | Plus p =>
      match s with
      | String a s' => if p a then star p (S pos) s' c k else None
      | EmptyString => None
      end
  | PlusLazy p => plus_lazy p pos s c k
  | Group n r1 =>
      run r1 pos s c
        (fun pos' s' c' => k pos' s' ((n, str_take (pos' - pos) s) :: c'))
  | Bol => if Nat.eqb pos 0 then k pos s c else None
  | Eol => if at_eol s then k pos s c else None
  end.
End Matcher.

(** A match: the matched text, where it ends, what follows it, the
    groups. *)
Record mtch :=
  { m_text : string; m_end : nat; m_rest : string; m_caps : caps }.

Definition attempt (r : regex) (pos : nat) (s : string) : option mtch :=
  run r pos s []
    (fun pos' s' c' =>
       Some {| m_text := str_take (pos' - pos) s; m_end := pos';
               m_rest := s'; m_caps := c' |}).

(** [r.match(s)] *)
Definition rmatch (r : regex) (s : string) : option mtch := attempt r 0 s.

(** [r.search(s)] from position [pos] on: the leftmost start wins. *)
Fixpoint search_from (r : regex) (pos : nat) (s : string) : option mtch :=
  match attempt r pos s with
  | Some m => Some m
  | None =>
      match s with
      | String _ s' => search_from r (S pos) s'
      | EmptyString => None
      end
  end.

Definition search (r : regex) (s : string) : option mtch := search_from r 0 s.

(** [m.group(n)] for a group that took part in the match. *)
Definition grp (n : nat) (m : mtch) : string := default "" (group n (m_caps m)).

(** The successive non-overlapping matches, left to right.  After an
    empty match the scan moves on by one character. *)
Fixpoint matches_from (fuel : nat) (r : regex) (pos : nat) (s : string)
    : list mtch :=
  match fuel with
  | O => []
  | S fuel' =>
      match search_from r pos s with
      | None => []
      | Some m =>
          m :: (if is_empty (m_text m)
                then match m_rest m with
                     | String _ s' => matches_from fuel' r (S (m_end m)) s'
                     | EmptyString => []
                     end
                else matches_from fuel' r (m_end m) (m_rest m))
      end
  end.

(** [r.findall(s)] for a pattern with one group: the texts of group 1. *)
Definition findall (r : regex) (s : string) : list string :=
  grp 1 <$> matches_from (S (String.length s)) r 0 s.

(** Concatenation of several pieces. *)
Fixpoint cat (rs : list regex) : regex :=
  match rs with
  | [] => Lit ""
  | [r] => r
  | r :: rs' => Seq r (cat rs')
  end.

End Re.

Import Re.

(** ** Built-in conversions *)

Module Builtins.

Fixpoint digits_value (acc : Z) (s : string) : Z :=
  match s with
  | String a s' => digits_value (10 * acc + digit_val a) s'
  | EmptyString => acc
  end.

(** The longest prefix in a class, and the rest. *)
Fixpoint span (p : ascii -> bool) (s : string) : string * string :=
  match s with
  | String a s' =>
      if p a then let '(t, u) := span p s' in (String a t, u)
      else (EmptyString, s)
  | EmptyString => (EmptyString, EmptyString)
  end.

Definition split_sign (s : string) : bool * string :=
  match s with
  | String a s' =>
      if is_char "-" a then (true, s')
      else if is_char "+" a then (false, s')
      else (false, s)
  | EmptyString => (false, s)
  end.

(** Digits with single underscores between them, as [int] accepts. *)
Fixpoint int_digits (acc : Z) (after_digit : bool) (s : string) : option Z :=
  match s with
  | String a s' =>
      if is_digit a then int_digits (10 * acc + digit_val a) true s'
      else if is_char "_" a && after_digit then
        match s' with
        | String b _ => if is_digit b then int_digits acc false s' else None
        | EmptyString => None
        end
      else None
  | EmptyString => if after_digit then Some acc else None
  end.

(** [int(s)] in base 10; [None] is [ValueError].  The interpreter's
    configurable limit on the number of digits is left out. *)
Definition py_int (s : string) : option Z :=
  let '(neg, t) := split_sign (strip s) in
  z ← int_digits 0 false t;
  Some (if neg then - z else z).

Definition binary64_prec : Z := 53.
Definition binary64_emax : Z := 1024.

(** The binary64 value nearest to [(-1)^neg * m * 10^e], ties to even. *)
Definition round_decimal (neg : bool) (m e : Z) : spec_float :=
  if m =? 0 then S754_zero neg
  else if 0 <=? e then
    binary_normalize binary64_prec binary64_emax
      (cond_Zopp neg (m * 10 ^ e)) 0 neg
  else
    let '(q, e', l) :=
      SFdiv_core_binary binary64_prec binary64_emax m 0 (10 ^ (- e)) 0 in
    binary_round_aux binary64_prec binary64_emax neg q e' l.

(** The exponent part of a decimal literal, if any. *)
Definition parse_exponent (s : string) : option Z :=
  match s with
  | EmptyString => Some 0
  | String a t =>
      if is_exp_mark a then
        let '(eneg, t1) := split_sign t in
        let '(ed, t2) := span is_digit t1 in
        if is_empty ed || negb (is_empty t2) then None
        else
          let x := digits_value 0 ed in
          Some (if eneg then - x else x)
      else None
  end.

(** A decimal literal as sign, integer mantissa and power of ten. *)
Definition parse_decimal (s : string) : option (bool * Z * Z) :=
  let '(neg, s1) := split_sign s in
  let '(ip, s2) := span is_digit s1 in
  let '(fp, s3) :=
    match s2 with
    | String a t => if is_char "." a then span is_digit t else (EmptyString, s2)
    | EmptyString => (EmptyString, s2)
    end in
  if is_empty ip && is_empty fp then None
  else
    x ← parse_exponent s3;
    Some (neg, digits_value 0 (ip ++ fp), x - Z.of_nat (String.length fp)).

(** [float(s)] on decimal literals; [None] is [ValueError].  The other
    spellings [float] accepts (inf, nan, underscores, blanks around the
    number) are not matches of the script's pattern and never reach it. *)
Definition py_float (s : string) : option spec_float :=
  '(neg, m, e) ← parse_decimal s;
  Some (round_decimal neg m e).

Definition float_add : spec_float -> spec_float -> spec_float :=
  SFadd binary64_prec binary64_emax.

(** [abs(x)] *)
Definition float_abs : spec_float -> spec_float := SFabs.

(** [x >= 0]: the comparison of a float with the integer zero. *)
Definition float_ge0 (x : spec_float) : bool := SFleb (S754_zero false) x.

End Builtins.

Import Builtins.

(** ** The shader table parser *)

Record Param1Entry : Type :=
  { idx : Z; code : string; name : string; param1 : spec_float }.

(** [Dict[int, V]] in insertion order. *)
Definition pydict (V : Type) : Type := list (Z * V).

(** [d[k] = v]: a new key goes last, a known key keeps its place. *)
Fixpoint dict_set {V} (k : Z) (v : V) (d : pydict V) : pydict V :=
  match d with
  | [] => [(k, v)]
  | (k', v') :: d' =>
      if k' =? k then (k, v) :: d' else (k', v') :: dict_set k v d'
  end.

(** [d.get(k)] *)
Fixpoint dict_get {V} (k : Z) (d : pydict V) : option V :=
  match d with
  | [] => None
  | (k', v') :: d' => if k' =? k then Some v' else dict_get k d'
  end.

(** [k in d] *)
Definition dict_mem {V} (k : Z) (d : pydict V) : bool :=
  match dict_get k d with Some _ => true | None => false end.

(** [d.values()] *)
Definition dict_values {V} (d : pydict V) : list V := snd <$> d.

(** [[eE][-+]?\d+], the exponent of a numeric literal. *)
Definition EXPONENT_RE : regex :=
  cat [ Chr is_exp_mark; Opt (Chr is_sign); Plus is_digit ].

(** [[-+]?\d*\.?\d+(?:[eE][-+]?\d+)?] *)
Definition WGSL_FLOAT_RE : regex :=
  cat [ Opt (Chr is_sign); Star is_digit; Opt (Chr (is_char ".")); Plus is_digit;
        Opt EXPONENT_RE ].

(** What is left of the pattern after its fraction digits, after its
    decimal point and after its leading digits, as continuations of the
    matcher. *)
Definition after_fraction {A} (kf : @cont A) : @cont A :=
  fun pos s c => run (Opt EXPONENT_RE) pos s c kf.

Definition after_point {A} (kf : @cont A) : @cont A :=
  fun pos s c => run (Plus is_digit) pos s c (after_fraction kf).

Definition after_digits {A} (kf : @cont A) : @cont A :=
  fun pos s c => run (Opt (Chr (is_char "."))) pos s c (after_point kf).

(** The body of the loop of [_parse_vec4_components]: the Float
    Extractor on one fragment. *)
Definition parse_component (p : string) : result spec_float :=
  match search WGSL_FLOAT_RE p with
  | None => Raise (ParseError p)
  | Some m =>
      match py_float (m_text m) with
      | Some f => Ok f
      | None => Raise (FloatValueError (m_text m))
      end
  end.

Definition _parse_vec4_components (vec4_src : string) : result (list spec_float) :=
  mapM_result parse_component (strip <$> split "," vec4_src).

(** [^\s*//\s*(\d+)\s+([A-Z])\s+-\s+(.+?)\s*$] *)
Definition header_re : regex :=
  cat [ Bol; Star is_space; Lit "//"; Star is_space; Group 1 (Plus is_digit);
        Plus is_space; Group 2 (Chr is_upper); Plus is_space; Lit "-";
        Plus is_space; Group 3 (PlusLazy not_newline); Star is_space; Eol ].

(** [vec4<f32>\(] then the group [[^)]*], then [\)] *)
Definition vec4_re : regex :=
  cat [ Lit "vec4<f32>("; Group 1 (Star not_rparen); Lit ")" ].

Definition DATA_MARK : string := "array<vec4<f32>,6>(".

(** The inner loop, on [lines[j:]]: the stripped data line, or [None]
    when a comment line or the end of the text comes first. *)
Fixpoint find_data_line (rest : list string) : option string :=
  match rest with
  | [] => None
  | l :: rest' =>
      let s := strip l in
      if is_empty s then find_data_line rest'
      else if startswith "//" s then None
      else if contains DATA_MARK s then Some s
      else find_data_line rest'
  end.

Definition int_of (s : string) : result Z :=
  match py_int s with
  | Some z => Ok z
  | None => Raise (IntValueError s)
  end.

(** The variables of the outer loop. *)
Record scan_state : Type :=
  { st_i : nat; st_entries : pydict Param1Entry }.

(** One turn of the outer loop, entered with [st_i st < len(lines)]. *)
Definition scan_body (lines : list string) (st : scan_state) : result scan_state :=
  let i := st_i st in
  let entries := st_entries st in
  match rmatch header_re (nth i lines "") with
  | None => Ok {| st_i := i + 1; st_entries := entries |}
  | Some m =>
      let* idx := int_of (grp 1 m) in
      let code := grp 2 m in
      let name := grp 3 m in
      match find_data_line (drop (i + 1) lines) with
      | None => Ok {| st_i := i + 1; st_entries := entries |}
      | Some data_line =>
          let vec4s := findall vec4_re data_line in
          if (length vec4s <? 4)%nat then Raise (MalformedRow idx data_line)
          else
            let* d3 := _parse_vec4_components (nth 3 vec4s "") in
            if negb (length d3 =? 4)%nat
            then Raise (MalformedVec4 idx (nth 3 vec4s ""))
            else
              let e := {| idx := idx; code := code; name := name;
                          param1 := nth 3 d3 S754_nan |} in
              Ok {| st_i := i + 1; st_entries := dict_set idx e entries |}
      end
  end.

(** [while i < len(lines)]; [None] when the fuel runs out first. *)
Fixpoint scan_loop (fuel : nat) (lines : list string) (st : scan_state)
    : option (result (pydict Param1Entry)) :=
  if (length lines <=? st_i st)%nat then Some (Ok (st_entries st))
  else
    match fuel with
    | O => None
    | S fuel' =>
        match scan_body lines st with
        | Raise e => Some (Raise e)
        | Ok st' => scan_loop fuel' lines st'
        end
    end.

(** [lines] is what [f.readlines()] returns. *)
Definition parse_shared_wgsl_param1 (lines : list string)
    : option (result (pydict Param1Entry)) :=
  scan_loop (length lines) lines {| st_i := 0; st_entries := [] |}.

(** ** The cross-reference join *)

Definition SENSOR_NAME_TO_TYPE_ID : gmap string Z :=
  list_to_map
    [ ("Alpha Sensor", 22);
      ("Beta Sensor", 23);
      ("Energy Sensor", 24);
      ("Agent Alpha Sensor", 34);
      ("Agent Beta Sensor", 35);
      ("Trail Energy Sensor (alpha)", 37);
      ("Trail Energy Sensor (beta)", 37);
      ("Alpha Magnitude Sensor", 38);
      ("Alpha Magnitude Sensor (var)", 39);
      ("Beta Magnitude Sensor", 40);
      ("Beta Magnitude Sensor (var)", 41) ].

Definition _sensor_kind_from_name (organ_name : string) : option string :=
  if decide (is_Some (SENSOR_NAME_TO_TYPE_ID !! organ_name))
  then Some organ_name else None.

(** A value of a field of an output row. *)
Inductive pyval : Type :=
  | VNone
  | VStr (s : string)
  | VInt (z : Z)
  | VFloat (f : spec_float).

(** An output row: the eleven keys of the dictionaries in [rows]. *)
Record row : Type :=
  { sensor_kind : string;
    organ_type_id : Z;
    promoter_code : string;
    promoter_param1 : pyval;
    modifier_index : pyval;
    modifier_code : string;
    modifier_param1 : pyval;
    combined_param1 : pyval;
    gain_abs : pyval;
    polarity : pyval;
    notes : string }.

(** A row of [csv.DictReader]. *)
Abbreviation csv_row := (gmap string (option string)).

Definition ENV_DYE_NOTE : string :=
  "env_dye_sensor (gain=abs(p+m), sign=sign(p+m))".
Definition NON_PARAM1_NOTE : string :=
  "non_param1_sensor (gain not derived from promoter/modifier param1 in shader)".
Definition ENERGY_NOTE : string :=
  "energy_sensor (uses energy->signal mapping; not promoter/modifier param1 gain)".

(** [{e.code: e.param1 for e in param1.values() if 0 <= e.idx <= 19}] *)
Definition amino_param1_by_code (table : pydict Param1Entry)
    : gmap string spec_float :=
  foldl
    (fun m e =>
       if (0 <=? idx e) && (idx e <=? 19) then <[ code e := param1 e ]> m
       else m)
    ∅ (dict_values table).

(** The promoter columns and their codes, in the order of the literal. *)
Definition promoters : list (string * string) :=
  [ ("V_Valine", "V"); ("M_Methionine", "M");
    ("H_Histidine", "H"); ("Q_Glutamine", "Q") ].

(** [r[key].strip()] *)
Definition cell_strip (r : csv_row) (key : string) : result string :=
  match r !! key with
  | None => Raise (KeyError key)
  | Some None => Raise (AttributeError key)
  | Some (Some s) => Ok (strip s)
  end.

(** [(r.get(key) or "").strip()] *)
Definition cell_or_blank (r : csv_row) (key : string) : string :=
  strip (default "" (mjoin (r !! key))).

Definition opt_float (o : option spec_float) : pyval :=
  match o with Some f => VFloat f | None => VNone end.

(** The organ types whose gain is derived from the two param1. *)
Definition PARAM1_GAIN_IDS : list Z := [22; 23; 38; 39; 40; 41].

(** [organ_type_id in (22, 23, 38, 39, 40, 41)] *)
Definition uses_param1_gain (organ_type_id : Z) : bool :=
  bool_decide (organ_type_id ∈ PARAM1_GAIN_IDS).

(** One turn of the loop over the promoter columns: [Ok None] is
    [continue], [Ok (Some d)] is [rows.append(d)]. *)
Definition promoter_row (amino : gmap string spec_float) (r : csv_row)
    (modifier_idx : Z) (modifier_code : string) (pc : string * string)
    : result (option row) :=
  let '(promoter_col, promoter_code) := pc in
  let organ_name := cell_or_blank r promoter_col in
  match _sensor_kind_from_name organ_name with
  | None => Ok None
  | Some sensor_kind =>
      match SENSOR_NAME_TO_TYPE_ID !! sensor_kind with
      | None => Raise (KeyError sensor_kind)
      | Some organ_type_id =>
          let promoter_p1 := amino !! promoter_code in
          let modifier_p1 := amino !! modifier_code in
          let gain := uses_param1_gain organ_type_id in
          let derived :=
            match gain, promoter_p1, modifier_p1 with
            | true, Some p, Some m =>
                let combined := float_add p m in
                (VFloat combined, VFloat (float_abs combined),
                 VInt (if float_ge0 combined then 1 else -1))
            | _, _, _ => (VNone, VNone, VNone)
            end in
          Ok (Some
                {| sensor_kind := sensor_kind;
                   organ_type_id := organ_type_id;
                   promoter_code := promoter_code;
                   promoter_param1 := opt_float promoter_p1;
                   modifier_index := VInt modifier_idx;
                   modifier_code := modifier_code;
                   modifier_param1 := opt_float modifier_p1;
                   combined_param1 := derived.1.1;
                   gain_abs := derived.1.2;
                   polarity := derived.2;
                   notes := if gain then ENV_DYE_NOTE else NON_PARAM1_NOTE |})
      end
  end.

(** One turn of the loop over the rows of the reader: the rows it
    appends, in order. *)
Definition csv_row_rows (amino : gmap string spec_float) (r : csv_row)
    : result (list row) :=
  let* modifier_idx := (let* s := cell_strip r "Modifier" in int_of s) in
  let* modifier_code := cell_strip r "Modifier_AA" in
  let* ds := mapM_result (promoter_row amino r modifier_idx modifier_code)
               promoters in
  Ok (omap id ds).

Definition energy_row : row :=
  {| sensor_kind := "Energy Sensor";
     organ_type_id := 24;
     promoter_code := "";
     promoter_param1 := VStr "";
     modifier_index := VStr "";
     modifier_code := "";
     modifier_param1 := VStr "";
     combined_param1 := VStr "";
     gain_abs := VStr "";
     polarity := VStr "";
     notes := ENERGY_NOTE |}.

(** ** The sort *)

Definition key : Type := string * string * Z.

Definition sort_key (d : row) : key :=
  (sensor_kind d, promoter_code d,
   match modifier_index d with VInt z => z | _ => 999 end).

(** Comparison of tuples: the first components that differ decide. *)
Definition key_compare (a b : key) : comparison :=
  match String.compare a.1.1 b.1.1 with
  | Eq =>
      match String.compare a.1.2 b.1.2 with
      | Eq => Z.compare a.2 b.2
      | c => c
      end
  | c => c
  end.

Definition key_ltb (a b : key) : bool :=
  match key_compare a b with Lt => true | _ => false end.

Definition key_leb (a b : key) : bool :=
  match key_compare a b with Gt => false | _ => true end.

(** [list.sort(key=...)] is stable, and a stable sort has one result:
    that of inserting every row before the first row whose key is not
    smaller, from the last row of the list to the first. *)
Fixpoint insert_row (d : row) (l : list row) : list row :=
  match l with
  | [] => [d]
  | d' :: l' =>
      if key_ltb (sort_key d') (sort_key d) then d' :: insert_row d l'
      else d :: l
  end.

Fixpoint sort_rows (l : list row) : list row :=
  match l with
  | [] => []
  | d :: l' => insert_row d (sort_rows l')
  end.

(** ** The generator *)

(** [generate_table] once the shader table is parsed. *)
Definition generate_rows (table : pydict Param1Entry) (csv : list csv_row)
    : result (list row) :=
  let amino := amino_param1_by_code table in
  let* rss := mapM_result (csv_row_rows amino) csv in
  let rows := concat rss in
  let rows := if dict_mem 24 table then (rows ++ [energy_row])%list else rows in
  Ok (sort_rows rows).

(** [lines] is the text of the shader as [readlines] returns it, [csv]
    the rows of the organ table as [csv.DictReader] yields them. *)
Definition generate_table (lines : list string) (csv : list csv_row)
    : option (result (list row)) :=
  r ← parse_shared_wgsl_param1 lines;
  Some (let* table := r in generate_rows table csv).

(** ** Vocabulary of the statements *)

(** *** Numeric literals *)

Definition digits (s : string) : Prop := all_chars is_digit s = true.

Definition sign_opt (s : string) : Prop := s = "" ∨ s = "+" ∨ s = "-".

Definition point_opt (s : string) : Prop := s = "" ∨ s = ".".

Definition exponent_opt (s : string) : Prop :=
  s = "" ∨
  ∃ e sg d, s = String e (sg ++ d) ∧ is_exp_mark e = true ∧ sign_opt sg ∧
            digits d ∧ d ≠ "".

(** An optional sign, digits with an optional decimal point before the
    last run of digits, an optional exponent. *)
Definition numeric_literal (lit : string) : Prop :=
  ∃ sg ip pt fp ex,
    lit = sg ++ ip ++ pt ++ fp ++ ex ∧ sign_opt sg ∧ digits ip ∧
    point_opt pt ∧ digits fp ∧ fp ≠ "" ∧ exponent_opt ex.

(** [s] is empty or begins with a character of the class. *)
Definition head_is (q : ascii → bool) (s : string) : Prop :=
  match s with
  | String a _ => q a = true
  | EmptyString => True
  end.

(** [lit] occurs in [p]. *)
Definition occurs_in (lit p : string) : Prop :=
  ∃ pre post, p = pre ++ lit ++ post.

Definition contains_literal (p : string) : Prop :=
  ∃ lit, numeric_literal lit ∧ occurs_in lit p.

(** Characters a literal is not made of. *)
Definition non_numeric (a : ascii) : bool :=
  negb (is_digit a || is_sign a || is_char "." a || is_exp_mark a).

(** *** What a pattern can match

    [den r pos s pos' s']: from position [pos], where the text [s]
    remains, [r] can match up to position [pos'], where [s'] remains. *)
Fixpoint den (r : regex) (pos : nat) (s : string) (pos' : nat) (s' : string)
    : Prop :=
  match r with
  | Chr p => ∃ a, s = String a s' ∧ p a = true ∧ pos' = S pos
  | Lit l => s = l ++ s' ∧ pos' = (pos + String.length l)%nat
  | Seq r1 r2 => ∃ p1 s1, den r1 pos s p1 s1 ∧ den r2 p1 s1 pos' s'
  | Opt r1 => den r1 pos s pos' s' ∨ (pos' = pos ∧ s' = s)
  | Star p =>
      ∃ t, all_chars p t = true ∧ s = t ++ s' ∧
           pos' = (pos + String.length t)%nat
  | Plus p | PlusLazy p =>
      ∃ t, all_chars p t = true ∧ t ≠ "" ∧ s = t ++ s' ∧
           pos' = (pos + String.length t)%nat
  | Group _ r1 => den r1 pos s pos' s'
  | Bol => pos = 0%nat ∧ pos' = pos ∧ s' = s
  | Eol => at_eol s = true ∧ pos' = pos ∧ s' = s
  end.

(** [den] with the groups: from the groups [c], the match leaves the
    groups [c']. *)
Fixpoint den_caps (r : regex) (pos : nat) (s : string) (c : caps)
    (pos' : nat) (s' : string) (c' : caps) : Prop :=
  match r with
  | Seq r1 r2 =>
      ∃ p1 s1 c1, den_caps r1 pos s c p1 s1 c1 ∧ den_caps r2 p1 s1 c1 pos' s' c'
  | Opt r1 => den_caps r1 pos s c pos' s' c' ∨ (pos' = pos ∧ s' = s ∧ c' = c)
  | Group n r1 =>
      ∃ c1, den_caps r1 pos s c pos' s' c1 ∧
            c' = (n, str_take (pos' - pos) s) :: c1
  | _ => den r pos s pos' s' ∧ c' = c
  end.

(** *** Lines of the shader text, as the forward search tells them apart *)

Definition blank_line (l : string) : bool := is_empty (strip l).

Definition comment_line (l : string) : bool :=
  negb (blank_line l) && startswith "//" (strip l).

Definition data_line (l : string) : bool :=
  negb (blank_line l) && negb (startswith "//" (strip l))
  && contains DATA_MARK (strip l).

(** The fragments of a vector group. *)
Definition components (group : string) : list string :=
  strip <$> split "," group.

(** *** Output rows *)

(** A field that is written as an empty cell. *)
Definition empty_val (v : pyval) : bool :=
  match v with
  | VNone => true
  | VStr s => is_empty s
  | _ => false
  end.

(** Promoter code, promoter param1, modifier index, modifier code,
    modifier param1, combined, gain and polarity are all empty. *)
Definition join_fields_empty (d : row) : bool :=
  is_empty (promoter_code d) && empty_val (promoter_param1 d)
  && empty_val (modifier_index d) && is_empty (modifier_code d)
  && empty_val (modifier_param1 d) && empty_val (combined_param1 d)
  && empty_val (gain_abs d) && empty_val (polarity d).

Definition is_energy_kind (d : row) : bool :=
  String.eqb (sensor_kind d) "Energy Sensor".

Definition synthetic (d : row) : bool :=
  is_energy_kind d && join_fields_empty d.

Definition int_index (d : row) : bool :=
  match modifier_index d with VInt _ => true | _ => false end.

(** The order of the keys of two rows. *)
Definition row_le (a b : row) : Prop :=
  key_leb (sort_key a) (sort_key b) = true.

Definition same_group (a b : row) : Prop :=
  sensor_kind a = sensor_kind b ∧ promoter_code a = promoter_code b.

(** The organ name in a promoter column of a row classifies. *)
Definition classified (r : csv_row) (pc : string * string) : bool :=
  bool_decide (is_Some (_sensor_kind_from_name (cell_or_blank r pc.1))).

(** The number of (row, promoter column) pairs that classify. *)
Definition classified_pairs (csv : list csv_row) : nat :=
  sum_list ((fun r => length (filter (fun pc => classified r pc = true) promoters))
              <$> csv).

(** The modifier cells of a row read as the loop reads them. *)
Definition modifier_cells (r : csv_row) : result (Z * string) :=
  let* s := cell_strip r "Modifier" in
  let* i := int_of s in
  let* c := cell_strip r "Modifier_AA" in
  Ok (i, c).

(** A promoter cell that is missing, filled in by the reader, empty or
    white space only. *)
Definition blank_cell (r : csv_row) (col : string) : Prop :=
  r !! col = None ∨ r !! col = Some None ∨
  ∃ s, r !! col = Some (Some s) ∧ all_chars is_space s = true.

(** A row whose [Modifier] or [Modifier_AA] cell cannot be read: the
    column is missing, the cell was filled in by the reader, or the
    [Modifier] cell is not an integer for [int]. *)
Definition bad_modifier (r : csv_row) : Prop :=
  r !! "Modifier" = None ∨ r !! "Modifier" = Some None ∨
  (∃ s, r !! "Modifier" = Some (Some s) ∧ py_int (strip s) = None) ∨
  r !! "Modifier_AA" = None ∨ r !! "Modifier_AA" = Some None.

(** ** Sample inputs *)

Module Sample.

Definition nl : string := String newline "".

(** A data line whose fourth vector is [last]. *)
Definition data (last : string) : string :=
  "    array<vec4<f32>,6>( vec4<f32>(1.0, 0.5, 0.0, 0.0), "
  ++ "vec4<f32>(0.0, 0.0, 0.0, 0.0), vec4<f32>(0.2, 0.0, 0.0, 1.0), "
  ++ "vec4<f32>(" ++ last ++ "), vec4<f32>(0.0, 0.0, 0.0, 0.0), "
  ++ "vec4<f32>(0.0, 0.0, 0.0, 0.0) )," ++ nl.

(** Valine and histidine among the amino acids, and the organ 24. *)
Definition shader : list string :=
  [ "const AMINO_DATA = array<array<vec4<f32>,6>, 42>(" ++ nl;
    "    // 17 V - Valine" ++ nl;
    data "0.0, 0.3, -0.73, -0.23";
    "    // 8 H - Histidine" ++ nl;
    nl;
    data "0.0, 0.3, -0.73, 0.1";
    "    // 24 E - Energy Sensor" ++ nl;
    data "0.0, 0.0, 0.0, 0.0";
    ");" ++ nl ].

(** The table with the record named "Energy Sensor" under index 30. *)
Definition shader_named_30 : list string :=
  [ "    // 30 E - Energy Sensor" ++ nl; data "0.0, 0.0, 0.0, 0.0" ].

(** The table with a record of another name under index 24. *)
Definition shader_other_24 : list string :=
  [ "    // 24 X - Mouth" ++ nl; data "0.0, 0.0, 0.0, 0.0" ].

(** A fourth vector with a component that holds no number. *)
Definition shader_bad_component : list string :=
  [ "    // 3 A - Alanine" ++ nl; data "0.0, 0.3, x, 0.1" ].

(** Three vectors only. *)
Definition shader_three_groups : list string :=
  [ "    // 3 A - Alanine" ++ nl;
    "    array<vec4<f32>,6>( vec4<f32>(1.0, 0.5, 0.0, 0.0), "
    ++ "vec4<f32>(0.0, 0.0, 0.0, 0.0), vec4<f32>(0.2, 0.0, 0.0, 1.0) ),"
    ++ nl ].

(** A header whose data is cut off by the next comment. *)
Definition shader_abandoned : list string :=
  [ "    // 3 A - Alanine" ++ nl;
    "    // see below" ++ nl;
    data "0.0, 0.3, 0.5, 0.1" ].

Definition csv_row_of (cells : list (string * string)) : csv_row :=
  list_to_map (prod_map id Some <$> cells).

Definition csv : list csv_row :=
  [ csv_row_of [ ("Modifier", "5"); ("Modifier_AA", "H");
                 ("V_Valine", "Alpha Sensor"); ("M_Methionine", "Mouth");
                 ("H_Histidine", ""); ("Q_Glutamine", " Agent Alpha Sensor ") ];
    csv_row_of [ ("Modifier", "2"); ("Modifier_AA", "V");
                 ("V_Valine", "Beta Sensor"); ("M_Methionine", "   ") ] ].

(** A cell that names the energy sensor. *)
Definition csv_energy : list csv_row :=
  [ csv_row_of [ ("Modifier", "5"); ("Modifier_AA", "H");
                 ("V_Valine", "Energy Sensor") ] ].

(** An allow-listed sensor whose modifier has no param1. *)
Definition csv_unknown_modifier : list csv_row :=
  [ csv_row_of [ ("Modifier", "5"); ("Modifier_AA", "Z");
                 ("V_Valine", "Alpha Sensor") ] ].

(** No promoter column at all. *)
Definition csv_no_promoters : list csv_row :=
  [ csv_row_of [ ("Modifier", "5"); ("Modifier_AA", "H") ] ].

(** A modifier index that is not an integer. *)
Definition csv_bad_modifier : list csv_row :=
  [ csv_row_of [ ("Modifier", "5.0"); ("Modifier_AA", "H");
                 ("M_Methionine", "Mouth") ] ].

End Sample.

(** ** Vocabulary of the further properties *)

(** The record the header at line [i] yields when the scan takes it with
    an empty table: none when the line is no header, when its data line
    is not found, or when the turn raises. *)
Definition record_at (lines : list string) (i : nat) : option Param1Entry :=
  match scan_body lines {| st_i := i; st_entries := [] |} with
  | Ok st => snd <$> head (st_entries st)
  | Raise _ => None
  end.

(** A record of the amino-acid indices with the code [c]. *)
Definition amino_record (c : string) (e : Param1Entry) : Prop :=
  0 ≤ idx e ≤ 19 ∧ code e = c.

(** The rows with the sort key [k], in the order of the list. *)
Definition with_key (k : key) (l : list row) : list row :=
  filter (λ d, sort_key d = k) l.

(** The columns [generate_table] reads. *)
Definition READ_COLUMNS : list string :=
  "Modifier" :: "Modifier_AA" :: promoters.*1.

(** Two rows of the reader whose cells in the columns read differ at
    most by white space around the text. *)
Definition same_stripped_cells (r r' : csv_row) : Prop :=
  ∀ col, col ∈ READ_COLUMNS →
    fmap (M := option) strip <$> r !! col = fmap (M := option) strip <$> r' !! col.

(** Some character of [s] is in the class. *)
Fixpoint any_char (p : ascii → bool) (s : string) : bool :=
  match s with
  | String a s' => p a || any_char p s'
  | EmptyString => false
  end.

(** [s.count(c)] *)
Fixpoint count_char (c : ascii) (s : string) : nat :=
  match s with
  | String a s' => ((if Ascii.eqb a c then 1 else 0) + count_char c s')%nat
  | EmptyString => 0%nat
  end.



(** No line from [lo] on yields a record of index [n]. *)
Definition no_record_from (lines : list string) (lo : nat) (n : Z) : Prop :=
  ∀ j e, (lo ≤ j)%nat → record_at lines j = Some e → idx e ≠ n.

(** [e] is the record of index [n] of the last line, from [lo] on, that
    yields a record of that index. *)
Definition last_record_from (lines : list string) (lo : nat) (n : Z)
    (e : Param1Entry) : Prop :=
  ∃ i, (lo ≤ i)%nat ∧ record_at lines i = Some e ∧ idx e = n ∧
       no_record_from lines (S i) n.


(** Sample texts of the shader for the further properties. *)
Module Texts.

(** Two headers of index 3, then a header whose data has three vectors,
    then one whose data has a component without a number. *)
Definition twice : list string :=
  [ "    // 3 A - Alanine" ++ Sample.nl;
    Sample.data "0.0, 0.3, 0.5, 0.1";
    "    // 3 B - Other" ++ Sample.nl;
    Sample.data "0.0, 0.3, 0.5, 0.3" ].

Definition two_bad : list string :=
  (twice ++ Sample.shader_three_groups ++ Sample.shader_bad_component)%list.

End Texts.

(** Sample organ tables for the further properties. *)
Module Tables.

(** Cells that name the energy sensor and a kind that sorts before it. *)
Definition csv_leading : list csv_row :=
  [ Sample.csv_row_of
      [ ("Modifier", "5"); ("Modifier_AA", "H");
        ("V_Valine", "Energy Sensor"); ("Q_Glutamine", "Agent Alpha Sensor") ] ].

(** [Sample.csv] with other white space around the text of its cells and
    a column more. *)
Definition csv_padded : list csv_row :=
  [ Sample.csv_row_of
      [ ("Modifier", " 5"); ("Modifier_AA", "H  "); ("Organ", "Mouth");
        ("V_Valine", "  Alpha Sensor "); ("M_Methionine", "Mouth");
        ("H_Histidine", "   "); ("Q_Glutamine", "Agent Alpha Sensor") ];
    Sample.csv_row_of
      [ ("Modifier", "2 "); ("Modifier_AA", " V");
        ("V_Valine", "Beta Sensor"); ("M_Methionine", "") ] ].

End Tables.


(** ** The energy-storage patch

    A shallow embedding of [scripts/update_energy_storage.py].  The
    document [json.load] returns is a tree of Python values without
    sharing: the in-place assignments of the script are modelled by
    rebuilding the tree along the path assigned to.  A dictionary keeps
    its insertion order and, after an assignment [d[3] = v], can hold an
    integer key next to the string keys of the file.  A float is a
    binary64 value in canonical form.  What is modelled of the file
    written by [json.dump] is the document dumped, and of the lines
    printed the values they interpolate. *)

Module Patch.

Inductive key : Type :=
  | KStr (s : string)
  | KInt (z : Z).

#[global] Instance key_eq_dec : EqDecision key.
Proof. solve_decision. Defined.

#[local] Unset Elimination Schemes.
Inductive json : Type :=
  | JNull
  | JBool (b : bool)
  | JInt (z : Z)
  | JFloat (f : spec_float)
  | JStr (s : string)
  | JList (l : list json)
  | JDict (d : list (key * json)).
#[local] Set Elimination Schemes.

(** The exceptions of subscripting, iterating and comparing. *)
Inductive error : Type :=
  | KeyErr (k : key)
  | IndexErr
  | TypeErr.

Inductive outcome (A : Type) : Type :=
  | Done (a : A)
  | Fail (e : error).
Arguments Done {A} a.
Arguments Fail {A} e.

Definition and_then {A B} (x : outcome A) (f : A → outcome B) : outcome B :=
  match x with
  | Done a => f a
  | Fail e => Fail e
  end.

Notation "'do*' x ':=' e 'in' k" := (and_then e (fun x => k))
  (at level 10, x name, e at level 100, k at level 200).

Definition float_1 : spec_float := S754_finite false 4503599627370496 (-52).
Definition float_10 : spec_float := S754_finite false 5629499534213120 (-49).
Definition float_19 : spec_float := S754_finite false 5348024557502464 (-48).
Definition float_28 : spec_float := S754_finite false 7881299347898368 (-48).

Fixpoint dict_lookup (k : key) (d : list (key * json)) : option json :=
  match d with
  | [] => None
  | (k', v) :: d' => if decide (k' = k) then Some v else dict_lookup k d'
  end.

(** [d[k] = v] *)
Fixpoint dict_store (k : key) (v : json) (d : list (key * json))
    : list (key * json) :=
  match d with
  | [] => [(k, v)]
  | (k', v') :: d' =>
      if decide (k' = k) then (k, v) :: d' else (k', v') :: dict_store k v d'
  end.

(** [v[k]] for a string [k] *)
Definition getitem (v : json) (k : string) : outcome json :=
  match v with
  | JDict d =>
      match dict_lookup (KStr k) d with
      | Some x => Done x
      | None => Fail (KeyErr (KStr k))
      end
  | _ => Fail TypeErr
  end.

Fixpoint char_at (n : nat) (s : string) : option ascii :=
  match s, n with
  | String a _, O => Some a
  | String _ s', S n' => char_at n' s'
  | EmptyString, _ => None
  end.

(** [v[i]] for an index [i] that is not negative *)
Definition getindex (v : json) (i : nat) : outcome json :=
  match v with
  | JList l =>
      match l !! i with
      | Some x => Done x
      | None => Fail IndexErr
      end
  | JDict d =>
      match dict_lookup (KInt (Z.of_nat i)) d with
      | Some x => Done x
      | None => Fail (KeyErr (KInt (Z.of_nat i)))
      end
  | JStr s =>
      match char_at i s with
      | Some a => Done (JStr (String a ""))
      | None => Fail IndexErr
      end
  | _ => Fail TypeErr
  end.

(** [v[i] = x] for an index [i] that is not negative: the value [v] has
    after the assignment. *)
Definition setindex (v : json) (i : nat) (x : json) : outcome json :=
  match v with
  | JList l =>
      if decide (i < length l)%nat then Done (JList (<[ i := x ]> l))
      else Fail IndexErr
  | JDict d => Done (JDict (dict_store (KInt (Z.of_nat i)) x d))
  | _ => Fail TypeErr
  end.

(** [v >= 0] *)
Definition ge_0 (v : json) : outcome bool :=
  match v with
  | JInt z => Done (0 <=? z)
  | JFloat f => Done (SFleb (S754_zero false) f)
  | JBool _ => Done true
  | _ => Fail TypeErr
  end.

(** [v <= 19] *)
Definition le_19 (v : json) : outcome bool :=
  match v with
  | JInt z => Done (z <=? 19)
  | JFloat f => Done (SFleb f float_19)
  | JBool _ => Done true
  | _ => Fail TypeErr
  end.

(** [v == 28] *)
Definition eq_28 (v : json) : bool :=
  match v with
  | JInt z => z =? 28
  | JFloat f => SFeqb f float_28
  | _ => false
  end.

(** A line printed for a part: the values of [part['name']] and
    [part['index']], and the energy stored. *)
Inductive message : Type :=
  | Updated (name index : json) (energy : spec_float)
  | Success.

(** [part['vec4'][2][3] = x], for a [part] that is a dictionary: the
    part after the assignment. *)
Definition store_energy (part : json) (x : spec_float) : outcome json :=
  do* vec4 := getitem part "vec4" in
  do* row := getindex vec4 2 in
  do* row' := setindex row 3 (JFloat x) in
  match part, vec4 with
  | JDict d, JList l =>
      Done (JDict (dict_store (KStr "vec4") (JList (<[ 2%nat := row' ]> l)) d))
  | JDict d, JDict t =>
      Done (JDict (dict_store (KStr "vec4")
                     (JDict (dict_store (KInt 2) row' t)) d))
  | _, _ => Done part
  end.

(** The assignment and the [print] under an [if]. *)
Definition update (part : json) (x : spec_float)
    : outcome (json * list message) :=
  do* part' := store_energy part x in
  do* name := getitem part' "name" in
  do* index := getitem part' "index" in
  Done (part', [Updated name index x]).

(** The body of the loop: the part after it and the lines printed. *)
Definition update_part (part : json) : outcome (json * list message) :=
  do* i := getitem part "index" in
  do* lo := ge_0 i in
  do* amino :=
    (if lo then do* i' := getitem part "index" in le_19 i' else Done false) in
  do* r := (if amino then update part float_1 else Done (part, [])) in
  do* j := getitem r.1 "index" in
  if eq_28 j then
    do* r' := update r.1 float_10 in
    Done (r'.1, (r.2 ++ r'.2)%list)
  else Done r.

(** [for part in v]: the values the loop takes. *)
Definition iterate (v : json) : outcome (list json) :=
  match v with
  | JList l => Done l
  | JDict d =>
      Done ((λ kv, match kv.1 with KStr s => JStr s | KInt z => JInt z end)
              <$> d)
  | JStr s => Done ((λ a, JStr (String a "")) <$> list_ascii_of_string s)
  | _ => Fail TypeErr
  end.

Fixpoint update_parts (parts : list json) : outcome (list json * list message) :=
  match parts with
  | [] => Done ([], [])
  | part :: parts' =>
      do* r := update_part part in
      do* rs := update_parts parts' in
      Done (r.1 :: rs.1, (r.2 ++ rs.2)%list)
  end.

(** The script from [json.load] to the last [print]: the document
    written and the lines printed, or the exception, raised before the
    file is opened for writing. *)
Definition update_energy_storage (data : json)
    : outcome (json * list message) :=
  do* parts := getitem data "parts" in
  do* items := iterate parts in
  do* r := update_parts items in
  let data' :=
    match data, parts with
    | JDict d, JList _ => JDict (dict_store (KStr "parts") (JList r.1) d)
    | _, _ => data
    end in
  Done (data', (r.2 ++ [Success])%list).

(** *** Vocabulary *)

(** The energy the script stores in a part: by the index of the part. *)
Definition target (part : json) : option spec_float :=
  match part with
  | JDict d =>
      match dict_lookup (KStr "index") d with
      | Some (JInt z) =>
          if (0 <=? z) && (z <=? 19) then Some float_1
          else if z =? 28 then Some float_10 else None
      | Some (JFloat f) =>
          if SFleb (S754_zero false) f && SFleb f float_19 then Some float_1
          else if SFeqb f float_28 then Some float_10 else None
      | Some (JBool _) => Some float_1
      | _ => None
      end
  | _ => None
  end.

(** [part['vec4'][2][3]] *)
Definition energy (part : json) : outcome json :=
  do* vec4 := getitem part "vec4" in
  do* row := getindex vec4 2 in
  getindex row 3.

(** What the loop makes of a part: the part with its energy stored when
    its index is one of those the script updates, the part itself
    otherwise. *)
Definition patched (part part' : json) : Prop :=
  match target part with
  | Some x => store_energy part x = Done part'
  | None => part' = part
  end.

(** The line printed for a part after the loop. *)
Definition report (part' : json) : list message :=
  match target part', getitem part' "name", getitem part' "index" with
  | Some x, Done name, Done index => [Updated name index x]
  | _, _, _ => []
  end.

(** *** A sample document *)

Definition zeros : json := JList [JInt 0; JInt 0; JInt 0; JInt 0].

(** A part with the energy [e] at [vec4[2][3]]. *)
Definition sample_part (index : Z) (name : string) (e : json) : json :=
  JDict [ (KStr "index", JInt index); (KStr "name", JStr name);
          (KStr "vec4",
           JList [zeros; zeros; JList [JInt 0; JInt 0; JInt 0; e]; zeros]) ].

(** An amino acid, the storage organ, and a part the script leaves
    alone, which has no [vec4]. *)
Definition sample : json :=
  JDict [ (KStr "version", JInt 3);
          (KStr "parts",
           JList [ sample_part 3 "Alanine" (JFloat (S754_zero false));
                   sample_part 28 "Storage" (JInt 0);
                   JDict [ (KStr "index", JInt 30); (KStr "name", JStr "Mouth") ] ]) ].

Definition sample_written : json :=
  JDict [ (KStr "version", JInt 3);
          (KStr "parts",
           JList [ sample_part 3 "Alanine" (JFloat float_1);
                   sample_part 28 "Storage" (JFloat float_10);
                   JDict [ (KStr "index", JInt 30); (KStr "name", JStr "Mouth") ] ]) ].

Definition sample_printed : list message :=
  [ Updated (JStr "Alanine") (JInt 3) float_1;
    Updated (JStr "Storage") (JInt 28) float_10;
    Success ].

End Patch.

(** ** The shader-energy patch

    A shallow embedding of [scripts/update_shader_energy.py]: the text
    read from the shader file to the text written back.  Its pattern
    needs one construct more than the patterns of the table generator,
    the lazy star; the other pieces are patterns of [Re]. *)

Module Subst.

(** [\w] on the modelled code points: the letters, digits and numeric
    characters of Latin-1, and the underscore. *)
Definition is_word (a : ascii) : bool :=
  let n := ord a in
  (is_digit a || is_upper a || ((97 <=? n) && (n <=? 122)) || (n =? 95)
   || (n =? 170) || (n =? 178) || (n =? 179) || (n =? 181) || (n =? 185)
   || (n =? 186) || ((188 <=? n) && (n <=? 190))
   || ((192 <=? n) && (n <=? 214)) || ((216 <=? n) && (n <=? 246))
   || (248 <=? n))%nat.

(** [[^,]] *)
Definition not_comma (a : ascii) : bool := negb (is_char "," a).

Inductive pattern : Type :=
  | Piece (r : regex)                (** a pattern without lazy star *)
  | StarLazy (p : ascii → bool)      (** [[p]*?] *)
  | Then (p1 p2 : pattern)
  | Capture (n : nat) (p : pattern). (** the [n]-th capturing group *)

Section Matcher.
Context {A : Type}.

(** The shortest repetition first. *)
Fixpoint star_lazy (p : ascii → bool) (pos : nat) (s : string) (c : caps)
    (k : @cont A) : option A :=
  orelse (k pos s c)
    match s with
    | String a s' => if p a then star_lazy p (S pos) s' c k else None
    | EmptyString => None
    end.

Fixpoint run_pattern (pat : pattern) (pos : nat) (s : string) (c : caps)
    (k : @cont A) : option A :=
  match pat with
  | Piece r => run r pos s c k
  | StarLazy p => star_lazy p pos s c k
  | Then p1 p2 =>
      run_pattern p1 pos s c (fun pos' s' c' => run_pattern p2 pos' s' c' k)
  | Capture n p1 =>
      run_pattern p1 pos s c
        (fun pos' s' c' => k pos' s' ((n, str_take (pos' - pos) s) :: c'))
  end.
End Matcher.

Definition attempt (pat : pattern) (pos : nat) (s : string) : option mtch :=
  run_pattern pat pos s []
    (fun pos' s' c' =>
       Some {| m_text := str_take (pos' - pos) s; m_end := pos';
               m_rest := s'; m_caps := c' |}).

(** The leftmost match from [pos] on, with the text before it. *)
Fixpoint find (pat : pattern) (pos : nat) (s : string)
    : option (string * mtch) :=
  match attempt pat pos s with
  | Some m => Some ("", m)
  | None =>
      match s with
      | String a s' =>
          match find pat (S pos) s' with
          | Some (pre, m) => Some (String a pre, m)
          | None => None
          end
      | EmptyString => None
      end
  end.

(** [re.sub(pat, repl, s)] for a function [repl]: the matches are
    replaced from left to right; after an empty match the scan moves on
    by one character. *)
Fixpoint sub (fuel : nat) (pat : pattern) (repl : mtch → string) (pos : nat)
    (s : string) : string :=
  match fuel with
  | O => s
  | S fuel' =>
      match find pat pos s with
      | None => s
      | Some (pre, m) =>
          pre ++ repl m ++
          (if is_empty (m_text m)
           then match m_rest m with
                | String a s' =>
                    String a (sub fuel' pat repl (S (m_end m)) s')
                | EmptyString => EmptyString
                end
           else sub fuel' pat repl (m_end m) (m_rest m))
      end
  end.

Definition ARRAY_OPEN : string := "array<vec4<f32>,6>(".

(** [//\s+\d+\s+[A-Z]\s+-\s+\w+] *)
Definition header : regex :=
  cat [ Lit "//"; Plus is_space; Plus is_digit; Plus is_space; Chr is_upper;
        Plus is_space; Lit "-"; Plus is_space; Plus is_word ].

(** From [array<vec4<f32>,6>\(] to the [\s*] before the last component
    of the third vector. *)
Definition vectors : regex :=
  cat [ Lit ARRAY_OPEN; Plus is_space;
        Lit "vec4<f32>("; Plus not_rparen; Lit "),"; Plus is_space;
        Lit "vec4<f32>("; Plus not_rparen; Lit "),"; Plus is_space;
        Lit "vec4<f32>("; Plus not_comma; Lit ","; Plus not_comma; Lit ",";
        Plus not_comma; Lit ","; Star is_space ].

(** The pattern of the script: group 1 is the header, [.*?] and the
    vectors, then [0\.0], then group 2, [\s*\),]. *)
Definition pattern_ : pattern :=
  Then (Capture 1 (Then (Piece header) (Then (StarLazy not_newline) (Piece vectors))))
    (Then (Piece (Lit "0.0"))
       (Capture 2 (Piece (cat [ Star is_space; Lit ")," ])))).

Definition replace_func (m : mtch) : string := grp 1 m ++ "1.0" ++ grp 2 m.

(** [new_content], from [content]. *)
Definition update_shader_energy (content : string) : string :=
  sub (S (String.length content)) pattern_ replace_func 0 content.

(** *** Vocabulary *)

(** What a pattern can match, with the groups. *)
Fixpoint den_pattern (pat : pattern) (pos : nat) (s : string) (c : caps)
    (pos' : nat) (s' : string) (c' : caps) : Prop :=
  match pat with
  | Piece r => den_caps r pos s c pos' s' c'
  | StarLazy p =>
      ∃ t, all_chars p t = true ∧ s = t ++ s' ∧
           pos' = (pos + String.length t)%nat ∧ c' = c
  | Then p1 p2 =>
      ∃ q1 s1 c1, den_pattern p1 pos s c q1 s1 c1 ∧
                  den_pattern p2 q1 s1 c1 pos' s' c'
  | Capture n p1 =>
      ∃ c1, den_pattern p1 pos s c pos' s' c1 ∧
            c' = (n, str_take (pos' - pos) s) :: c1
  end.

(** [s'] is [s] with some of its characters "0" turned into "1". *)
Fixpoint flipped (s s' : string) : Prop :=
  match s, s' with
  | EmptyString, EmptyString => True
  | String a t, String b t' =>
      (b = a ∨ (a = "0"%char ∧ b = "1"%char)) ∧ flipped t t'
  | _, _ => False
  end.

(** Some line of the text holds [array<vec4<f32>,6>(] after a word
    character: [seen] tells whether a word character was met on the
    line so far. *)
Fixpoint opener_after_word (seen : bool) (s : string) : bool :=
  (seen && startswith ARRAY_OPEN s)
  || match s with
     | String a s' =>
         opener_after_word
           (if Ascii.eqb a newline then false else seen || is_word a) s'
     | EmptyString => false
     end.

(** Sample texts. *)
Definition vectors_text : string :=
  "array<vec4<f32>,6>( vec4<f32>(1.0, 0.5, 0.0, 0.0), "
  ++ "vec4<f32>(0.0, 0.0, 0.0, 0.0), vec4<f32>(0.2, 0.0, 0.0, 0.0), "
  ++ "vec4<f32>(0.0, 0.3, -0.73, -0.23) )," ++ Sample.nl.

(** The header on the line of the vectors. *)
Definition one_line : string := "  // 17 V - Valine: " ++ vectors_text.

(** The header on a line of its own, as the table generator reads it. *)
Definition two_lines : string :=
  "  // 17 V - Valine" ++ Sample.nl ++ "  " ++ vectors_text.

End Subst.

(** * Facts about text *)

Lemma app_cons (a : ascii) (s t : string) : String a s ++ t = String a (s ++ t).
Proof. reflexivity. Qed.

Lemma app_empty_l (s : string) : "" ++ s = s.
Proof. reflexivity. Qed.

Lemma app_empty_r (s : string) : s ++ "" = s.
Proof. induction s as [|a s IH]; [done|]. by rewrite app_cons, IH. Qed.

Lemma app_assoc_s (s t u : string) : (s ++ t) ++ u = s ++ t ++ u.
Proof. induction s as [|a s IH]; [done|]. by rewrite !app_cons, IH. Qed.

Lemma length_app_s (s t : string) :
  String.length (s ++ t) = (String.length s + String.length t)%nat.
Proof. induction s as [|a s IH]; [done|]. rewrite app_cons. simpl. by rewrite IH. Qed.

Lemma str_take_app (s t : string) : str_take (String.length s) (s ++ t) = s.
Proof. induction s as [|a s IH]; [by destruct t|]. rewrite app_cons. simpl. by rewrite IH. Qed.

Lemma app_eq_empty (s t : string) : s ++ t = "" → s = "" ∧ t = "".
Proof. destruct s; [done|]. by rewrite app_cons. Qed.

Lemma all_chars_app p (s t : string) :
  all_chars p (s ++ t) = all_chars p s && all_chars p t.
Proof.
  induction s as [|a s IH]; [done|].
  rewrite app_cons. simpl. rewrite IH. by rewrite andb_assoc.
Qed.

Lemma strip_prefix_app (l s : string) : strip_prefix l (l ++ s) = Some s.
Proof.
  induction l as [|a l IH]; [done|].
  rewrite app_cons. simpl. by rewrite Ascii.eqb_refl.
Qed.

Lemma strip_prefix_Some (l s s' : string) : strip_prefix l s = Some s' → s = l ++ s'.
Proof.
  revert s. induction l as [|a l IH]; intros s; simpl.
  - by intros [= ->].
  - destruct s as [|b s]; [done|].
    destruct (Ascii.eqb_spec a b) as [->|]; [|done].
    intros H. rewrite app_cons. by rewrite (IH _ H).
Qed.

Lemma app_inv_head_s (s t u : string) : s ++ t = s ++ u → t = u.
Proof. induction s as [|a s IH]; [done|]. rewrite !app_cons. intros [= H]. auto. Qed.

Lemma app_length_inv (s1 t1 s2 t2 : string) :
  s1 ++ t1 = s2 ++ t2 → String.length s1 = String.length s2 → s1 = s2 ∧ t1 = t2.
Proof.
  revert s2. induction s1 as [|a s1 IH]; intros [|b s2]; try done.
  rewrite !app_cons. intros [= -> H] [= Hl]. destruct (IH _ H Hl) as [-> ->]. done.
Qed.

Lemma app_inv_tail_s (s t u : string) : s ++ u = t ++ u → s = t.
Proof.
  intros H. apply (app_length_inv _ _ _ _ H).
  apply (f_equal String.length) in H. rewrite !length_app_s in H. lia.
Qed.

(** * Facts about the matcher *)

Section MatcherFacts.
Context {A : Type}.
Implicit Types (k : @cont A) (p : ascii → bool) (r : regex).

Lemma orelse_Some (x y : option A) (v : A) :
  orelse x y = Some v → x = Some v ∨ (x = None ∧ y = Some v).
Proof. destruct x; simpl; intros; simplify_eq; auto. Qed.

Lemma orelse_is_Some (x y : option A) :
  is_Some x ∨ is_Some y → is_Some (orelse x y).
Proof. destruct x; simpl; [eauto|]. intros [[? [=]]|?]; done. Qed.

Lemma star_sound p pos s c k x :
  star p pos s c k = Some x →
  ∃ t s', all_chars p t = true ∧ s = t ++ s' ∧
          k (pos + String.length t)%nat s' c = Some x.
Proof.
  revert pos. induction s as [|a s IH]; intros pos; simpl.
  - intros H. exists "", "". rewrite Nat.add_0_r. done.
  - destruct (p a) eqn:Hp.
    + intros [H|[_ H]]%orelse_Some.
      * destruct (IH _ H) as (t & s' & Ht & -> & Hk).
        exists (String a t), s'. simpl. rewrite Hp, Ht.
        split_and!; [done..|]. by rewrite <- Nat.add_succ_comm.
      * exists "", (String a s). rewrite Nat.add_0_r. done.
    + intros H. exists "", (String a s). rewrite Nat.add_0_r. done.
Qed.

Lemma star_complete p t s' pos c k :
  all_chars p t = true →
  is_Some (k (pos + String.length t)%nat s' c) →
  is_Some (star p pos (t ++ s') c k).
Proof.
  revert pos. induction t as [|a t IH]; intros pos; simpl.
  - intros _. rewrite Nat.add_0_r, app_empty_l.
    destruct s' as [|b s']; simpl; [done|].
    intros H. destruct (p b); [|done]. apply orelse_is_Some; auto.
  - intros [Ha Ht]%andb_true_iff Hk. rewrite ?app_cons. simpl. rewrite Ha.
    apply orelse_is_Some. left. apply IH; [done|].
    by rewrite Nat.add_succ_comm.
Qed.

Lemma plus_lazy_sound p pos s c k x :
  plus_lazy p pos s c k = Some x →
  ∃ t s', all_chars p t = true ∧ t ≠ "" ∧ s = t ++ s' ∧
          k (pos + String.length t)%nat s' c = Some x.
Proof.
  revert pos. induction s as [|a s IH]; intros pos; simpl; [done|].
  destruct (p a) eqn:Hp; [|done].
  intros [H|[_ H]]%orelse_Some.
  - exists (String a ""), s. simpl. rewrite Hp.
    split_and!; [done..|]. by rewrite Nat.add_1_r.
  - destruct (IH _ H) as (t & s' & Ht & _ & -> & Hk).
    exists (String a t), s'. simpl. rewrite Hp, Ht.
    split_and!; [done..|]. by rewrite <- Nat.add_succ_comm.
Qed.

Lemma plus_lazy_complete p t s' pos c k :
  all_chars p t = true → t ≠ "" →
  is_Some (k (pos + String.length t)%nat s' c) →
  is_Some (plus_lazy p pos (t ++ s') c k).
Proof.
  revert pos. induction t as [|a t IH]; intros pos; [done|]. simpl.
  intros [Ha Ht]%andb_true_iff _ Hk. rewrite ?app_cons. simpl. rewrite Ha.
  apply orelse_is_Some.
  destruct t as [|b t].
  - left. rewrite app_empty_l. by rewrite Nat.add_1_r in Hk.
  - right. apply IH; [done..|]. by rewrite Nat.add_succ_comm.
Qed.

(** Whatever the matcher returns comes from the continuation, called
    where the pattern can stop. *)
Lemma run_sound r : ∀ pos s c k x,
  run r pos s c k = Some x →
  ∃ pos' s' c', den r pos s pos' s' ∧ k pos' s' c' = Some x.
Proof.
  induction r as [p|l|r1 IH1 r2 IH2|r1 IH1|p|p|p|n r1 IH1| |];
    intros pos s c k x; simpl.
  - destruct s as [|a s]; [done|]. destruct (p a) eqn:Hp; [|done].
    intros H. exists (S pos), s, c. eauto.
  - destruct (strip_prefix l s) as [s'|] eqn:Hl; [|done].
    intros H. apply strip_prefix_Some in Hl. eauto 10.
  - intros H. apply IH1 in H as (p1 & s1 & c1 & H1 & H).
    apply IH2 in H as (p2 & s2 & c2 & H2 & H). eauto 10.
  - intros [H|[_ H]]%orelse_Some.
    + apply IH1 in H as (p1 & s1 & c1 & H1 & H). eauto 10.
    + exists pos, s, c. auto.
  - intros (t & s' & Ht & -> & Hk)%star_sound. eauto 10.
  - destruct s as [|a s]; [done|]. destruct (p a) eqn:Hp; [|done].
    intros (t & s' & Ht & -> & Hk)%star_sound.
    exists (S pos + String.length t)%nat, s', c. split; [|done].
    exists (String a t). simpl. rewrite Hp, Ht.
    split_and!; [done..|]. lia.
  - intros (t & s' & Ht & Hne & -> & Hk)%plus_lazy_sound. eauto 10.
  - intros H. apply IH1 in H as (p1 & s1 & c1 & H1 & H). eauto 10.
  - destruct (Nat.eqb_spec pos 0) as [->|]; [|done]. eauto 10.
  - destruct (at_eol s) eqn:He; [|done]. eauto 10.
Qed.

(** The matcher finds a match whenever the pattern can stop somewhere
    the continuation accepts. *)
Lemma run_complete r : ∀ pos s pos' s' k,
  den r pos s pos' s' →
  (∀ c', is_Some (k pos' s' c')) →
  ∀ c, is_Some (run r pos s c k).
Proof.
  induction r as [p|l|r1 IH1 r2 IH2|r1 IH1|p|p|p|n r1 IH1| |];
    intros pos s pos' s' k; simpl.
  - intros (a & -> & Hp & ->) Hk c. by rewrite Hp.
  - intros [-> ->] Hk c. by rewrite strip_prefix_app.
  - intros (p1 & s1 & H1 & H2) Hk c.
    eapply IH1; [done|]. intros c'. by eapply IH2.
  - intros [H| [-> ->]] Hk c; apply orelse_is_Some; [|by right].
    left. by eapply IH1.
  - intros (t & Ht & -> & ->) Hk c. by apply star_complete.
  - intros (t & Ht & Hne & -> & ->) Hk c.
    destruct t as [|a t]; [done|]. simpl in Ht.
    apply andb_true_iff in Ht as [Ha Ht]. rewrite ?app_cons; simpl; rewrite Ha.
    apply star_complete; [done|]. simpl in Hk.
    by rewrite Nat.add_succ_comm.
  - intros (t & Ht & Hne & -> & ->) Hk c. by apply plus_lazy_complete.
  - intros H Hk c. eapply IH1; [done|]. intros c'. apply Hk.
  - intros (-> & -> & ->) Hk c. simpl. apply Hk.
  - intros (-> & -> & ->) Hk c. apply Hk.
Qed.

End MatcherFacts.

(** A match consumes a prefix of the text. *)
Lemma den_span r : ∀ pos s pos' s',
  den r pos s pos' s' →
  ∃ t, s = t ++ s' ∧ pos' = (pos + String.length t)%nat.
Proof.
  induction r as [p|l|r1 IH1 r2 IH2|r1 IH1|p|p|p|n r1 IH1| |];
    intros pos s pos' s'; simpl.
  - intros (a & -> & _ & ->). exists (String a ""). by rewrite Nat.add_1_r.
  - intros [-> ->]. eauto.
  - intros (p1 & s1 & (t1 & -> & ->)%IH1 & (t2 & -> & ->)%IH2).
    exists (t1 ++ t2). rewrite app_assoc_s, length_app_s. split; [done|lia].
  - intros [H| [-> ->]]; [eauto|]. exists "". by rewrite Nat.add_0_r.
  - intros (t & _ & -> & ->). eauto.
  - intros (t & _ & _ & -> & ->). eauto.
  - intros (t & _ & _ & -> & ->). eauto.
  - eauto.
  - intros (-> & -> & ->). by exists "".
  - intros (_ & -> & ->). exists "". by rewrite Nat.add_0_r.
Qed.

Lemma attempt_Some r pos s m :
  attempt r pos s = Some m →
  den r pos s (m_end m) (m_rest m) ∧ s = m_text m ++ m_rest m ∧
  m_end m = (pos + String.length (m_text m))%nat.
Proof.
  unfold attempt. intros (pos' & s' & c' & Hden & [= <-])%run_sound. simpl.
  split; [done|]. destruct (den_span _ _ _ _ _ Hden) as (t & -> & ->).
  replace (pos + String.length t - pos)%nat with (String.length t) by lia.
  by rewrite str_take_app.
Qed.

Lemma attempt_is_Some r pos s pos' s' :
  den r pos s pos' s' → is_Some (attempt r pos s).
Proof. intros H. unfold attempt. eapply run_complete; [done|]. eauto. Qed.

(** The search stops at the first start where an attempt succeeds. *)
Lemma search_from_Some r : ∀ s pos m,
  search_from r pos s = Some m →
  ∃ pre s0, s = pre ++ s0 ∧
    attempt r (pos + String.length pre)%nat s0 = Some m ∧
    ∀ pre1 s1, s = pre1 ++ s1 →
      (String.length pre1 < String.length pre)%nat →
      attempt r (pos + String.length pre1)%nat s1 = None.
Proof.
  induction s as [|a s IH]; intros pos m; simpl.
  - destruct (attempt r pos "") eqn:Ha; [|done]. intros [= ->].
    exists "", "". rewrite Nat.add_0_r. split_and!; [done..|].
    intros ??? Hl. simpl in Hl. lia.
  - destruct (attempt r pos (String a s)) eqn:Ha.
    + intros [= ->]. exists "", (String a s). rewrite Nat.add_0_r.
      split_and!; [done..|]. intros ??? Hl. simpl in Hl. lia.
    + intros (pre & s0 & -> & Hat & Hmin)%IH.
      exists (String a pre), s0. simpl.
      rewrite <- Nat.add_succ_comm. split_and!; [done..|].
      intros [|b pre1] s1 Heq Hl.
      * rewrite app_empty_l in Heq. subst s1. by rewrite Nat.add_0_r.
      * rewrite app_cons in Heq. injection Heq as -> Heq. simpl in *.
        rewrite <- Nat.add_succ_comm. apply Hmin; [done|lia].
Qed.

Lemma search_from_None r : ∀ s pos,
  search_from r pos s = None ↔
  ∀ pre s0, s = pre ++ s0 → attempt r (pos + String.length pre)%nat s0 = None.
Proof.
  induction s as [|a s IH]; intros pos; simpl.
  - split.
    + destruct (attempt r pos "") eqn:Ha; [done|]. intros _ pre s0 Heq.
      symmetry in Heq. apply app_eq_empty in Heq as [-> ->].
      by rewrite Nat.add_0_r.
    + intros H. specialize (H "" "" eq_refl). rewrite Nat.add_0_r in H.
      by rewrite H.
  - split.
    + destruct (attempt r pos (String a s)) eqn:Ha; [done|].
      intros Hs [|b pre] s0 Heq.
      * rewrite app_empty_l in Heq. subst. by rewrite Nat.add_0_r.
      * rewrite app_cons in Heq. injection Heq as -> Heq. simpl.
        rewrite <- Nat.add_succ_comm. by apply IH.
    + intros H. pose proof (H "" _ eq_refl) as H0.
      rewrite Nat.add_0_r in H0. rewrite H0. apply IH.
      intros pre s0 ->. rewrite Nat.add_succ_comm. by apply (H (String a pre)).
Qed.

(** * The pattern of the Float Extractor *)

Lemma is_sign_cases a : is_sign a = true → a = "-"%char ∨ a = "+"%char.
Proof.
  unfold is_sign, is_char. intros [H|H]%orb_true_iff;
    apply Ascii.eqb_eq in H; auto.
Qed.

Lemma is_point_eq a : is_char "." a = true → a = "."%char.
Proof. unfold is_char. apply Ascii.eqb_eq. Qed.

Lemma sign_opt_char a : is_sign a = true → sign_opt (String a "").
Proof. intros [->| ->]%is_sign_cases; unfold sign_opt; auto. Qed.

Ltac norm_app :=
  repeat first [ rewrite app_assoc_s | rewrite app_cons
               | rewrite app_empty_l | rewrite app_empty_r ].

Ltac norm_len :=
  repeat (progress (cbn [String.length]; rewrite ?length_app_s)); lia.

Lemma den_opt_sign pos s pos' s' :
  den (Opt (Chr is_sign)) pos s pos' s' ↔
  ∃ sg, sign_opt sg ∧ s = sg ++ s' ∧ pos' = (pos + String.length sg)%nat.
Proof.
  simpl. split.
  - intros [(a & -> & Ha & ->)|[-> ->]].
    + exists (String a ""). split_and!; [by apply sign_opt_char|done|norm_len].
    + exists "". split_and!; [by left|done|norm_len].
  - intros (sg & [->|[->| ->]] & -> & ->).
    + right. split; [norm_len|done].
    + left. exists "+"%char. split_and!; [done..|norm_len].
    + left. exists "-"%char. split_and!; [done..|norm_len].
Qed.

Lemma den_opt_point pos s pos' s' :
  den (Opt (Chr (is_char "."))) pos s pos' s' ↔
  ∃ pt, point_opt pt ∧ s = pt ++ s' ∧ pos' = (pos + String.length pt)%nat.
Proof.
  simpl. split.
  - intros [(a & -> & ->%is_point_eq & ->)|[-> ->]].
    + exists ".". split_and!; [by right|done|norm_len].
    + exists "". split_and!; [by left|done|norm_len].
  - intros (pt & [->| ->] & -> & ->).
    + right. split; [norm_len|done].
    + left. exists "."%char. split_and!; [done..|norm_len].
Qed.


Lemma den_opt_exponent pos s pos' s' :
  den (Opt EXPONENT_RE) pos s pos' s' ↔
  ∃ ex, exponent_opt ex ∧ s = ex ++ s' ∧ pos' = (pos + String.length ex)%nat.
Proof.
  change (den (Opt EXPONENT_RE) pos s pos' s') with
    (den EXPONENT_RE pos s pos' s' ∨ (pos' = pos ∧ s' = s)).
  unfold EXPONENT_RE, cat.
  change (den (Seq ?a (Seq ?b ?c)) pos s pos' s') with
    (∃ p1 s1, den a pos s p1 s1 ∧
       ∃ p2 s2, den b p1 s1 p2 s2 ∧ den c p2 s2 pos' s').
  split.
  - intros [(p1 & s1 & (e & -> & He & ->) & p2 & s2 &
             (sg & Hsg & -> & ->)%den_opt_sign & (d & Hd & Hne & -> & ->))
           |[-> ->]].
    + exists (String e (sg ++ d)). split_and!.
      * right. by exists e, sg, d.
      * by norm_app.
      * norm_len.
    + exists "". split_and!; [by left|done|norm_len].
  - intros (ex & [->|(e & sg & d & -> & He & Hsg & Hd & Hne)] & -> & ->).
    + right. split; [norm_len|done].
    + left. exists (S pos), (sg ++ d ++ s'). split.
      { exists e. split_and!; [by norm_app|done..]. }
      exists (S pos + String.length sg)%nat, (d ++ s'). split.
      { apply den_opt_sign. by exists sg. }
      exists d. split_and!; [done..|norm_len].
Qed.

Lemma WGSL_FLOAT_RE_eq :
  WGSL_FLOAT_RE =
  Seq (Opt (Chr is_sign))
    (Seq (Star is_digit)
       (Seq (Opt (Chr (is_char "."))) (Seq (Plus is_digit) (Opt EXPONENT_RE)))).
Proof. reflexivity. Qed.

(** The pattern matches exactly the numeric literals. *)
Lemma float_den pos s pos' s' :
  den WGSL_FLOAT_RE pos s pos' s' ↔
  ∃ lit, numeric_literal lit ∧ s = lit ++ s' ∧
         pos' = (pos + String.length lit)%nat.
Proof.
  rewrite WGSL_FLOAT_RE_eq.
  change (den (Seq ?a (Seq ?b (Seq ?c (Seq ?d ?e)))) pos s pos' s') with
    (∃ p1 s1, den a pos s p1 s1 ∧
       ∃ p2 s2, den b p1 s1 p2 s2 ∧
         ∃ p3 s3, den c p2 s2 p3 s3 ∧
           ∃ p4 s4, den d p3 s3 p4 s4 ∧ den e p4 s4 pos' s').
  split.
  - intros (p1 & s1 & (sg & Hsg & -> & ->)%den_opt_sign &
            p2 & s2 & (ip & Hip & -> & ->) &
            p3 & s3 & (pt & Hpt & -> & ->)%den_opt_point &
            p4 & s4 & (fp & Hfp & Hne & -> & ->) &
            (ex & Hex & -> & ->)%den_opt_exponent).
    exists (sg ++ ip ++ pt ++ fp ++ ex). split_and!.
    + by exists sg, ip, pt, fp, ex.
    + by norm_app.
    + norm_len.
  - intros (lit & (sg & ip & pt & fp & ex & -> & Hsg & Hip & Hpt & Hfp & Hne & Hex)
            & -> & ->).
    exists (pos + String.length sg)%nat, (ip ++ pt ++ fp ++ ex ++ s'). split.
    { apply den_opt_sign. exists sg. split_and!; [done|by norm_app|done]. }
    exists (pos + String.length sg + String.length ip)%nat,
      (pt ++ fp ++ ex ++ s'). split.
    { by exists ip. }
    exists (pos + String.length sg + String.length ip + String.length pt)%nat,
      (fp ++ ex ++ s'). split.
    { apply den_opt_point. by exists pt. }
    exists (pos + String.length sg + String.length ip + String.length pt
            + String.length fp)%nat, (ex ++ s'). split.
    { by exists fp. }
    apply den_opt_exponent. exists ex. split_and!; [done..|norm_len].
Qed.

Lemma search_float_None p :
  search WGSL_FLOAT_RE p = None ↔ ¬ contains_literal p.
Proof.
  unfold search. rewrite search_from_None. split.
  - intros H (lit & Hlit & pre & post & ->).
    specialize (H pre (lit ++ post) eq_refl).
    assert (is_Some (attempt WGSL_FLOAT_RE (0 + String.length pre) (lit ++ post)))
      as [m Hm]; [|congruence].
    eapply attempt_is_Some. apply float_den. eauto.
  - intros H pre s0 ->.
    destruct (attempt WGSL_FLOAT_RE _ s0) as [m|] eqn:Hm; [|done].
    destruct H. apply attempt_Some in Hm as (Hden & Heq & _).
    apply float_den in Hden as (lit & Hlit & Hs0 & _).
    exists lit. split; [done|]. exists pre, (m_rest m). by rewrite Hs0.
Qed.

Lemma search_float_Some p m :
  search WGSL_FLOAT_RE p = Some m →
  numeric_literal (m_text m) ∧
  ∃ pre, p = pre ++ m_text m ++ m_rest m ∧
    ∀ lit pre1 post1, numeric_literal lit → p = pre1 ++ lit ++ post1 →
      (String.length pre ≤ String.length pre1)%nat.
Proof.
  unfold search. intros (pre & s0 & -> & Hat & Hmin)%search_from_Some.
  pose proof Hat as (Hden & Heq & _)%attempt_Some.
  apply float_den in Hden as (lit & Hlit & Hs0 & _).
  assert (m_text m = lit) as Htext.
  { rewrite Heq in Hs0. by apply app_inv_tail_s in Hs0. }
  rewrite Htext. split; [done|]. exists pre. split.
  { by rewrite <- Htext, <- Heq. }
  intros lit1 pre1 post1 Hlit1 Heq1.
  destruct (Nat.le_gt_cases (String.length pre) (String.length pre1)) as [|Hlt];
    [done|].
  specialize (Hmin pre1 _ Heq1 Hlt).
  assert (is_Some (attempt WGSL_FLOAT_RE (0 + String.length pre1) (lit1 ++ post1)))
    as [m1 Hm1]; [|congruence].
  eapply attempt_is_Some. apply float_den. eauto.
Qed.

(** * The match the engine prefers *)

Ltac by_cases_on a :=
  destruct a as [[] [] [] [] [] [] [] []]; vm_compute; intuition discriminate.

Lemma non_numeric_digit a : non_numeric a = true → is_digit a = false.
Proof. by_cases_on a. Qed.
Lemma non_numeric_sign a : non_numeric a = true → is_sign a = false.
Proof. by_cases_on a. Qed.
Lemma non_numeric_point a : non_numeric a = true → is_char "." a = false.
Proof. by_cases_on a. Qed.
Lemma non_numeric_exp a : non_numeric a = true → is_exp_mark a = false.
Proof. by_cases_on a. Qed.
Lemma digit_not_sign a : is_digit a = true → is_sign a = false.
Proof. by_cases_on a. Qed.
Lemma digit_not_point a : is_digit a = true → is_char "." a = false.
Proof. by_cases_on a. Qed.
Lemma exp_not_digit a : is_exp_mark a = true → is_digit a = false.
Proof. by_cases_on a. Qed.
Lemma exp_not_point a : is_exp_mark a = true → is_char "." a = false.
Proof. by_cases_on a. Qed.

Lemma head_is_impl (q q' : ascii → bool) s :
  (∀ a, q a = true → q' a = true) → head_is q s → head_is q' s.
Proof. destruct s; simpl; auto. Qed.

Lemma head_is_all q s : all_chars q s = true → head_is q s.
Proof. destruct s; simpl; [done|]. by intros [? _]%andb_true_iff. Qed.

Lemma string_snoc (s : string) :
  s ≠ "" → ∃ s0 b, s = s0 ++ String b "".
Proof.
  induction s as [|a s IH]; [done|]. intros _.
  destruct s as [|a' s].
  - by exists "", a.
  - destruct IH as (s0 & b & ->); [done|]. by exists (String a s0), b.
Qed.

Section Preference.
Context {A : Type}.
Implicit Types (k : @cont A) (p : ascii → bool).

(** A greedy repetition stops after the whole run when the continuation
    accepts there. *)
Lemma star_greedy_hit p t s' pos c k :
  all_chars p t = true → head_is (λ a, negb (p a)) s' →
  is_Some (k (pos + String.length t)%nat s' c) →
  star p pos (t ++ s') c k = k (pos + String.length t)%nat s' c.
Proof.
  revert pos. induction t as [|a t IH]; intros pos Ht Hs' Hk.
  - rewrite app_empty_l. simpl. rewrite Nat.add_0_r.
    destruct s' as [|b s']; [done|]. simpl in *.
    by apply negb_true_iff in Hs' as ->.
  - simpl in Ht. apply andb_true_iff in Ht as [Ha Ht].
    rewrite app_cons. simpl. rewrite Ha.
    simpl in Hk. rewrite <- Nat.add_succ_comm in Hk.
    rewrite (IH (S pos)); [|done..].
    rewrite <- Nat.add_succ_comm. by destruct Hk as [x ->].
Qed.

(** It gives one character back when the continuation refuses the
    whole run and accepts one character earlier. *)
Lemma star_greedy_back p t b s' pos c k :
  all_chars p t = true → p b = true → head_is (λ a, negb (p a)) s' →
  k (pos + String.length t + 1)%nat s' c = None →
  is_Some (k (pos + String.length t)%nat (String b s') c) →
  star p pos (t ++ String b s') c k
  = k (pos + String.length t)%nat (String b s') c.
Proof.
  revert pos. induction t as [|a t IH]; intros pos Ht Hb Hs' Hn Hk.
  - rewrite app_empty_l. simpl in *. rewrite Hb, Nat.add_0_r in *.
    assert (star p (S pos) s' c k = None) as ->; [|done].
    rewrite <- Hn, Nat.add_1_r.
    destruct s' as [|b' s']; [done|]. simpl in *.
    by apply negb_true_iff in Hs' as ->.
  - simpl in Ht. apply andb_true_iff in Ht as [Ha Ht].
    rewrite app_cons. simpl. rewrite Ha.
    cbn [String.length] in Hk, Hn.
    replace (pos + S (String.length t) + 1)%nat
      with (S pos + String.length t + 1)%nat in Hn by lia.
    replace (pos + S (String.length t))%nat
      with (S pos + String.length t)%nat in Hk by lia.
    rewrite (IH (S pos)); [|done..].
    cbn [String.length].
    replace (pos + S (String.length t))%nat
      with (S pos + String.length t)%nat by lia.
    by destruct Hk as [x ->].
Qed.

Lemma run_opt r pos s c k :
  run (Opt r) pos s c k = orelse (run r pos s c k) (k pos s c).
Proof. reflexivity. Qed.

Lemma run_seq r1 r2 pos s c k :
  run (Seq r1 r2) pos s c k
  = run r1 pos s c (λ pos' s' c', run r2 pos' s' c' k).
Proof. reflexivity. Qed.

Lemma run_chr_hit p a s pos c k :
  p a = true → run (Chr p) pos (String a s) c k = k (S pos) s c.
Proof. simpl. by intros ->. Qed.

Lemma run_chr_miss p s pos c k :
  head_is (λ a, negb (p a)) s → run (Chr p) pos s c k = None.
Proof. destruct s as [|a s]; simpl; [done|]. by intros ->%negb_true_iff. Qed.

Lemma run_plus_miss p s pos c k :
  head_is (λ a, negb (p a)) s → run (Plus p) pos s c k = None.
Proof. destruct s as [|a s]; simpl; [done|]. by intros ->%negb_true_iff. Qed.

Lemma run_opt_chr_skip p s pos c k :
  head_is (λ a, negb (p a)) s → run (Opt (Chr p)) pos s c k = k pos s c.
Proof. intros H. by rewrite run_opt, run_chr_miss. Qed.

Lemma star_skip p s pos c k :
  head_is (λ a, negb (p a)) s → star p pos s c k = k pos s c.
Proof. destruct s as [|a s]; simpl; [done|]. by intros ->%negb_true_iff. Qed.

Lemma run_star p pos s c k : run (Star p) pos s c k = star p pos s c k.
Proof. reflexivity. Qed.

Lemma orelse_hit (x y : option A) : is_Some x → orelse x y = x.
Proof. by intros [v ->]. Qed.

End Preference.

Section FloatPreference.
Context {A : Type} (kf : @cont A).
Hypothesis kf_total : ∀ pos s c, is_Some (kf pos s c).

Lemma plus_digits_hit d s' pos c (k : @cont A) :
  digits d → d ≠ "" → head_is (λ a, negb (is_digit a)) s' →
  is_Some (k (pos + String.length d)%nat s' c) →
  run (Plus is_digit) pos (d ++ s') c k = k (pos + String.length d)%nat s' c.
Proof.
  intros Hd Hne Hs' Hk. destruct d as [|x d]; [done|].
  unfold digits in Hd. simpl in Hd. apply andb_true_iff in Hd as [Hx Hd].
  rewrite app_cons. simpl. rewrite Hx. simpl in Hk.
  rewrite <- Nat.add_succ_comm in Hk.
  rewrite star_greedy_hit; [|done..]. by rewrite <- Nat.add_succ_comm.
Qed.

Lemma head_digits_not_sign d s :
  digits d → d ≠ "" → head_is (λ a, negb (is_sign a)) (d ++ s).
Proof.
  destruct d as [|x d]; [done|]. unfold digits. simpl.
  intros [Hx _]%andb_true_iff _. by rewrite (digit_not_sign x Hx).
Qed.

Lemma head_non_numeric post (q : ascii → bool) :
  (∀ a, non_numeric a = true → q a = false) →
  head_is non_numeric post → head_is (λ a, negb (q a)) post.
Proof.
  intros Hq. apply head_is_impl. intros a Ha. by rewrite (Hq a Ha).
Qed.

Lemma exponent_hit ex post pos c :
  exponent_opt ex → head_is non_numeric post →
  run (Opt EXPONENT_RE) pos (ex ++ post) c kf
  = kf (pos + String.length ex)%nat post c.
Proof.
  intros Hex Hpost.
  pose proof (head_non_numeric post _ non_numeric_digit Hpost) as Hpd.
  pose proof (head_non_numeric post _ non_numeric_exp Hpost) as Hpe.
  rewrite run_opt.
  destruct Hex as [->|(e & sg & d & -> & He & Hsg & Hd & Hne)].
  - rewrite app_empty_l, Nat.add_0_r. unfold EXPONENT_RE. cbn [cat].
    by rewrite run_seq, run_chr_miss.
  - assert (run EXPONENT_RE pos (String e (sg ++ d) ++ post) c kf
            = kf (pos + String.length (String e (sg ++ d)))%nat post c) as ->;
      [|by apply orelse_hit].
    unfold EXPONENT_RE. cbn [cat].
    rewrite app_cons, app_assoc_s, run_seq, run_chr_hit by done. cbv beta.
    rewrite run_seq.
    destruct Hsg as [->|[->| ->]].
    + rewrite app_empty_l, run_opt_chr_skip by by apply head_digits_not_sign.
      rewrite plus_digits_hit by done. f_equal. norm_len.
    + rewrite app_cons, app_empty_l, run_opt, run_chr_hit by done.
      rewrite plus_digits_hit by done. rewrite orelse_hit by done.
      f_equal. norm_len.
    + rewrite app_cons, app_empty_l, run_opt, run_chr_hit by done.
      rewrite plus_digits_hit by done. rewrite orelse_hit by done.
      f_equal. norm_len.
Qed.

Lemma head_exponent_not_digit ex post :
  exponent_opt ex → head_is non_numeric post →
  head_is (λ a, negb (is_digit a)) (ex ++ post).
Proof.
  intros [->|(e & sg & d & -> & He & _)] Hpost.
  - rewrite app_empty_l. by apply head_non_numeric, Hpost; apply non_numeric_digit.
  - rewrite app_cons. simpl. by rewrite (exp_not_digit e He).
Qed.

Lemma head_exponent_not_point ex post :
  exponent_opt ex → head_is non_numeric post →
  head_is (λ a, negb (is_char "." a)) (ex ++ post).
Proof.
  intros [->|(e & sg & d & -> & He & _)] Hpost.
  - rewrite app_empty_l. by apply head_non_numeric, Hpost; apply non_numeric_point.
  - rewrite app_cons. simpl. by rewrite (exp_not_point e He).
Qed.

Abbreviation K2 := (after_fraction kf).
Abbreviation K1 := (after_point kf).
Abbreviation K0 := (after_digits kf).

Lemma fraction_hit fp ex post pos c :
  digits fp → fp ≠ "" → exponent_opt ex → head_is non_numeric post →
  K1 pos (fp ++ ex ++ post) c
  = kf (pos + String.length fp + String.length ex)%nat post c.
Proof.
  intros Hfp Hne Hex Hpost. unfold after_point.
  rewrite plus_digits_hit; [|done|done|by apply head_exponent_not_digit|].
  - unfold after_fraction. by rewrite exponent_hit.
  - unfold after_fraction. by rewrite exponent_hit.
Qed.

Lemma point_hit fp ex post pos c :
  digits fp → fp ≠ "" → exponent_opt ex → head_is non_numeric post →
  K0 pos ("." ++ fp ++ ex ++ post) c
  = kf (pos + 1 + String.length fp + String.length ex)%nat post c.
Proof.
  intros Hfp Hne Hex Hpost. unfold after_digits.
  rewrite app_cons, app_empty_l, run_opt, run_chr_hit by done.
  rewrite fraction_hit by done. rewrite orelse_hit by done.
  f_equal. lia.
Qed.

Lemma no_point_miss ex post pos c :
  exponent_opt ex → head_is non_numeric post →
  K0 pos (ex ++ post) c = None.
Proof.
  intros Hex Hpost. unfold after_digits, after_point.
  rewrite run_opt_chr_skip by by apply head_exponent_not_point.
  by rewrite run_plus_miss by by apply head_exponent_not_digit.
Qed.

Lemma last_digit_hit b ex post pos c :
  is_digit b = true → exponent_opt ex → head_is non_numeric post →
  K0 pos (String b (ex ++ post)) c
  = kf (pos + 1 + String.length ex)%nat post c.
Proof.
  intros Hb Hex Hpost. unfold after_digits.
  rewrite run_opt_chr_skip by (simpl; by rewrite (digit_not_point b Hb)).
  change (String b (ex ++ post)) with (String b "" ++ ex ++ post).
  rewrite fraction_hit; [done| |done..].
  unfold digits. simpl. by rewrite Hb.
Qed.

Lemma body_hit ip pt fp ex post pos c :
  digits ip → point_opt pt → digits fp → fp ≠ "" → exponent_opt ex →
  head_is non_numeric post →
  star is_digit pos (ip ++ pt ++ fp ++ ex ++ post) c K0
  = kf (pos + String.length (ip ++ pt ++ fp ++ ex))%nat post c.
Proof.
  intros Hip [->| ->] Hfp Hne Hex Hpost.
  - rewrite !app_empty_l.
    assert (ip ++ fp ≠ "") as Hne'.
    { intros [_ ?]%app_eq_empty. done. }
    destruct (string_snoc _ Hne') as (t & b & Ht).
    assert (all_chars is_digit (t ++ String b "") = true) as Hall.
    { rewrite <- Ht, all_chars_app. unfold digits in *. by rewrite Hip, Hfp. }
    rewrite all_chars_app in Hall. apply andb_true_iff in Hall as [Hd Hb].
    simpl in Hb. rewrite andb_true_r in Hb.
    rewrite <- (app_assoc_s ip fp), Ht, app_assoc_s, app_cons, app_empty_l.
    rewrite star_greedy_back.
    + rewrite last_digit_hit by done. f_equal.
      rewrite <- (app_assoc_s ip fp), Ht. norm_len.
    + done.
    + done.
    + by apply head_exponent_not_digit.
    + by apply no_point_miss.
    + by rewrite last_digit_hit.
  - rewrite star_greedy_hit.
    + rewrite point_hit by done. f_equal. norm_len.
    + done.
    + by rewrite app_cons.
    + by rewrite point_hit.
Qed.

Lemma head_body_not_sign ip pt fp ex post :
  digits ip → point_opt pt → digits fp → fp ≠ "" →
  head_is (λ a, negb (is_sign a)) (ip ++ pt ++ fp ++ ex ++ post).
Proof.
  intros Hip Hpt Hfp Hne. destruct ip as [|x ip].
  - rewrite app_empty_l. destruct Hpt as [->| ->].
    + rewrite app_empty_l. by apply head_digits_not_sign.
    + by rewrite app_cons.
  - by apply (head_digits_not_sign (String x ip)).
Qed.

(** With a literal at the front of the text and no numeric character
    after it, the first match the engine finds is the literal. *)
Lemma literal_hit lit post pos c :
  numeric_literal lit → head_is non_numeric post →
  run WGSL_FLOAT_RE pos (lit ++ post) c kf
  = kf (pos + String.length lit)%nat post c.
Proof.
  intros (sg & ip & pt & fp & ex & -> & Hsg & Hip & Hpt & Hfp & Hne & Hex) Hpost.
  rewrite WGSL_FLOAT_RE_eq, run_seq.
  assert (∀ p c, run (Seq (Star is_digit)
                   (Seq (Opt (Chr (is_char ".")))
                      (Seq (Plus is_digit) (Opt EXPONENT_RE))))
            p (ip ++ pt ++ fp ++ ex ++ post) c kf
          = kf (p + String.length (ip ++ pt ++ fp ++ ex))%nat post c) as Hbody.
  { intros p c0. rewrite run_seq, run_star.
    by apply (body_hit ip pt fp ex post p c0). }
  destruct Hsg as [->|[->| ->]]; norm_app.
  - rewrite run_opt_chr_skip by by apply head_body_not_sign.
    rewrite Hbody. f_equal.
  - rewrite run_opt, run_chr_hit by done. rewrite Hbody.
    rewrite orelse_hit by done. f_equal. norm_len.
  - rewrite run_opt, run_chr_hit by done. rewrite Hbody.
    rewrite orelse_hit by done. f_equal. norm_len.
Qed.

Lemma non_numeric_miss a s pos c :
  non_numeric a = true → run WGSL_FLOAT_RE pos (String a s) c kf = None.
Proof.
  intros Ha. rewrite WGSL_FLOAT_RE_eq, run_seq.
  rewrite run_opt_chr_skip by (simpl; by rewrite (non_numeric_sign a Ha)).
  rewrite run_seq, run_star.
  rewrite star_skip by (simpl; by rewrite (non_numeric_digit a Ha)).
  rewrite run_seq.
  rewrite run_opt_chr_skip by (simpl; by rewrite (non_numeric_point a Ha)).
  rewrite run_seq.
  by rewrite run_plus_miss by (simpl; by rewrite (non_numeric_digit a Ha)).
Qed.

End FloatPreference.

Lemma attempt_literal lit post pos :
  numeric_literal lit → head_is non_numeric post →
  attempt WGSL_FLOAT_RE pos (lit ++ post)
  = Some {| m_text := lit; m_end := (pos + String.length lit)%nat;
            m_rest := post; m_caps := [] |}.
Proof.
  intros Hlit Hpost. unfold attempt. rewrite literal_hit by eauto.
  replace (pos + String.length lit - pos)%nat with (String.length lit) by lia.
  by rewrite str_take_app.
Qed.

Lemma search_from_hit r pos s m :
  attempt r pos s = Some m → search_from r pos s = Some m.
Proof. intros H. destruct s; simpl; by rewrite H. Qed.

Lemma search_literal pre lit post :
  all_chars non_numeric pre = true → numeric_literal lit →
  head_is non_numeric post →
  search WGSL_FLOAT_RE (pre ++ lit ++ post)
  = Some {| m_text := lit;
            m_end := (String.length pre + String.length lit)%nat;
            m_rest := post; m_caps := [] |}.
Proof.
  intros Hpre Hlit Hpost. unfold search.
  assert (∀ pos, search_from WGSL_FLOAT_RE pos (pre ++ lit ++ post)
                 = search_from WGSL_FLOAT_RE (pos + String.length pre)%nat
                     (lit ++ post)) as ->.
  { induction pre as [|a pre IH]; intros pos.
    - by rewrite app_empty_l, Nat.add_0_r.
    - simpl in Hpre. apply andb_true_iff in Hpre as [Ha Hpre].
      rewrite app_cons. cbn [search_from]. unfold attempt at 1.
      rewrite non_numeric_miss by done. rewrite IH by done.
      f_equal. simpl. lia. }
  apply search_from_hit. by rewrite attempt_literal.
Qed.

(** * [float] on the literals of the pattern *)

Lemma span_app p t s' :
  all_chars p t = true → head_is (λ a, negb (p a)) s' →
  span p (t ++ s') = (t, s').
Proof.
  intros Ht Hs'. induction t as [|a t IH].
  - rewrite app_empty_l. destruct s' as [|b s']; [done|]. simpl in *.
    by apply negb_true_iff in Hs' as ->.
  - simpl in Ht. apply andb_true_iff in Ht as [Ha Ht].
    rewrite app_cons. simpl. by rewrite Ha, IH.
Qed.

Lemma span_all p t : all_chars p t = true → span p t = (t, "").
Proof. intros Ht. rewrite <- (app_empty_r t) at 1. by apply span_app. Qed.

Lemma split_sign_skip s :
  head_is (λ a, negb (is_sign a)) s → split_sign s = (false, s).
Proof.
  destruct s as [|a s]; [done|]. simpl. unfold is_sign.
  intros [-> ->]%negb_true_iff%orb_false_iff. done.
Qed.

Lemma split_sign_opt sg s :
  sign_opt sg → head_is (λ a, negb (is_sign a)) s →
  ∃ neg, split_sign (sg ++ s) = (neg, s).
Proof.
  intros [->|[->| ->]] Hs.
  - exists false. rewrite app_empty_l. by apply split_sign_skip.
  - by exists false.
  - by exists true.
Qed.

Lemma is_empty_false s : s ≠ "" → is_empty s = false.
Proof. by destruct s. Qed.

Lemma parse_exponent_opt ex : exponent_opt ex → is_Some (parse_exponent ex).
Proof.
  intros [->|(e & sg & d & -> & He & Hsg & Hd & Hne)]; [done|].
  simpl. rewrite He.
  destruct (split_sign_opt sg d Hsg) as [eneg ->].
  { destruct d as [|x d]; [done|]. unfold digits in Hd. simpl in *.
    apply andb_true_iff in Hd as [Hx _]. by rewrite (digit_not_sign x Hx). }
  rewrite span_all by done. by rewrite is_empty_false.
Qed.

Lemma parse_decimal_literal lit :
  numeric_literal lit → is_Some (parse_decimal lit).
Proof.
  intros (sg & ip & pt & fp & ex & -> & Hsg & Hip & Hpt & Hfp & Hne & Hex).
  unfold parse_decimal.
  destruct (split_sign_opt sg (ip ++ pt ++ fp ++ ex) Hsg) as [neg ->].
  { destruct ip as [|x ip].
    - rewrite app_empty_l. destruct Hpt as [->| ->]; [|done].
      rewrite app_empty_l. destruct fp as [|y fp]; [done|].
      unfold digits in Hfp. simpl in *.
      apply andb_true_iff in Hfp as [Hy _]. by rewrite (digit_not_sign y Hy).
    - unfold digits in Hip. simpl in *.
      apply andb_true_iff in Hip as [Hx _]. by rewrite (digit_not_sign x Hx). }
  assert (head_is (λ a, negb (is_digit a)) ex) as Hexd.
  { destruct Hex as [->|(e & ? & ? & -> & He & _)]; [done|]. simpl.
    by rewrite (exp_not_digit e He). }
  destruct Hpt as [->| ->].
  - rewrite app_empty_l, <- app_assoc_s.
    rewrite span_app; [|by rewrite all_chars_app, Hip, Hfp|done].
    assert (match ex with
            | EmptyString => (EmptyString, ex)
            | String a t =>
                if is_char "." a then span is_digit t else (EmptyString, ex)
            end = (EmptyString, ex)) as ->.
    { destruct Hex as [->|(e & ? & ? & -> & He & _)]; [done|].
      by rewrite (exp_not_point e He). }
    rewrite (is_empty_false (ip ++ fp)).
    2:{ intros [_ ?]%app_eq_empty. done. }
    simpl andb. cbv iota.
    by destruct (parse_exponent_opt ex Hex) as [x ->].
  - rewrite span_app; [|done|by rewrite app_cons].
    rewrite app_cons, app_empty_l. simpl is_char. cbv iota.
    rewrite span_app by done.
    rewrite (is_empty_false fp) by done. rewrite andb_false_r.
    by destruct (parse_exponent_opt ex Hex) as [x ->].
Qed.

Lemma py_float_literal lit : numeric_literal lit → is_Some (py_float lit).
Proof.
  intros [[[neg m] e] H]%parse_decimal_literal. unfold py_float.
  rewrite H. simpl. eauto.
Qed.

(** * Facts about the scan of the shader text *)

Lemma nth_lookup_s (l : list string) i x : l !! i = Some x → nth i l "" = x.
Proof. intros H. by rewrite nth_lookup, H. Qed.

Lemma find_data_line_comment_first rest : ∀ j c,
  rest !! j = Some c → comment_line c = true →
  (∀ k l, (k < j)%nat → rest !! k = Some l → data_line l = false) →
  find_data_line rest = None.
Proof.
  induction rest as [|l rest IH]; intros j c Hj Hc Hbefore; [done|].
  cbn [find_data_line]. destruct j as [|j]; simpl in Hj.
  - injection Hj as ->. unfold comment_line, blank_line in Hc.
    apply andb_true_iff in Hc as [Hb Hs]. apply negb_true_iff in Hb.
    by rewrite Hb, Hs.
  - pose proof (Hbefore 0%nat l ltac:(lia) eq_refl) as Hl.
    unfold data_line, blank_line in Hl.
    destruct (is_empty (strip l)) eqn:Hb.
    { apply (IH j c); [done..|]. intros k l' Hk Hl'.
      apply (Hbefore (S k)); [lia|done]. }
    destruct (startswith "//" (strip l)) eqn:Hs; [done|].
    cbn [negb andb] in Hl. rewrite Hl.
    apply (IH j c); [done..|]. intros k l' Hk Hl'.
    apply (Hbefore (S k)); [lia|done].
Qed.

Lemma find_data_line_found rest : ∀ j d,
  rest !! j = Some d → data_line d = true →
  (∀ k l, (k < j)%nat → rest !! k = Some l →
     comment_line l = false ∧ data_line l = false) →
  find_data_line rest = Some (strip d).
Proof.
  induction rest as [|l rest IH]; intros j d Hj Hd Hbefore; [done|].
  cbn [find_data_line]. destruct j as [|j]; simpl in Hj.
  - injection Hj as ->. unfold data_line, blank_line in Hd.
    apply andb_true_iff in Hd as [[Hb Hs]%andb_true_iff Hc].
    apply negb_true_iff in Hb, Hs. by rewrite Hb, Hs, Hc.
  - pose proof (Hbefore 0%nat l ltac:(lia) eq_refl) as [Hlc Hld].
    unfold comment_line, data_line, blank_line in Hlc, Hld.
    assert (find_data_line rest = Some (strip d)) as Hrec.
    { apply (IH j d); [done..|]. intros k l' Hk Hl'.
      apply (Hbefore (S k)); [lia|done]. }
    destruct (is_empty (strip l)) eqn:Hb; [done|].
    cbn [negb andb] in Hlc, Hld. rewrite Hlc in Hld |- *.
    cbn [negb andb] in Hld. by rewrite Hld.
Qed.

(** The forward search returns a data line, with only lines that are
    neither comments nor data lines before it. *)
Lemma find_data_line_Some rest s :
  find_data_line rest = Some s →
  ∃ j d, rest !! j = Some d ∧ data_line d = true ∧ s = strip d ∧
    ∀ k l, (k < j)%nat → rest !! k = Some l →
      comment_line l = false ∧ data_line l = false.
Proof.
  induction rest as [|l rest IH]; [done|]. cbn [find_data_line].
  destruct (is_empty (strip l)) eqn:Hb.
  { intros (j & d & Hj & Hd & -> & Hbefore)%IH.
    exists (S j), d. split_and!; [done..|].
    intros [|k] l' Hk Hl'; simpl in Hl'.
    - injection Hl' as <-. unfold comment_line, data_line, blank_line.
      by rewrite Hb.
    - apply (Hbefore k); [lia|done]. }
  destruct (startswith "//" (strip l)) eqn:Hs; [done|].
  destruct (contains DATA_MARK (strip l)) eqn:Hc.
  - intros [= <-]. exists 0%nat, l. split_and!; [done| |done|].
    + unfold data_line, blank_line. by rewrite Hb, Hs, Hc.
    + intros k l' Hk. lia.
  - intros (j & d & Hj & Hd & -> & Hbefore)%IH.
    exists (S j), d. split_and!; [done..|].
    intros [|k] l' Hk Hl'; simpl in Hl'.
    + injection Hl' as <-. unfold comment_line, data_line, blank_line.
      by rewrite Hb, Hs, Hc.
    + apply (Hbefore k); [lia|done].
Qed.

Lemma lstrip_spaces ws s :
  all_chars is_space ws = true → head_is (λ a, negb (is_space a)) s →
  lstrip (ws ++ s) = s.
Proof.
  intros Hws Hs. induction ws as [|a ws IH].
  - rewrite app_empty_l. destruct s as [|b s]; [done|]. simpl in *.
    by apply negb_true_iff in Hs as ->.
  - simpl in Hws. apply andb_true_iff in Hws as [Ha Hws].
    rewrite app_cons. simpl. rewrite Ha. auto.
Qed.

Lemma rstrip_cons a s :
  is_space a = false → rstrip (String a s) = String a (rstrip s).
Proof. intros Ha. simpl. by rewrite Ha. Qed.

(** A line the header pattern matches is a comment line. *)
Lemma header_is_comment l m :
  rmatch header_re l = Some m → comment_line l = true.
Proof.
  unfold rmatch. intros (Hden & _)%attempt_Some.
  unfold header_re in Hden. cbn [cat] in Hden.
  destruct Hden as (p1 & s1 & Hbol & p2 & s2 & Hsp & p3 & s3 & Hlit & _).
  destruct Hbol as (_ & -> & ->).
  destruct Hsp as (ws & Hws & -> & ->).
  destruct Hlit as (-> & _).
  unfold comment_line, blank_line, strip.
  rewrite lstrip_spaces by done.
  rewrite !app_cons, app_empty_l, !rstrip_cons by done.
  done.
Qed.

Lemma scan_body_advance lines st st' :
  scan_body lines st = Ok st' → st_i st' = (st_i st + 1)%nat.
Proof.
  unfold scan_body.
  destruct (rmatch header_re _) as [m|]; [|by intros [= <-]].
  destruct (int_of (grp 1 m)) as [idx|]; [|done]. cbn [bind].
  destruct (find_data_line _) as [d|]; [|by intros [= <-]].
  destruct (length (findall vec4_re d) <? 4)%nat; [done|].
  destruct (_parse_vec4_components _) as [d3|]; [|done]. cbn [bind].
  destruct (negb _); [done|]. by intros [= <-].
Qed.

(** Whether a turn of the loop raises does not depend on the entries
    collected so far. *)
Lemma scan_body_raise_any lines i E E' e :
  scan_body lines {| st_i := i; st_entries := E |} = Raise e →
  scan_body lines {| st_i := i; st_entries := E' |} = Raise e.
Proof.
  unfold scan_body. cbn [st_i st_entries].
  destruct (rmatch header_re _) as [m|]; [|done].
  destruct (int_of (grp 1 m)) as [idx|]; [|done]. cbn [bind].
  destruct (find_data_line _) as [d|]; [|done].
  destruct (length (findall vec4_re d) <? 4)%nat; [done|].
  destruct (_parse_vec4_components _) as [d3|]; [|done]. cbn [bind].
  destruct (negb _); done.
Qed.

Lemma scan_body_not_comment lines i E l :
  lines !! i = Some l → comment_line l = false →
  scan_body lines {| st_i := i; st_entries := E |}
  = Ok {| st_i := i + 1; st_entries := E |}.
Proof.
  intros Hl Hc. unfold scan_body. cbn [st_i st_entries].
  rewrite (nth_lookup_s _ _ _ Hl).
  destruct (rmatch header_re l) as [m|] eqn:Hm; [|done].
  apply header_is_comment in Hm. congruence.
Qed.

Lemma scan_loop_unfold fuel lines st :
  (st_i st < length lines)%nat →
  scan_loop (S fuel) lines st
  = match scan_body lines st with
    | Raise e => Some (Raise e)
    | Ok st' => scan_loop fuel lines st'
    end.
Proof.
  intros H. simpl. by destruct (Nat.leb_spec (length lines) (st_i st)); [lia|].
Qed.

Lemma scan_loop_end fuel lines st :
  (length lines ≤ st_i st)%nat →
  scan_loop fuel lines st = Some (Ok (st_entries st)).
Proof.
  intros H. destruct fuel; simpl;
    by destruct (Nat.leb_spec (length lines) (st_i st)); [|lia].
Qed.

(** The loop ends within [len(lines) - i] turns. *)
Lemma scan_loop_total lines : ∀ fuel st,
  (length lines - st_i st ≤ fuel)%nat → is_Some (scan_loop fuel lines st).
Proof.
  induction fuel as [|fuel IH]; intros st Hf.
  - rewrite scan_loop_end by lia. eauto.
  - destruct (Nat.le_gt_cases (length lines) (st_i st)) as [Hle|Hlt].
    { rewrite scan_loop_end by lia. eauto. }
    rewrite scan_loop_unfold by done.
    destruct (scan_body lines st) as [st'|e] eqn:Hb; [|eauto].
    apply IH. apply scan_body_advance in Hb. lia.
Qed.


Lemma parse_total lines : is_Some (parse_shared_wgsl_param1 lines).
Proof. apply scan_loop_total. simpl. lia. Qed.

(** A turn that raises ends the loop with that exception. *)
Lemma scan_loop_raise fuel lines st e :
  (st_i st < length lines)%nat → scan_body lines st = Raise e →
  scan_loop (S fuel) lines st = Some (Raise e).
Proof. intros Hi Hb. by rewrite scan_loop_unfold, Hb. Qed.

(** If the turn at line [i0] raises, the loop started at or before
    [i0] ends with an exception. *)
Lemma scan_loop_raise_later lines i0 e0 :
  (i0 < length lines)%nat →
  (∀ E, scan_body lines {| st_i := i0; st_entries := E |} = Raise e0) →
  ∀ fuel st, (st_i st ≤ i0)%nat → (length lines - st_i st ≤ fuel)%nat →
  ∃ e, scan_loop fuel lines st = Some (Raise e).
Proof.
  intros Hi0 Hraise. induction fuel as [|fuel IH]; intros [i E] Hi Hf;
    cbn [st_i] in *; [lia|].
  rewrite scan_loop_unfold by (cbn [st_i]; lia).
  destruct (scan_body lines _) as [st'|e] eqn:Hb; [|eauto].
  destruct (decide (i = i0)) as [->|Hne].
  { rewrite Hraise in Hb. done. }
  apply scan_body_advance in Hb. cbn [st_i] in Hb. apply IH; lia.
Qed.

(** Lines that are not comments are passed over one by one. *)
Lemma scan_loop_pass lines E : ∀ n i fuel,
  (i + n ≤ length lines)%nat → (n ≤ fuel)%nat →
  (∀ k l, (i ≤ k < i + n)%nat → lines !! k = Some l → comment_line l = false) →
  scan_loop fuel lines {| st_i := i; st_entries := E |}
  = scan_loop (fuel - n) lines {| st_i := i + n; st_entries := E |}.
Proof.
  induction n as [|n IH]; intros i fuel Hlen Hf Hnc.
  - by rewrite Nat.add_0_r, Nat.sub_0_r.
  - destruct fuel as [|fuel]; [lia|].
    rewrite scan_loop_unfold by (cbn [st_i]; lia).
    destruct (lookup_lt_is_Some_2 lines i) as [l Hl]; [lia|].
    rewrite (scan_body_not_comment lines i E l Hl).
    2:{ apply (Hnc i); [lia|done]. }
    rewrite IH; [|lia|lia|].
    + f_equal. f_equal. lia.
    + intros k l' Hk. apply Hnc. lia.
Qed.

(** * Facts about [findall] *)

Lemma search_from_shorter r pos s m :
  search_from r pos s = Some m →
  (String.length (m_text m) + String.length (m_rest m) ≤ String.length s)%nat.
Proof.
  intros (pre & s0 & -> & (_ & -> & _)%attempt_Some & _)%search_from_Some.
  rewrite !length_app_s. lia.
Qed.

(** One unit of fuel for every character, and one more, is enough. *)
Lemma matches_from_fuel r : ∀ fuel fuel' pos s,
  (String.length s < fuel)%nat → (String.length s < fuel')%nat →
  matches_from fuel r pos s = matches_from fuel' r pos s.
Proof.
  induction fuel as [|fuel IH]; intros fuel' pos s Hf Hf'; [lia|].
  destruct fuel' as [|fuel']; [lia|]. simpl.
  destruct (search_from r pos s) as [m|] eqn:Hm; [|done].
  apply search_from_shorter in Hm. f_equal.
  destruct (m_text m) as [|a t] eqn:Ht; simpl.
  - destruct (m_rest m) as [|b s'] eqn:Hr; [done|]. simpl in Hm.
    apply IH; lia.
  - simpl in Hm. apply IH; lia.
Qed.

(** * Facts about the Float Extractor *)

Lemma parse_component_literal p :
  contains_literal p →
  ∃ pre lit post f,
    p = pre ++ lit ++ post ∧ numeric_literal lit ∧ py_float lit = Some f ∧
    parse_component p = Ok f ∧
    ∀ lit1 pre1 post1, numeric_literal lit1 → p = pre1 ++ lit1 ++ post1 →
      (String.length pre ≤ String.length pre1)%nat.
Proof.
  intros Hc. unfold parse_component.
  destruct (search WGSL_FLOAT_RE p) as [m|] eqn:Hm.
  2:{ by apply search_float_None in Hm. }
  apply search_float_Some in Hm as (Hlit & pre & Hp & Hmin).
  destruct (py_float_literal _ Hlit) as [f Hf]. rewrite Hf.
  by exists pre, (m_text m), (m_rest m), f.
Qed.

Lemma parse_component_no_literal p :
  ¬ contains_literal p → parse_component p = Raise (ParseError p).
Proof.
  intros H%search_float_None. unfold parse_component. by rewrite H.
Qed.

Lemma parse_component_punctuation pre lit post :
  all_chars non_numeric pre = true → numeric_literal lit →
  head_is non_numeric post →
  ∃ f, py_float lit = Some f ∧ parse_component (pre ++ lit ++ post) = Ok f.
Proof.
  intros Hpre Hlit Hpost. destruct (py_float_literal _ Hlit) as [f Hf].
  exists f. split; [done|]. unfold parse_component.
  rewrite search_literal by done. simpl. by rewrite Hf.
Qed.

Lemma contains_literal_dec p : contains_literal p ∨ ¬ contains_literal p.
Proof.
  destruct (search WGSL_FLOAT_RE p) as [m|] eqn:Hm.
  - left. apply search_float_Some in Hm as (Hlit & pre & Hp & _).
    exists (m_text m). split; [done|]. by exists pre, (m_rest m).
  - right. by apply search_float_None.
Qed.

(** * Facts about [mapM_result] *)

Lemma mapM_result_Ok {A B} (f : A → result B) l ys :
  mapM_result f l = Ok ys ↔ Forall2 (λ x y, f x = Ok y) l ys.
Proof.
  revert ys. induction l as [|x l IH]; intros ys; simpl.
  - split; [intros [= <-]; constructor|]. by intros ->%Forall2_nil_inv_l.
  - destruct (f x) as [y|e] eqn:Hx; cbn [bind].
    + destruct (mapM_result f l) as [ys'|e] eqn:Hl; cbn [bind].
      * split.
        -- intros [= <-]. constructor; [done|]. by apply IH.
        -- intros (y' & ys'' & Hy & Hys & ->)%Forall2_cons_inv_l.
           apply IH in Hys. congruence.
      * split; [done|].
        intros (y' & ys'' & Hy & Hys & ->)%Forall2_cons_inv_l.
        by apply IH in Hys.
    + split; [done|].
      intros (y' & ys'' & Hy & Hys & ->)%Forall2_cons_inv_l. congruence.
Qed.

Lemma mapM_result_total {A B} (f : A → result B) l :
  (∀ x, x ∈ l → ∃ y, f x = Ok y) → ∃ ys, mapM_result f l = Ok ys.
Proof.
  induction l as [|x l IH]; intros H; simpl; [eauto|].
  destruct (H x) as [y ->]; [by left|]. cbn [bind].
  destruct IH as [ys ->]; [|cbn [bind]; eauto].
  intros x' Hx'. apply H. by right.
Qed.

(** The first element on which [f] raises decides. *)
Lemma mapM_result_Raise {A B} (f : A → result B) l n x e :
  l !! n = Some x → f x = Raise e →
  (∀ n' x', (n' < n)%nat → l !! n' = Some x' → ∃ y, f x' = Ok y) →
  mapM_result f l = Raise e.
Proof.
  revert n. induction l as [|x0 l IH]; intros n Hn Hx Hbefore; [done|].
  simpl. destruct n as [|n]; simpl in Hn.
  - injection Hn as ->. by rewrite Hx.
  - destruct (Hbefore 0%nat x0) as [y ->]; [lia|done|]. cbn [bind].
    rewrite (IH n); [done..|].
    intros n' x' Hn' Hx'. apply (Hbefore (S n')); [lia|done].
Qed.

Lemma mapM_result_length {A B} (f : A → result B) l ys :
  mapM_result f l = Ok ys → length ys = length l.
Proof. intros H%mapM_result_Ok. symmetry. by eapply Forall2_length. Qed.

(** * The groups of a match *)

Lemma run_sound_caps {A} r : ∀ pos s c (k : @cont A) x,
  run r pos s c k = Some x →
  ∃ pos' s' c', den_caps r pos s c pos' s' c' ∧ k pos' s' c' = Some x.
Proof.
  induction r as [p|l|r1 IH1 r2 IH2|r1 IH1|p|p|p|n r1 IH1| |];
    intros pos s c k x; simpl.
  - destruct s as [|a s]; [done|]. destruct (p a) eqn:Hp; [|done].
    intros H. exists (S pos), s, c. eauto 10.
  - destruct (strip_prefix l s) as [s'|] eqn:Hl; [|done].
    intros H. apply strip_prefix_Some in Hl. eauto 10.
  - intros H. apply IH1 in H as (p1 & s1 & c1 & H1 & H).
    apply IH2 in H as (p2 & s2 & c2 & H2 & H). eauto 10.
  - intros [H|[_ H]]%orelse_Some.
    + apply IH1 in H as (p1 & s1 & c1 & H1 & H). eauto 10.
    + exists pos, s, c. auto.
  - intros (t & s' & Ht & -> & Hk)%star_sound. eauto 10.
  - destruct s as [|a s]; [done|]. destruct (p a) eqn:Hp; [|done].
    intros (t & s' & Ht & -> & Hk)%star_sound.
    exists (S pos + String.length t)%nat, s', c. split; [|done].
    split; [|done]. exists (String a t). simpl. rewrite Hp, Ht.
    split_and!; [done..|]. lia.
  - intros (t & s' & Ht & Hne & -> & Hk)%plus_lazy_sound. eauto 10.
  - intros H. apply IH1 in H as (p1 & s1 & c1 & H1 & H). eauto 10.
  - destruct (Nat.eqb_spec pos 0) as [->|]; [|done]. eauto 10.
  - destruct (at_eol s) eqn:He; [|done]. eauto 10.
Qed.

Lemma rmatch_caps r s m :
  rmatch r s = Some m → den_caps r 0 s [] (m_end m) (m_rest m) (m_caps m).
Proof.
  unfold rmatch, attempt.
  by intros (pos' & s' & c' & Hden & [= <-])%run_sound_caps.
Qed.

Lemma digit_not_space a : is_digit a = true → is_space a = false.
Proof. by_cases_on a. Qed.

Lemma digit_val_nonneg a : is_digit a = true → 0 ≤ digit_val a.
Proof. by_cases_on a. Qed.

Lemma digits_not_space t : digits t → all_chars (λ a, negb (is_space a)) t = true.
Proof.
  unfold digits. induction t as [|a t IH]; [done|]. simpl.
  intros [Ha Ht]%andb_true_iff. rewrite IH by done.
  by rewrite (digit_not_space a Ha).
Qed.

Lemma lstrip_head s : head_is (λ a, negb (is_space a)) s → lstrip s = s.
Proof. destruct s as [|a s]; simpl; [done|]. by intros ->%negb_true_iff. Qed.

Lemma rstrip_no_space s :
  all_chars (λ a, negb (is_space a)) s = true → rstrip s = s.
Proof.
  induction s as [|a s IH]; [done|]. simpl.
  intros [Ha Hs]%andb_true_iff. apply negb_true_iff in Ha.
  rewrite Ha. simpl. by rewrite IH.
Qed.

Lemma strip_no_space s :
  all_chars (λ a, negb (is_space a)) s = true → strip s = s.
Proof.
  intros H. unfold strip. rewrite lstrip_head by by apply head_is_all.
  by apply rstrip_no_space.
Qed.

Lemma int_digits_value t : ∀ acc b,
  digits t → t ≠ "" ∨ b = true →
  int_digits acc b t = Some (digits_value acc t).
Proof.
  unfold digits. induction t as [|a t IH]; intros acc b Ht Hb; simpl.
  - destruct Hb as [Hb|Hb]; [done|by rewrite Hb].
  - simpl in Ht. apply andb_true_iff in Ht as [Ha Ht]. rewrite Ha. auto.
Qed.

Lemma digits_value_nonneg t : ∀ acc,
  digits t → 0 ≤ acc → 0 ≤ digits_value acc t.
Proof.
  unfold digits. induction t as [|a t IH]; intros acc Ht Hacc; simpl; [done|].
  simpl in Ht. apply andb_true_iff in Ht as [Ha Ht].
  apply IH; [done|]. pose proof (digit_val_nonneg a Ha). lia.
Qed.

(** [int] accepts a run of digits. *)
Lemma py_int_digits t :
  digits t → t ≠ "" → py_int t = Some (digits_value 0 t) ∧ 0 ≤ digits_value 0 t.
Proof.
  intros Ht Hne. split; [|by apply digits_value_nonneg].
  unfold py_int. rewrite strip_no_space by by apply digits_not_space.
  rewrite split_sign_skip.
  - rewrite int_digits_value by auto. done.
  - destruct t as [|a t]; [done|]. unfold digits in Ht. simpl in *.
    apply andb_true_iff in Ht as [Ha _]. by rewrite (digit_not_sign a Ha).
Qed.

(** The groups of a header: digits, one capital letter, a name. *)
Lemma header_groups h m :
  rmatch header_re h = Some m →
  digits (grp 1 m) ∧ grp 1 m ≠ "" ∧
  (∃ u, grp 2 m = String u "" ∧ is_upper u = true) ∧
  all_chars not_newline (grp 3 m) = true ∧ grp 3 m ≠ "".
Proof.
  intros Hm%rmatch_caps. unfold header_re in Hm. cbn [cat den_caps] in Hm.
  destruct Hm as (p1 & s1 & c1 & [_ ->] & p2 & s2 & c2 & [_ ->] &
                  p3 & s3 & c3 & [_ ->] & p4 & s4 & c4 & [_ ->] &
                  p5 & s5 & c5 & (? & [Hg1 ->] & ->) &
                  p6 & s6 & c6 & [_ ->] &
                  p7 & s7 & c7 & (? & [Hg2 ->] & ->) &
                  p8 & s8 & c8 & [_ ->] & p9 & s9 & c9 & [_ ->] &
                  p10 & s10 & c10 & [_ ->] &
                  p11 & s11 & c11 & (? & [Hg3 ->] & ->) &
                  p12 & s12 & c12 & [_ ->] & _ & Hc).
  unfold grp, group. rewrite Hc. cbn [List.find Nat.eqb fmap option_fmap
    option_map snd default].
  destruct Hg1 as (t1 & Ht1 & Hne1 & -> & ->).
  destruct Hg2 as (u & -> & Hu & ->).
  destruct Hg3 as (t3 & Ht3 & Hne3 & -> & ->).
  replace (p4 + String.length t1 - p4)%nat with (String.length t1) by lia.
  replace (S p6 - p6)%nat with 1%nat by lia.
  replace (p10 + String.length t3 - p10)%nat with (String.length t3) by lia.
  rewrite !str_take_app. split_and!; [done..| |done|done].
  exists u. split; [|done]. by destruct s7.
Qed.


Lemma mapM_result_Raise_inv {A B} (f : A → result B) l e :
  mapM_result f l = Raise e → ∃ x, x ∈ l ∧ f x = Raise e.
Proof.
  induction l as [|x l IH]; [done|]. simpl.
  destruct (f x) as [y|e'] eqn:Hx; cbn [bind].
  - destruct (mapM_result f l) as [ys|e'']; cbn [bind]; [done|].
    intros [= ->]. destruct IH as (x' & ? & ?); [done|].
    exists x'. split; [by right|done].
  - intros [= ->]. exists x. split; [by left|done].
Qed.



(** * Facts about the order of the keys *)

Lemma string_compare_refl s : String.compare s s = Eq.
Proof.
  pose proof (String.compare_antisym s s) as H.
  by destruct (String.compare s s).
Qed.

Lemma string_compare_lt_trans s t u :
  String.compare s t = Lt → String.compare t u = Lt → String.compare s u = Lt.
Proof.
  intros Hst Htu.
  assert (String.le s u) as Hsu.
  { transitivity t; unfold String.le, String.leb; [by rewrite Hst|by rewrite Htu]. }
  unfold String.le, String.leb in Hsu.
  destruct (String.compare s u) eqn:E; [|done|done].
  apply String.compare_eq_iff in E as ->.
  rewrite String.compare_antisym, Htu in Hst. done.
Qed.

Lemma key_compare_refl a : key_compare a a = Eq.
Proof.
  unfold key_compare. by rewrite !string_compare_refl, Z.compare_refl.
Qed.

Lemma key_compare_antisym a b : key_compare b a = CompOpp (key_compare a b).
Proof.
  unfold key_compare.
  rewrite (String.compare_antisym a.1.1 b.1.1).
  destruct (String.compare b.1.1 a.1.1); simpl; [|done..].
  rewrite (String.compare_antisym a.1.2 b.1.2).
  destruct (String.compare b.1.2 a.1.2); simpl; [|done..].
  by rewrite (Z.compare_antisym b.2 a.2), CompOpp_involutive.
Qed.

Lemma key_compare_lt_trans a b c :
  key_compare a b = Lt → key_compare b c = Lt → key_compare a c = Lt.
Proof.
  destruct a as [[a1 a2] a3], b as [[b1 b2] b3], c as [[c1 c2] c3].
  unfold key_compare. simpl.
  destruct (String.compare a1 b1) eqn:E1; [|intros _|done].
  - apply String.compare_eq_iff in E1 as ->.
    destruct (String.compare b1 c1); [|done..].
    destruct (String.compare a2 b2) eqn:E2; [|intros _|done].
    + apply String.compare_eq_iff in E2 as ->.
      destruct (String.compare b2 c2); [|done..].
      rewrite !Z.compare_lt_iff. lia.
    + destruct (String.compare b2 c2) eqn:E3; [|intros _|done].
      * apply String.compare_eq_iff in E3 as ->. by rewrite E2.
      * by rewrite (string_compare_lt_trans _ _ _ E2 E3).
  - destruct (String.compare b1 c1) eqn:E3; [|intros _|done].
    + apply String.compare_eq_iff in E3 as ->. by rewrite E1.
    + by rewrite (string_compare_lt_trans _ _ _ E1 E3).
Qed.

Lemma key_compare_eq a b : key_compare a b = Eq → a = b.
Proof.
  destruct a as [[a1 a2] a3], b as [[b1 b2] b3]. unfold key_compare. simpl.
  destruct (String.compare a1 b1) eqn:E1; [|done..].
  destruct (String.compare a2 b2) eqn:E2; [|done..].
  intros ->%Z.compare_eq.
  by apply String.compare_eq_iff in E1 as ->, E2 as ->.
Qed.

Lemma key_leb_refl a : key_leb a a = true.
Proof. unfold key_leb. by rewrite key_compare_refl. Qed.

Lemma key_leb_trans a b c :
  key_leb a b = true → key_leb b c = true → key_leb a c = true.
Proof.
  unfold key_leb.
  destruct (key_compare a b) eqn:Eab; [|intros _|done].
  - apply key_compare_eq in Eab as ->. done.
  - destruct (key_compare b c) eqn:Ebc; [|intros _|done].
    + apply key_compare_eq in Ebc as ->. by rewrite Eab.
    + by rewrite (key_compare_lt_trans _ _ _ Eab Ebc).
Qed.

Lemma key_ltb_false a b : key_ltb a b = false → key_leb b a = true.
Proof.
  unfold key_ltb, key_leb. rewrite (key_compare_antisym a b).
  by destruct (key_compare a b).
Qed.

Lemma key_ltb_leb a b : key_ltb a b = true → key_leb a b = true.
Proof. unfold key_ltb, key_leb. by destruct (key_compare a b). Qed.

(** * Facts about the sort *)

Lemma insert_row_perm d l : insert_row d l ≡ₚ d :: l.
Proof.
  induction l as [|d' l IH]; simpl; [done|].
  destruct (key_ltb _ _); [|done].
  rewrite IH. apply Permutation_swap.
Qed.

Lemma sort_rows_perm l : sort_rows l ≡ₚ l.
Proof.
  induction l as [|d l IH]; simpl; [done|].
  by rewrite insert_row_perm, IH.
Qed.

Lemma insert_row_sorted d l :
  StronglySorted row_le l → StronglySorted row_le (insert_row d l).
Proof.
  induction l as [|d' l IH]; intros Hs; simpl.
  - by repeat constructor.
  - apply StronglySorted_inv in Hs as [Hs Hall].
    destruct (key_ltb (sort_key d') (sort_key d)) eqn:E.
    + constructor; [by apply IH|].
      rewrite insert_row_perm. constructor; [|done].
      by apply key_ltb_leb.
    + apply key_ltb_false in E. constructor; [by constructor|].
      constructor; [done|].
      eapply Forall_impl; [done|]. intros x Hx.
      unfold row_le in *. by eapply key_leb_trans.
Qed.

Lemma sort_rows_sorted l : StronglySorted row_le (sort_rows l).
Proof.
  induction l as [|d l IH]; simpl; [constructor|]. by apply insert_row_sorted.
Qed.

Lemma strongly_sorted_lookup {A} (R : A → A → Prop) l :
  StronglySorted R l →
  ∀ i j a b, (i < j)%nat → l !! i = Some a → l !! j = Some b → R a b.
Proof.
  induction 1 as [|x l Hs IH Hall]; intros i j a b Hij Hi Hj; [done|].
  destruct j as [|j]; [lia|]. simpl in Hj.
  destruct i as [|i]; simpl in Hi.
  - injection Hi as ->. rewrite Forall_forall in Hall. apply Hall.
    by eapply list_elem_of_lookup_2.
  - apply (IH i j); [lia|done..].
Qed.

(** The sort is stable: rows with equal keys keep their order. *)
Lemma insert_row_stable d l k :
  filter (λ x, sort_key x = k) (insert_row d l)
  = filter (λ x, sort_key x = k) (d :: l).
Proof.
  induction l as [|d' l IH]; simpl; [done|].
  destruct (key_ltb (sort_key d') (sort_key d)) eqn:E; [|done].
  rewrite !filter_cons. rewrite filter_cons in IH.
  destruct (decide (sort_key d' = k)) as [Hd'|Hd'].
  - destruct (decide (sort_key d = k)) as [Hd|Hd].
    + rewrite Hd', Hd in E. unfold key_ltb in E.
      by rewrite key_compare_refl in E.
    + by rewrite IH.
  - rewrite IH. by destruct (decide (sort_key d = k)).
Qed.

Lemma sort_rows_stable l k :
  filter (λ x, sort_key x = k) (sort_rows l) = filter (λ x, sort_key x = k) l.
Proof.
  induction l as [|d l IH]; simpl; [done|].
  rewrite insert_row_stable.
  by rewrite !filter_cons, IH.
Qed.

(** * Facts about the join *)

Lemma sensor_kind_Some n k :
  _sensor_kind_from_name n = Some k →
  k = n ∧ ∃ id, SENSOR_NAME_TO_TYPE_ID !! k = Some id.
Proof.
  unfold _sensor_kind_from_name. destruct (decide _) as [[id H]|]; [|done].
  intros [= <-]. eauto.
Qed.

Lemma classified_true r pc :
  classified r pc = true ↔
  ∃ kind, _sensor_kind_from_name (cell_or_blank r pc.1) = Some kind.
Proof. unfold classified. rewrite bool_decide_eq_true. done. Qed.

Lemma classified_false r pc :
  classified r pc = false ↔ _sensor_kind_from_name (cell_or_blank r pc.1) = None.
Proof.
  unfold classified. rewrite bool_decide_eq_false, <- eq_None_not_Some. done.
Qed.

(** The fields of the row appended for a pair that classifies. *)
Lemma promoter_row_Some amino r mi mc col code kind id :
  _sensor_kind_from_name (cell_or_blank r col) = Some kind →
  SENSOR_NAME_TO_TYPE_ID !! kind = Some id →
  ∃ d, promoter_row amino r mi mc (col, code) = Ok (Some d) ∧
    sensor_kind d = kind ∧ organ_type_id d = id ∧ promoter_code d = code ∧
    promoter_param1 d = opt_float (amino !! code) ∧
    modifier_index d = VInt mi ∧ modifier_code d = mc ∧
    modifier_param1 d = opt_float (amino !! mc) ∧
    notes d = (if uses_param1_gain id then ENV_DYE_NOTE else NON_PARAM1_NOTE) ∧
    (combined_param1 d, gain_abs d, polarity d)
    = match uses_param1_gain id, amino !! code, amino !! mc with
      | true, Some p, Some m =>
          (VFloat (float_add p m), VFloat (float_abs (float_add p m)),
           VInt (if float_ge0 (float_add p m) then 1 else -1))
      | _, _, _ => (VNone, VNone, VNone)
      end.
Proof.
  intros Hk Hid. unfold promoter_row. rewrite Hk, Hid.
  eexists. split; [done|]. cbn [sensor_kind organ_type_id promoter_code
    promoter_param1 modifier_index modifier_code modifier_param1
    combined_param1 gain_abs polarity notes].
  split_and!; try done.
  by destruct (uses_param1_gain id), (amino !! code), (amino !! mc).
Qed.

Lemma promoter_row_None amino r mi mc col code :
  _sensor_kind_from_name (cell_or_blank r col) = None →
  promoter_row amino r mi mc (col, code) = Ok None.
Proof. intros H. unfold promoter_row. by rewrite H. Qed.

(** A turn of the promoter loop never raises, and appends a row exactly
    for the pairs that classify. *)
Lemma promoter_row_total amino r mi mc pc :
  ∃ o, promoter_row amino r mi mc pc = Ok o ∧
       (is_Some o ↔ classified r pc = true).
Proof.
  destruct pc as [col code].
  destruct (_sensor_kind_from_name (cell_or_blank r col)) as [kind|] eqn:Hk.
  - destruct (sensor_kind_Some _ _ Hk) as [_ [id Hid]].
    destruct (promoter_row_Some amino r mi mc col code kind id Hk Hid)
      as (d & -> & _).
    exists (Some d). split; [done|]. rewrite classified_true. simpl.
    split; eauto.
  - rewrite promoter_row_None by done. exists None. split; [done|].
    rewrite classified_true. simpl. rewrite Hk. split; [by intros [? [=]]|].
    by intros [? [=]].
Qed.

(** A row appended by the promoter loop carries the promoter's code and
    an integer modifier index. *)
Lemma promoter_row_shape amino r mi mc pc d :
  promoter_row amino r mi mc pc = Ok (Some d) →
  promoter_code d = pc.2 ∧ modifier_index d = VInt mi ∧ modifier_code d = mc.
Proof.
  destruct pc as [col code]. intros H.
  destruct (_sensor_kind_from_name (cell_or_blank r col)) as [kind|] eqn:Hk.
  - destruct (sensor_kind_Some _ _ Hk) as [_ [id Hid]].
    destruct (promoter_row_Some amino r mi mc col code kind id Hk Hid)
      as (d' & Hd' & _ & _ & ? & _ & ? & ? & _).
    rewrite Hd' in H. by simplify_eq.
  - by rewrite promoter_row_None in H.
Qed.

Lemma promoter_rows_total amino r mi mc pcs :
  ∃ ds, mapM_result (promoter_row amino r mi mc) pcs = Ok ds.
Proof.
  apply mapM_result_total. intros pc _.
  destruct (promoter_row_total amino r mi mc pc) as (o & -> & _). eauto.
Qed.

Lemma promoter_rows_length amino r mi mc pcs ds :
  mapM_result (promoter_row amino r mi mc) pcs = Ok ds →
  length (omap id ds) = length (filter (λ pc, classified r pc = true) pcs).
Proof.
  rewrite mapM_result_Ok. induction 1 as [|pc o pcs ds Hpc _ IH]; [done|].
  destruct (promoter_row_total amino r mi mc pc) as (o' & Ho' & Hcl).
  rewrite Hpc in Ho'. injection Ho' as <-.
  rewrite filter_cons.
  destruct o as [d|].
  - rewrite decide_True by (apply Hcl; eauto).
    change (omap id (Some d :: ds)) with (d :: omap id ds).
    simpl. by rewrite IH.
  - rewrite decide_False.
    + by change (omap id (None :: ds)) with (omap id ds).
    + intros Hc. apply Hcl in Hc as [? [=]].
Qed.

Lemma modifier_cells_csv amino r :
  csv_row_rows amino r
  = match modifier_cells r with
    | Ok (mi, mc) =>
        let* ds := mapM_result (promoter_row amino r mi mc) promoters in
        Ok (omap id ds)
    | Raise e => Raise e
    end.
Proof.
  unfold csv_row_rows, modifier_cells.
  destruct (cell_strip r "Modifier") as [s|]; cbn [bind]; [|done].
  destruct (int_of s) as [i|]; cbn [bind]; [|done].
  by destruct (cell_strip r "Modifier_AA") as [c|]; cbn [bind].
Qed.

Lemma csv_row_rows_Ok amino r rs :
  csv_row_rows amino r = Ok rs ↔
  ∃ mi mc ds, modifier_cells r = Ok (mi, mc) ∧
    mapM_result (promoter_row amino r mi mc) promoters = Ok ds ∧
    rs = omap id ds.
Proof.
  rewrite modifier_cells_csv. destruct (modifier_cells r) as [[mi mc]|e].
  - destruct (promoter_rows_total amino r mi mc promoters) as [ds Hds].
    rewrite Hds. cbn [bind]. split.
    + intros [= <-]. by exists mi, mc, ds.
    + intros (mi' & mc' & ds' & [= <- <-] & Hds' & ->). congruence.
  - split; [done|]. by intros (? & ? & ? & [=] & _).
Qed.

Lemma csv_row_rows_Raise amino r e :
  csv_row_rows amino r = Raise e ↔ modifier_cells r = Raise e.
Proof.
  rewrite modifier_cells_csv. destruct (modifier_cells r) as [[mi mc]|e'].
  - destruct (promoter_rows_total amino r mi mc promoters) as [ds Hds].
    rewrite Hds. cbn [bind]. split; intros [=].
  - split; intros [= ->]; done.
Qed.

(** The rows before the sort. *)
Lemma generate_rows_Ok table csv rows :
  generate_rows table csv = Ok rows ↔
  ∃ rss, mapM_result (csv_row_rows (amino_param1_by_code table)) csv = Ok rss ∧
    rows = sort_rows (concat rss ++
                      if dict_mem 24 table then [energy_row] else [])%list.
Proof.
  unfold generate_rows.
  destruct (mapM_result _ csv) as [rss|e]; cbn [bind].
  - split.
    + intros [= <-]. exists rss. split; [done|].
      destruct (dict_mem 24 table); [done|]. by rewrite app_nil_r.
    + intros (rss' & [= <-] & ->).
      destruct (dict_mem 24 table); [done|]. by rewrite app_nil_r.
  - split; [done|]. by intros (? & [=] & _).
Qed.

Lemma generate_table_Ok lines csv rows :
  generate_table lines csv = Some (Ok rows) ↔
  ∃ table, parse_shared_wgsl_param1 lines = Some (Ok table) ∧
           generate_rows table csv = Ok rows.
Proof.
  unfold generate_table.
  destruct (parse_shared_wgsl_param1 lines) as [[table|e]|]; simpl.
  - split; [intros [= H]; eauto|]. by intros (? & [= <-] & ->).
  - split; [done|]. by intros (? & [=] & _).
  - split; [done|]. by intros (? & [=] & _).
Qed.

(** Every output row is the synthetic row or was appended for a pair
    of a CSV row and a promoter column. *)
Lemma generate_rows_elem table csv rows d :
  generate_rows table csv = Ok rows → d ∈ rows →
  (dict_mem 24 table = true ∧ d = energy_row) ∨
  ∃ r mi mc pc, r ∈ csv ∧ modifier_cells r = Ok (mi, mc) ∧ pc ∈ promoters ∧
    promoter_row (amino_param1_by_code table) r mi mc pc = Ok (Some d).
Proof.
  intros (rss & Hrss & ->)%generate_rows_Ok. rewrite sort_rows_perm.
  intros [Hd|Hd]%elem_of_app.
  - right. apply list_elem_of_In, in_concat in Hd as (rs & Hrs & Hd).
    apply list_elem_of_In in Hrs, Hd. apply mapM_result_Ok in Hrss.
    apply list_elem_of_lookup in Hrs as [i Hi].
    destruct (Forall2_lookup_r _ _ _ _ _ Hrss Hi) as (r & Hr & Hrow).
    apply csv_row_rows_Ok in Hrow as (mi & mc & ds & Hmod & Hds & ->).
    apply list_elem_of_omap in Hd as (o & Ho & Heq). simpl in Heq. subst o.
    apply mapM_result_Ok in Hds.
    apply list_elem_of_lookup in Ho as [j Hj].
    destruct (Forall2_lookup_r _ _ _ _ _ Hds Hj) as (pc & Hpc & Hprow).
    exists r, mi, mc, pc. split_and!; [|done| |done].
    + by eapply list_elem_of_lookup_2.
    + by eapply list_elem_of_lookup_2.
  - left. destruct (dict_mem 24 table); [|by apply elem_of_nil in Hd].
    by apply list_elem_of_singleton in Hd.
Qed.

(** Every pair that classifies has its row in the output. *)
Lemma generate_rows_has table csv rows r mi mc pc d :
  generate_rows table csv = Ok rows →
  r ∈ csv → modifier_cells r = Ok (mi, mc) → pc ∈ promoters →
  promoter_row (amino_param1_by_code table) r mi mc pc = Ok (Some d) →
  d ∈ rows.
Proof.
  intros (rss & Hrss & ->)%generate_rows_Ok Hr Hmod Hpc Hd.
  rewrite sort_rows_perm. apply elem_of_app. left.
  apply mapM_result_Ok in Hrss.
  apply list_elem_of_lookup in Hr as [i Hi].
  destruct (Forall2_lookup_l _ _ _ _ _ Hrss Hi) as (rs & Hrs & Hrow).
  apply csv_row_rows_Ok in Hrow as (mi' & mc' & ds & Hmod' & Hds & ->).
  rewrite Hmod in Hmod'. injection Hmod' as <- <-.
  apply mapM_result_Ok in Hds.
  apply list_elem_of_lookup in Hpc as [j Hj].
  destruct (Forall2_lookup_l _ _ _ _ _ Hds Hj) as (o & Ho & Hprow).
  rewrite Hd in Hprow. injection Hprow as <-.
  apply list_elem_of_In, in_concat. exists (omap id ds). split.
  - apply list_elem_of_In. by eapply list_elem_of_lookup_2.
  - apply list_elem_of_In, list_elem_of_omap. exists (Some d). split; [|done].
    by eapply list_elem_of_lookup_2.
Qed.

(** * Properties of the pipeline *)

(** ** The Float Extractor *)

Lemma contains_literal_search p :
  is_Some (search WGSL_FLOAT_RE p) → contains_literal p.
Proof.
  intros [m Hm]. destruct (contains_literal_dec p) as [|Hn]; [done|].
  apply search_float_None in Hn. congruence.
Qed.

(** C8.  On every fragment [p], the Float Extractor:
    - returns a float whenever [p] contains a numeric literal (optional
      sign, optional decimal point, optional exponent): the value of the
      literal that starts leftmost in [p];
    - returns the value of a literal [lit] when [p] is [lit] with
      non-numeric characters before it and a non-numeric character
      (a comma, a parenthesis, ...) right after it;
    - raises [ParseError], carrying [p], exactly when [p] contains no
      such literal, and raises nothing else. *)
Theorem float_extractor_spec (p : string) :
  (contains_literal p →
   ∃ pre lit post f,
     p = pre ++ lit ++ post ∧ numeric_literal lit ∧ py_float lit = Some f ∧
     parse_component p = Ok f ∧
     ∀ lit1 pre1 post1, numeric_literal lit1 → p = pre1 ++ lit1 ++ post1 →
       (String.length pre ≤ String.length pre1)%nat)
  ∧ (∀ pre lit post,
       p = pre ++ lit ++ post → all_chars non_numeric pre = true →
       numeric_literal lit → head_is non_numeric post →
       ∃ f, py_float lit = Some f ∧ parse_component p = Ok f)
  ∧ (parse_component p = Raise (ParseError p) ↔ ¬ contains_literal p)
  ∧ (∀ e, parse_component p = Raise e → e = ParseError p).
Proof.
  split_and!.
  - apply parse_component_literal.
  - intros pre lit post -> Hpre Hlit Hpost.
    by apply parse_component_punctuation.
  - split; [|apply parse_component_no_literal].
    intros He Hc. apply parse_component_literal in Hc as (?&?&?&?&_&_&_&Hok&_).
    congruence.
  - intros e He. destruct (contains_literal_dec p) as [Hc|Hn].
    + apply parse_component_literal in Hc as (?&?&?&?&_&_&_&Hok&_). congruence.
    + rewrite parse_component_no_literal in He by done. congruence.
Qed.

Lemma float_extractor_spec_witness :
  parse_component "(-0.23)," = Ok (S754_finite true 8286623314361713 (-55)).
Proof.
  destruct (float_extractor_spec "(-0.23),") as (_ & H & _).
  destruct (H "(" "-0.23" "),") as (f & Hf & ->).
  - reflexivity.
  - reflexivity.
  - exists "-", "0", ".", "23", "". unfold sign_opt, digits, point_opt, exponent_opt.
    repeat split; auto.
  - reflexivity.
  - vm_compute in Hf. congruence.
Defined.

(** ** The shader table parser *)

(** The forward search of a header at line [i] finds the data line at
    line [j]. *)
Lemma forward_search_found lines i j d :
  (i < j)%nat → lines !! j = Some d → data_line d = true →
  (∀ k l, (i < k < j)%nat → lines !! k = Some l →
     comment_line l = false ∧ data_line l = false) →
  find_data_line (drop (i + 1) lines) = Some (strip d).
Proof.
  intros Hij Hj Hd Hbefore.
  apply (find_data_line_found _ (j - (i + 1))%nat d); [|done|].
  - rewrite lookup_drop. by replace (i + 1 + (j - (i + 1)))%nat with j by lia.
  - intros k l Hk. rewrite lookup_drop. apply Hbefore. lia.
Qed.

Lemma forward_search_comment lines i j c :
  (i < j)%nat → lines !! j = Some c → comment_line c = true →
  (∀ k l, (i < k < j)%nat → lines !! k = Some l → data_line l = false) →
  find_data_line (drop (i + 1) lines) = None.
Proof.
  intros Hij Hj Hc Hbefore.
  apply (find_data_line_comment_first _ (j - (i + 1))%nat c); [|done|].
  - rewrite lookup_drop. by replace (i + 1 + (j - (i + 1)))%nat with j by lia.
  - intros k l Hk. rewrite lookup_drop. apply Hbefore. lia.
Qed.

(** A turn of the loop at a header whose data line was found. *)
Lemma scan_body_data lines st h m n s :
  lines !! st_i st = Some h → rmatch header_re h = Some m →
  py_int (grp 1 m) = Some n →
  find_data_line (drop (st_i st + 1) lines) = Some s →
  scan_body lines st
  = if (length (findall vec4_re s) <? 4)%nat then Raise (MalformedRow n s)
    else
      let* d3 := _parse_vec4_components (nth 3 (findall vec4_re s) "") in
      if negb (length d3 =? 4)%nat
      then Raise (MalformedVec4 n (nth 3 (findall vec4_re s) ""))
      else Ok {| st_i := st_i st + 1;
                 st_entries :=
                   dict_set n {| idx := n; code := grp 2 m; name := grp 3 m;
                                 param1 := nth 3 d3 S754_nan |}
                     (st_entries st) |}.
Proof.
  intros Hh Hm Hn Hs. unfold scan_body.
  rewrite (nth_lookup_s _ _ _ Hh), Hm. unfold int_of. rewrite Hn.
  cbn [bind]. by rewrite Hs.
Qed.

Lemma scan_body_no_data lines st h m n :
  lines !! st_i st = Some h → rmatch header_re h = Some m →
  py_int (grp 1 m) = Some n →
  find_data_line (drop (st_i st + 1) lines) = None →
  scan_body lines st
  = Ok {| st_i := st_i st + 1; st_entries := st_entries st |}.
Proof.
  intros Hh Hm Hn Hs. unfold scan_body.
  rewrite (nth_lookup_s _ _ _ Hh), Hm. unfold int_of. rewrite Hn.
  cbn [bind]. by rewrite Hs.
Qed.

Lemma components_parse_all g :
  (∀ frag, frag ∈ components g → contains_literal frag) →
  ∃ d3, _parse_vec4_components g = Ok d3 ∧
        length d3 = length (components g) ∧
        ∀ k frag, components g !! k = Some frag →
          ∃ v, d3 !! k = Some v ∧ parse_component frag = Ok v.
Proof.
  intros Hall. unfold _parse_vec4_components. fold (components g).
  destruct (mapM_result_total parse_component (components g)) as [d3 Hd3].
  { intros frag Hf.
    destruct (parse_component_literal frag (Hall frag Hf))
      as (_ & _ & _ & f & _ & _ & _ & Hok & _). eauto. }
  exists d3. split; [done|]. split; [by eapply mapM_result_length|].
  intros k frag Hk. apply mapM_result_Ok in Hd3.
  destruct (Forall2_lookup_l _ _ _ _ _ Hd3 Hk) as (v & Hv & Hp). eauto.
Qed.

(** C4, amended.  When the scan is at a header line (index [n]) whose
    data line [d] the forward search finds:
    - fewer than four vector groups in the data line raise
      [MalformedRow], with the index [n] and the line;
    - otherwise, the first component of the fourth group that holds no
      numeric literal raises [ParseError], with that component (and
      no index);
    - otherwise, a number of components other than four raises
      [MalformedVec4], with the index [n] and the group;
    - otherwise the record is stored under [n], with the value of the
      fourth component of the fourth group as param1;
    - an exception ends the whole parse: no mapping is returned. *)
Theorem data_line_malformed_or_param1 (lines : list string) (st : scan_state)
    (h d : string) (m : mtch) (n : Z) (j : nat) :
  lines !! st_i st = Some h → rmatch header_re h = Some m →
  py_int (grp 1 m) = Some n →
  (st_i st < j)%nat → lines !! j = Some d → data_line d = true →
  (∀ k l, (st_i st < k < j)%nat → lines !! k = Some l →
     comment_line l = false ∧ data_line l = false) →
  ((length (findall vec4_re (strip d)) < 4)%nat →
   scan_body lines st = Raise (MalformedRow n (strip d)))
  ∧ ((4 ≤ length (findall vec4_re (strip d)))%nat →
     ∀ k frag,
       components (nth 3 (findall vec4_re (strip d)) "") !! k = Some frag →
       ¬ contains_literal frag →
       (∀ k' frag', (k' < k)%nat →
          components (nth 3 (findall vec4_re (strip d)) "") !! k' = Some frag' →
          contains_literal frag') →
       scan_body lines st = Raise (ParseError frag))
  ∧ ((4 ≤ length (findall vec4_re (strip d)))%nat →
     (∀ frag, frag ∈ components (nth 3 (findall vec4_re (strip d)) "") →
        contains_literal frag) →
     length (components (nth 3 (findall vec4_re (strip d)) "")) ≠ 4%nat →
     scan_body lines st
     = Raise (MalformedVec4 n (nth 3 (findall vec4_re (strip d)) "")))
  ∧ ((4 ≤ length (findall vec4_re (strip d)))%nat →
     (∀ frag, frag ∈ components (nth 3 (findall vec4_re (strip d)) "") →
        contains_literal frag) →
     length (components (nth 3 (findall vec4_re (strip d)) "")) = 4%nat →
     ∃ v,
       parse_component
         (nth 3 (components (nth 3 (findall vec4_re (strip d)) "")) "") = Ok v ∧
       scan_body lines st
       = Ok {| st_i := st_i st + 1;
               st_entries :=
                 dict_set n {| idx := n; code := grp 2 m; name := grp 3 m;
                               param1 := v |} (st_entries st) |})
  ∧ (∀ e, scan_body lines st = Raise e →
       (∀ fuel, scan_loop (S fuel) lines st = Some (Raise e)) ∧
       ∃ e', parse_shared_wgsl_param1 lines = Some (Raise e')).
Proof.
  intros Hh Hm Hn Hij Hj Hd Hbefore.
  pose proof (forward_search_found lines _ j d Hij Hj Hd Hbefore) as Hs.
  pose proof (scan_body_data lines st h m n _ Hh Hm Hn Hs) as Hbody.
  set (groups := findall vec4_re (strip d)) in *.
  set (g := nth 3 groups "") in *.
  assert (st_i st < length lines)%nat as Hlen by by eapply lookup_lt_Some.
  split_and!.
  - intros Hlt. rewrite Hbody.
    by destruct (Nat.ltb_spec (length groups) 4); [|lia].
  - intros Hge k frag Hk Hnone Hearlier. rewrite Hbody.
    destruct (Nat.ltb_spec (length groups) 4); [lia|].
    unfold _parse_vec4_components. fold (components g).
    rewrite (mapM_result_Raise parse_component (components g) k frag
               (ParseError frag)); [done|done| |].
    + by apply parse_component_no_literal.
    + intros k' frag' Hk' Hf'.
      destruct (parse_component_literal frag' (Hearlier k' frag' Hk' Hf'))
        as (_ & _ & _ & f & _ & _ & _ & Hok & _). eauto.
  - intros Hge Hall Hcount. rewrite Hbody.
    destruct (Nat.ltb_spec (length groups) 4); [lia|].
    destruct (components_parse_all g Hall) as (d3 & -> & Hl & _). cbn [bind].
    by destruct (Nat.eqb_spec (length d3) 4); [lia|].
  - intros Hge Hall Hcount.
    destruct (components_parse_all g Hall) as (d3 & Hd3 & Hl & Hval).
    destruct (lookup_lt_is_Some_2 (components g) 3) as [frag Hfrag]; [lia|].
    destruct (Hval 3%nat frag Hfrag) as (v & Hv & Hp).
    exists v. split; [by rewrite (nth_lookup_s _ _ _ Hfrag)|].
    rewrite Hbody. destruct (Nat.ltb_spec (length groups) 4); [lia|].
    rewrite Hd3. cbn [bind].
    destruct (Nat.eqb_spec (length d3) 4); [|lia]. simpl.
    by rewrite nth_lookup, Hv.
  - intros e He. split.
    + intros fuel. by apply scan_loop_raise.
    + apply (scan_loop_raise_later lines (st_i st) e Hlen).
      * intros E. destruct st as [i E0]. by eapply scan_body_raise_any.
      * simpl. lia.
      * simpl. lia.
Qed.

Lemma data_line_malformed_or_param1_witness :
  scan_body Sample.shader {| st_i := 1; st_entries := [] |}
  = Ok {| st_i := 2;
          st_entries :=
            [(17, {| idx := 17; code := "V"; name := "Valine";
                     param1 := S754_finite true 8286623314361713 (-55) |})] |}.
Proof.
  edestruct (data_line_malformed_or_param1 Sample.shader
               {| st_i := 1; st_entries := [] |}) as (_ & _ & _ & H & _).
  - reflexivity.
  - vm_compute. reflexivity.
  - vm_compute. reflexivity.
  - instantiate (1 := 2%nat). simpl. lia.
  - reflexivity.
  - vm_compute. reflexivity.
  - intros k l Hk. simpl in Hk. lia.
  - destruct H as (v & Hv & ->).
    + vm_compute. lia.
    + intros frag Hf. apply contains_literal_search.
      vm_compute in Hf.
      repeat (apply elem_of_cons in Hf as [->|Hf]; [vm_compute; eauto|]).
      by apply elem_of_nil in Hf.
    + vm_compute. reflexivity.
    + vm_compute in Hv. injection Hv as <-. vm_compute. reflexivity.
Defined.

(** C4 as stated fails: a component of the fourth group without a
    number raises [ParseError] with the component, not an exception
    with the index of the record. *)
Lemma bad_component_raises_parse_error :
  (∃ m, rmatch header_re ("    // 3 A - Alanine" ++ Sample.nl) = Some m ∧
        py_int (grp 1 m) = Some 3) ∧
  find_data_line (drop 1 Sample.shader_bad_component)
  = Some (strip (Sample.data "0.0, 0.3, x, 0.1")) ∧
  nth 3 (findall vec4_re (strip (Sample.data "0.0, 0.3, x, 0.1"))) ""
  = "0.0, 0.3, x, 0.1" ∧
  parse_shared_wgsl_param1 Sample.shader_bad_component
  = Some (Raise (ParseError "x")) ∧
  ∀ n s, ParseError "x" ≠ MalformedRow n s ∧ ParseError "x" ≠ MalformedVec4 n s.
Proof.
  split_and!.
  - eexists. split; vm_compute; reflexivity.
  - vm_compute. reflexivity.
  - vm_compute. reflexivity.
  - vm_compute. reflexivity.
  - done.
Qed.

(** C5.  When the scan is at a header line, with index [n]:
    - if the forward search meets a comment line before any data line,
      no record is stored and the scan goes on at the line after the
      header;
    - if it finds the data line, at line [j], and the record is stored,
      the scan goes on at the line after the header all the same, which
      is not past [j]: the loop then takes every line [k] of the block,
      the data line included, as the next candidate header. *)
Theorem scan_resumes_after_header (lines : list string) (st : scan_state)
    (h : string) (m : mtch) (n : Z) :
  lines !! st_i st = Some h → rmatch header_re h = Some m →
  py_int (grp 1 m) = Some n →
  (∀ j c,
     (st_i st < j)%nat → lines !! j = Some c → comment_line c = true →
     (∀ k l, (st_i st < k < j)%nat → lines !! k = Some l → data_line l = false) →
     scan_body lines st
     = Ok {| st_i := st_i st + 1; st_entries := st_entries st |})
  ∧ (∀ j d st',
       (st_i st < j)%nat → lines !! j = Some d → data_line d = true →
       (∀ k l, (st_i st < k < j)%nat → lines !! k = Some l →
          comment_line l = false ∧ data_line l = false) →
       scan_body lines st = Ok st' →
       st_i st' = (st_i st + 1)%nat ∧ (st_i st' ≤ j)%nat ∧
       (∃ e, st_entries st' = dict_set n e (st_entries st) ∧ idx e = n ∧
             code e = grp 2 m ∧ name e = grp 3 m) ∧
       ∀ fuel k,
         (length lines - st_i st ≤ fuel)%nat → (st_i st < k ≤ j)%nat →
         scan_loop fuel lines st
         = scan_loop (fuel - (k - st_i st)) lines
             {| st_i := k; st_entries := st_entries st' |}).
Proof.
  intros Hh Hm Hn. split.
  - intros j c Hij Hj Hc Hbefore.
    apply (scan_body_no_data lines st h m n); [done..|].
    by eapply forward_search_comment.
  - intros j d st' Hij Hj Hd Hbefore Hst'.
    pose proof (scan_body_advance _ _ _ Hst') as Hi.
    pose proof (forward_search_found lines _ j d Hij Hj Hd Hbefore) as Hs.
    pose proof Hst' as Hbody.
    rewrite (scan_body_data lines st h m n _ Hh Hm Hn Hs) in Hbody.
    split_and!; [done|lia| |].
    + destruct (_ <? _)%nat; [done|].
      destruct (_parse_vec4_components _) as [d3|]; [|done]. cbn [bind] in Hbody.
      destruct (negb _); [done|]. injection Hbody as <-. simpl. eauto.
    + intros fuel k Hfuel Hk.
      assert (st_i st < length lines)%nat as Hlen by by eapply lookup_lt_Some.
      assert (j < length lines)%nat as Hjlen by by eapply lookup_lt_Some.
      destruct fuel as [|fuel]; [lia|].
      rewrite scan_loop_unfold, Hst' by done.
      destruct st' as [i' E']. simpl in Hi. subst i'. simpl.
      rewrite (scan_loop_pass lines E' (k - (st_i st + 1))%nat); [|lia|lia|].
      * f_equal; [lia|]. f_equal. lia.
      * intros k' l Hk' Hl. apply (Hbefore k' l); [lia|done].
Qed.

Lemma scan_resumes_after_header_witness :
  scan_body Sample.shader_abandoned {| st_i := 0; st_entries := [] |}
  = Ok {| st_i := 1; st_entries := [] |}
  ∧ scan_loop 9 Sample.shader {| st_i := 3; st_entries := [] |}
    = scan_loop 7 Sample.shader
        {| st_i := 5;
           st_entries :=
             [(8, {| idx := 8; code := "H"; name := "Histidine";
                     param1 := S754_finite false 7205759403792794 (-56) |})] |}.
Proof.
  split.
  - edestruct (scan_resumes_after_header Sample.shader_abandoned
                 {| st_i := 0; st_entries := [] |}) as (H & _).
    + reflexivity.
    + vm_compute. reflexivity.
    + vm_compute. reflexivity.
    + apply (H 1%nat ("    // see below" ++ Sample.nl)).
      * simpl. lia.
      * reflexivity.
      * vm_compute. reflexivity.
      * intros k l Hk. simpl in Hk. lia.
  - edestruct (scan_resumes_after_header Sample.shader
                 {| st_i := 3; st_entries := [] |}) as (_ & H).
    + reflexivity.
    + vm_compute. reflexivity.
    + vm_compute. reflexivity.
    + edestruct (H 5%nat) as (_ & _ & _ & Hloop).
      * simpl. lia.
      * reflexivity.
      * vm_compute. reflexivity.
      * intros k l Hk Hl. simpl in Hk.
        assert (k = 4%nat) as -> by lia. vm_compute in Hl.
        injection Hl as <-. vm_compute. done.
      * vm_compute. reflexivity.
      * apply (Hloop 9%nat 5%nat); simpl; lia.
Defined.

(** ** The cross-reference join *)

Lemma uses_param1_gain_spec id :
  uses_param1_gain id = true ↔ id ∈ PARAM1_GAIN_IDS.
Proof. unfold uses_param1_gain. apply bool_decide_eq_true. Qed.

Lemma uses_param1_gain_not id :
  uses_param1_gain id = false ↔ id ∉ PARAM1_GAIN_IDS.
Proof. unfold uses_param1_gain. apply bool_decide_eq_false. Qed.

(** A param1 found by code comes from a record of the amino-acid
    indices. *)
Lemma amino_lookup table c p :
  amino_param1_by_code table !! c = Some p →
  ∃ e, e ∈ dict_values table ∧ code e = c ∧ 0 ≤ idx e ≤ 19 ∧ param1 e = p.
Proof.
  unfold amino_param1_by_code.
  assert (∀ l (m0 : gmap string spec_float),
            foldl (λ m e, if (0 <=? idx e) && (idx e <=? 19)
                          then <[code e:=param1 e]> m else m) m0 l !! c = Some p →
            m0 !! c = Some p ∨
            ∃ e, e ∈ l ∧ code e = c ∧ 0 ≤ idx e ≤ 19 ∧ param1 e = p) as Hgen.
  { induction l as [|e l IH]; intros m0; simpl; [auto|].
    intros [H|(e' & He' & ?)]%IH.
    - destruct ((0 <=? idx e) && (idx e <=? 19)) eqn:Hr; [|auto].
      destruct (decide (code e = c)) as [Hc|Hc].
      + rewrite <- Hc, lookup_insert_eq in H. injection H as <-.
        right. exists e. split; [by left|]. split; [done|]. split; [lia|done].
      + rewrite lookup_insert_ne in H by done. auto.
    - right. exists e'. split; [by right|done]. }
  intros [H|H]%Hgen; [|done]. by rewrite lookup_empty in H.
Qed.

Lemma promoter_code_filled pc : pc ∈ promoters → is_empty pc.2 = false.
Proof.
  unfold promoters. intros H.
  repeat (apply elem_of_cons in H as [->|H]; [done|]).
  by apply elem_of_nil in H.
Qed.

Lemma promoter_row_not_synthetic amino r mi mc pc d :
  pc ∈ promoters → promoter_row amino r mi mc pc = Ok (Some d) →
  synthetic d = false ∧ int_index d = true ∧ is_empty (promoter_code d) = false.
Proof.
  intros Hpc (Hcode & Hmi & _)%promoter_row_shape.
  unfold synthetic, join_fields_empty, int_index.
  rewrite Hcode, Hmi, (promoter_code_filled pc Hpc). simpl.
  by rewrite andb_false_r.
Qed.

(** The rows appended in the loop over the CSV rows. *)
Lemma joined_rows_elem amino csv rss d :
  mapM_result (csv_row_rows amino) csv = Ok rss → In d (concat rss) →
  ∃ r mi mc pc, r ∈ csv ∧ modifier_cells r = Ok (mi, mc) ∧ pc ∈ promoters ∧
    promoter_row amino r mi mc pc = Ok (Some d).
Proof.
  intros Hrss (rs & Hrs & Hd)%in_concat.
  apply list_elem_of_In in Hrs, Hd. apply mapM_result_Ok in Hrss.
  apply list_elem_of_lookup in Hrs as [i Hi].
  destruct (Forall2_lookup_r _ _ _ _ _ Hrss Hi) as (r & Hr & Hrow).
  apply csv_row_rows_Ok in Hrow as (mi & mc & ds & Hmod & Hds & ->).
  apply list_elem_of_omap in Hd as (o & Ho & Heq). simpl in Heq. subst o.
  apply mapM_result_Ok in Hds.
  apply list_elem_of_lookup in Ho as [j Hj].
  destruct (Forall2_lookup_r _ _ _ _ _ Hds Hj) as (pc & Hpc & Hprow).
  exists r, mi, mc, pc. split_and!; [|done| |done].
  - by eapply list_elem_of_lookup_2.
  - by eapply list_elem_of_lookup_2.
Qed.

Lemma filter_none {A} (P : A → Prop) `{∀ x, Decision (P x)} (l : list A) :
  (∀ x, x ∈ l → ¬ P x) → filter P l = [].
Proof.
  induction l as [|x l IH]; intros Hl; [done|].
  rewrite filter_cons_False by (apply Hl; by left).
  apply IH. intros y Hy. apply Hl. by right.
Qed.

Lemma joined_rows_not_synthetic amino csv rss :
  mapM_result (csv_row_rows amino) csv = Ok rss →
  filter (λ d, synthetic d = true) (concat rss) = [].
Proof.
  intros Hrss. apply filter_none. intros d Hd.
  apply list_elem_of_In in Hd.
  destruct (joined_rows_elem _ _ _ _ Hrss Hd)
    as (r & mi & mc & pc & _ & _ & Hpc & Hrow).
  destruct (promoter_row_not_synthetic _ _ _ _ _ _ Hpc Hrow) as [-> _]. done.
Qed.

(** C1, amended.  The synthetic row is appended exactly when the parsed
    table has a record under index 24, whatever the name of that record:
    the output then has one row of kind "Energy Sensor" with all join
    fields empty, which is [energy_row], and otherwise none.  Rows of
    that kind with filled join fields come from the CSV cells. *)
Theorem energy_row_by_index (lines : list string) (csv : list csv_row)
    (table : pydict Param1Entry) (rows : list row) :
  parse_shared_wgsl_param1 lines = Some (Ok table) →
  generate_table lines csv = Some (Ok rows) →
  length (filter (λ d, synthetic d = true) rows)
  = (if dict_mem 24 table then 1 else 0)%nat
  ∧ (∀ d, d ∈ rows → synthetic d = true → d = energy_row)
  ∧ (dict_mem 24 table = true → energy_row ∈ rows)
  ∧ sensor_kind energy_row = "Energy Sensor"
  ∧ join_fields_empty energy_row = true.
Proof.
  intros Hparse (table' & Hparse' & Hrows)%generate_table_Ok.
  rewrite Hparse in Hparse'. injection Hparse' as <-.
  pose proof Hrows as (rss & Hrss & ->)%generate_rows_Ok.
  split_and!; [| | |done..].
  - rewrite sort_rows_perm, filter_app, length_app.
    rewrite (joined_rows_not_synthetic _ _ _ Hrss).
    by destruct (dict_mem 24 table).
  - intros d Hd Hsyn.
    destruct (generate_rows_elem _ _ _ _ Hrows Hd)
      as [[_ ->]|(r & mi & mc & pc & _ & _ & Hpc & Hrow)]; [done|].
    destruct (promoter_row_not_synthetic _ _ _ _ _ _ Hpc Hrow) as [Hn _].
    congruence.
  - intros ->. rewrite sort_rows_perm. apply elem_of_app. right. by left.
Qed.

Lemma energy_row_by_index_witness :
  length (filter (λ d, synthetic d = true)
            [ energy_row;
              {| sensor_kind := "Energy Sensor"; organ_type_id := 24;
                 promoter_code := "V"; promoter_param1 := VNone;
                 modifier_index := VInt 5; modifier_code := "H";
                 modifier_param1 := VNone; combined_param1 := VNone;
                 gain_abs := VNone; polarity := VNone;
                 notes := NON_PARAM1_NOTE |} ]) = 1%nat.
Proof.
  edestruct (energy_row_by_index Sample.shader_other_24 Sample.csv_energy)
    as (H & _).
  - vm_compute. reflexivity.
  - vm_compute. reflexivity.
  - exact H.
Defined.

(** C1 as stated fails: a record named "Energy Sensor" under another
    index adds no row, a record of another name under index 24 adds
    the row, and with a CSV cell naming the energy sensor the output has
    two rows of that kind. *)
Lemma energy_row_not_by_name :
  (∃ table e,
     parse_shared_wgsl_param1 Sample.shader_named_30 = Some (Ok table) ∧
     e ∈ dict_values table ∧
     _sensor_kind_from_name (name e) = Some "Energy Sensor" ∧
     generate_table Sample.shader_named_30 [] = Some (Ok []))
  ∧ (∃ table,
       parse_shared_wgsl_param1 Sample.shader_other_24 = Some (Ok table) ∧
       (∀ e, e ∈ dict_values table → _sensor_kind_from_name (name e) = None) ∧
       generate_table Sample.shader_other_24 [] = Some (Ok [energy_row]))
  ∧ (∃ rows,
       generate_table Sample.shader_other_24 Sample.csv_energy = Some (Ok rows) ∧
       length (filter (λ d, is_energy_kind d = true) rows) = 2%nat).
Proof.
  split_and!.
  - eexists _, _. split; [vm_compute; reflexivity|].
    split; [by left|]. split; vm_compute; reflexivity.
  - eexists. split; [vm_compute; reflexivity|]. split.
    + intros e He. apply list_elem_of_singleton in He as ->.
      vm_compute. reflexivity.
    + vm_compute. reflexivity.
  - eexists. split; vm_compute; reflexivity.
Qed.

(** The row of a pair that classifies is in the output. *)
Lemma classified_row_in_output table csv rows r mi mc col code kind id :
  generate_rows table csv = Ok rows →
  r ∈ csv → modifier_cells r = Ok (mi, mc) → (col, code) ∈ promoters →
  _sensor_kind_from_name (cell_or_blank r col) = Some kind →
  SENSOR_NAME_TO_TYPE_ID !! kind = Some id →
  ∃ d, d ∈ rows ∧
    sensor_kind d = kind ∧ organ_type_id d = id ∧ promoter_code d = code ∧
    promoter_param1 d = opt_float (amino_param1_by_code table !! code) ∧
    modifier_index d = VInt mi ∧ modifier_code d = mc ∧
    modifier_param1 d = opt_float (amino_param1_by_code table !! mc) ∧
    notes d = (if uses_param1_gain id then ENV_DYE_NOTE else NON_PARAM1_NOTE) ∧
    (combined_param1 d, gain_abs d, polarity d)
    = match uses_param1_gain id, amino_param1_by_code table !! code,
            amino_param1_by_code table !! mc with
      | true, Some p, Some m =>
          (VFloat (float_add p m), VFloat (float_abs (float_add p m)),
           VInt (if float_ge0 (float_add p m) then 1 else -1))
      | _, _, _ => (VNone, VNone, VNone)
      end.
Proof.
  intros Hrows Hr Hmod Hpc Hkind Hid.
  destruct (promoter_row_Some (amino_param1_by_code table) r mi mc col code
              kind id Hkind Hid) as (d & Hd & Hfields).
  exists d. split; [|done]. by eapply generate_rows_has.
Qed.

Lemma note_distinct : ENV_DYE_NOTE ≠ NON_PARAM1_NOTE.
Proof. unfold ENV_DYE_NOTE, NON_PARAM1_NOTE. discriminate. Qed.

(** C2, amended.  For a CSV row and a promoter column whose organ name
    classifies, when the organ type is not in the allow-list or one of
    the two param1 is missing, the output row has combined, gain and
    polarity empty; its note is the "non-param1-sensor" one exactly when
    the organ type is not in the allow-list, and the "env-dye-sensor"
    one otherwise, even with a param1 missing. *)
Theorem underived_fields_and_note (lines : list string) (csv : list csv_row)
    (table : pydict Param1Entry) (rows : list row) (r : csv_row)
    (mi : Z) (mc col code kind : string) (id : Z) :
  parse_shared_wgsl_param1 lines = Some (Ok table) →
  generate_table lines csv = Some (Ok rows) →
  r ∈ csv → modifier_cells r = Ok (mi, mc) → (col, code) ∈ promoters →
  _sensor_kind_from_name (cell_or_blank r col) = Some kind →
  SENSOR_NAME_TO_TYPE_ID !! kind = Some id →
  id ∉ PARAM1_GAIN_IDS ∨ amino_param1_by_code table !! code = None
    ∨ amino_param1_by_code table !! mc = None →
  ∃ d, d ∈ rows ∧
    sensor_kind d = kind ∧ organ_type_id d = id ∧ promoter_code d = code ∧
    modifier_index d = VInt mi ∧ modifier_code d = mc ∧
    combined_param1 d = VNone ∧ gain_abs d = VNone ∧ polarity d = VNone ∧
    (notes d = NON_PARAM1_NOTE ↔ id ∉ PARAM1_GAIN_IDS) ∧
    (notes d = ENV_DYE_NOTE ↔ id ∈ PARAM1_GAIN_IDS).
Proof.
  intros Hparse (table' & Hparse' & Hrows)%generate_table_Ok Hr Hmod Hpc Hk Hid Hno.
  rewrite Hparse in Hparse'. injection Hparse' as <-.
  destruct (classified_row_in_output _ _ _ _ _ _ _ _ _ _ Hrows Hr Hmod Hpc Hk Hid)
    as (d & Hd & ? & ? & ? & _ & ? & ? & _ & Hnote & Hder).
  assert ((combined_param1 d, gain_abs d, polarity d) = (VNone, VNone, VNone))
    as [= ? ? ?].
  { rewrite Hder. destruct (uses_param1_gain id) eqn:Hg; [|done].
    destruct Hno as [Hno|[Hno|Hno]].
    - apply uses_param1_gain_not in Hno. congruence.
    - by rewrite Hno.
    - rewrite Hno. by destruct (amino_param1_by_code table !! code). }
  exists d. split_and!; [assumption..| |].
  - rewrite Hnote, <- uses_param1_gain_not.
    destruct (uses_param1_gain id); [|done].
    split; [intros H'; by apply note_distinct in H'|done].
  - rewrite Hnote, <- uses_param1_gain_spec.
    destruct (uses_param1_gain id); [done|].
    split; [intros H'; symmetry in H'; by apply note_distinct in H'|done].
Qed.

Lemma underived_fields_and_note_witness :
  ∃ d, d ∈ [ {| sensor_kind := "Alpha Sensor"; organ_type_id := 22;
                promoter_code := "V"; promoter_param1 := VNone;
                modifier_index := VInt 5; modifier_code := "Z";
                modifier_param1 := VNone; combined_param1 := VNone;
                gain_abs := VNone; polarity := VNone;
                notes := ENV_DYE_NOTE |} ] ∧
    sensor_kind d = "Alpha Sensor" ∧ organ_type_id d = 22 ∧
    promoter_code d = "V" ∧ modifier_index d = VInt 5 ∧ modifier_code d = "Z" ∧
    combined_param1 d = VNone ∧ gain_abs d = VNone ∧ polarity d = VNone ∧
    (notes d = NON_PARAM1_NOTE ↔ 22 ∉ PARAM1_GAIN_IDS) ∧
    (notes d = ENV_DYE_NOTE ↔ 22 ∈ PARAM1_GAIN_IDS).
Proof.
  eapply (underived_fields_and_note [] Sample.csv_unknown_modifier).
  - reflexivity.
  - vm_compute. reflexivity.
  - by left.
  - vm_compute. reflexivity.
  - by left.
  - vm_compute. reflexivity.
  - vm_compute. reflexivity.
  - right. left. vm_compute. reflexivity.
Defined.

(** C2 as stated fails: with an allow-listed organ type and a modifier
    without param1, the derived fields are empty and the note is the
    "env-dye-sensor" one. *)
Lemma missing_param1_keeps_env_dye_note :
  ∃ d, generate_table [] Sample.csv_unknown_modifier = Some (Ok [d]) ∧
    organ_type_id d = 22 ∧ organ_type_id d ∈ PARAM1_GAIN_IDS ∧
    promoter_param1 d = VNone ∧ modifier_param1 d = VNone ∧
    combined_param1 d = VNone ∧ gain_abs d = VNone ∧ polarity d = VNone ∧
    notes d = ENV_DYE_NOTE ∧ notes d ≠ NON_PARAM1_NOTE.
Proof.
  eexists. split; [vm_compute; reflexivity|]. cbn [organ_type_id
    promoter_param1 modifier_param1 combined_param1 gain_abs polarity notes].
  split_and!; [reflexivity|by left|reflexivity..|apply note_distinct].
Qed.

(** C3.  For a CSV row and a promoter column whose organ name
    classifies to an organ type of the allow-list, with the promoter's
    and the modifier's param1 both found among the records of indices
    0 to 19, the output row has [combined = p + m],
    [gain_abs = abs(combined)] and [polarity] 1 when [combined >= 0]
    and -1 otherwise. *)
Theorem derived_gain_and_polarity (lines : list string) (csv : list csv_row)
    (table : pydict Param1Entry) (rows : list row) (r : csv_row)
    (mi : Z) (mc col pcode kind : string) (id : Z) (p m : spec_float) :
  parse_shared_wgsl_param1 lines = Some (Ok table) →
  generate_table lines csv = Some (Ok rows) →
  r ∈ csv → modifier_cells r = Ok (mi, mc) → (col, pcode) ∈ promoters →
  _sensor_kind_from_name (cell_or_blank r col) = Some kind →
  SENSOR_NAME_TO_TYPE_ID !! kind = Some id →
  id ∈ PARAM1_GAIN_IDS →
  amino_param1_by_code table !! pcode = Some p →
  amino_param1_by_code table !! mc = Some m →
  (∃ d, d ∈ rows ∧
     sensor_kind d = kind ∧ organ_type_id d = id ∧ promoter_code d = pcode ∧
     modifier_index d = VInt mi ∧ modifier_code d = mc ∧
     promoter_param1 d = VFloat p ∧ modifier_param1 d = VFloat m ∧
     combined_param1 d = VFloat (float_add p m) ∧
     gain_abs d = VFloat (float_abs (float_add p m)) ∧
     polarity d = VInt (if float_ge0 (float_add p m) then 1 else -1) ∧
     notes d = ENV_DYE_NOTE)
  ∧ (∃ e, e ∈ dict_values table ∧ code e = pcode ∧ 0 ≤ idx e ≤ 19 ∧
          param1 e = p)
  ∧ (∃ e, e ∈ dict_values table ∧ code e = mc ∧ 0 ≤ idx e ≤ 19 ∧
          param1 e = m).
Proof.
  intros Hparse (table' & Hparse' & Hrows)%generate_table_Ok Hr Hmod Hpc Hk Hid
    Hin Hp Hm.
  rewrite Hparse in Hparse'. injection Hparse' as <-.
  split_and!; [|by apply amino_lookup..].
  destruct (classified_row_in_output _ _ _ _ _ _ _ _ _ _ Hrows Hr Hmod Hpc Hk Hid)
    as (d & Hd & ? & ? & ? & Hpp & ? & ? & Hmp & Hnote & Hder).
  apply uses_param1_gain_spec in Hin. rewrite Hin, Hp, Hm in *.
  injection Hder as ? ? ?. exists d. split_and!; done.
Qed.

Lemma derived_gain_and_polarity_witness :
  ∃ d, d ∈ [ {| sensor_kind := "Alpha Sensor"; organ_type_id := 22;
                promoter_code := "V";
                promoter_param1 :=
                  VFloat (S754_finite true 8286623314361713 (-55));
                modifier_index := VInt 5; modifier_code := "H";
                modifier_param1 :=
                  VFloat (S754_finite false 7205759403792794 (-56));
                combined_param1 :=
                  VFloat (S754_finite true 4683743612465316 (-55));
                gain_abs := VFloat (S754_finite false 4683743612465316 (-55));
                polarity := VInt (-1);
                notes := ENV_DYE_NOTE |};
              energy_row ] ∧
    combined_param1 d = VFloat (S754_finite true 4683743612465316 (-55)) ∧
    gain_abs d = VFloat (S754_finite false 4683743612465316 (-55)) ∧
    polarity d = VInt (-1).
Proof.
  edestruct (derived_gain_and_polarity Sample.shader
               [ Sample.csv_row_of
                   [ ("Modifier", "5"); ("Modifier_AA", "H");
                     ("V_Valine", "Alpha Sensor") ] ])
    as ((d & Hd & _ & _ & _ & _ & _ & _ & _ & Hc & Hg & Hp & _) & _).
  - vm_compute. reflexivity.
  - vm_compute. reflexivity.
  - by left.
  - vm_compute. reflexivity.
  - by left.
  - vm_compute. reflexivity.
  - vm_compute. reflexivity.
  - by left.
  - vm_compute. reflexivity.
  - vm_compute. reflexivity.
  - exists d. split; [exact Hd|]. split_and!; [exact Hc|exact Hg|exact Hp].
Defined.

(** ** The sort and the count *)

(** With every integer modifier index below the sentinel 999, the sort
    puts a row without an integer index after the rows of its group
    that have one. *)
Lemma sort_rows_sentinel l :
  (∀ d z, d ∈ l → modifier_index d = VInt z → z < 999) →
  ∀ i j a b, sort_rows l !! i = Some a → sort_rows l !! j = Some b →
    same_group a b → int_index a = false → int_index b = true → (j < i)%nat.
Proof.
  intros Hlt i j a b Hi Hj [Hk Hc] Ha Hb.
  destruct (Nat.lt_trichotomy j i) as [|[->|Hij]]; [done| |].
  - rewrite Hi in Hj. injection Hj as ->. congruence.
  - pose proof (strongly_sorted_lookup row_le _ (sort_rows_sorted l)
                  i j a b Hij Hi Hj) as Hle.
    unfold row_le, key_leb, key_compare, sort_key in Hle. simpl in Hle.
    rewrite Hk, Hc, !string_compare_refl in Hle.
    unfold int_index in Ha, Hb.
    destruct (modifier_index b) as [| |z|] eqn:Hz; try done.
    assert (z < 999) as Hz'.
    { apply (Hlt b); [|done]. rewrite <- (sort_rows_perm l).
      by eapply list_elem_of_lookup_2. }
    assert ((999 ?= z) = Gt) as Hgt by by apply Z.compare_gt_iff.
    destruct (modifier_index a); try done; by rewrite Hgt in Hle.
Qed.

(** C6.  The output of the generator is in ascending order of the
    triple (sensor kind, promoter code, modifier index as an integer,
    999 standing for an index that is not one), and within every group
    of rows of the same sensor kind and promoter code a row whose index
    is not an integer comes after every row whose index is one.  The
    sort gives the latter to any rows whose integer indices are below
    999. *)
Theorem output_sorted (lines : list string) (csv : list csv_row)
    (rows : list row) :
  generate_table lines csv = Some (Ok rows) →
  (∀ i j a b, (i < j)%nat → rows !! i = Some a → rows !! j = Some b →
     key_leb (sort_key a) (sort_key b) = true)
  ∧ (∀ i j a b, rows !! i = Some a → rows !! j = Some b →
       same_group a b → int_index a = false → int_index b = true →
       (j < i)%nat)
  ∧ (∀ l, (∀ d z, d ∈ l → modifier_index d = VInt z → z < 999) →
       ∀ i j a b, sort_rows l !! i = Some a → sort_rows l !! j = Some b →
         same_group a b → int_index a = false → int_index b = true →
         (j < i)%nat).
Proof.
  intros (table & Hparse & Hrows)%generate_table_Ok. split_and!.
  - pose proof Hrows as (rss & _ & ->)%generate_rows_Ok.
    apply (strongly_sorted_lookup row_le), sort_rows_sorted.
  - intros i j a b Hi Hj [_ Hc] Ha Hb. exfalso.
    apply list_elem_of_lookup_2 in Hi, Hj.
    destruct (generate_rows_elem _ _ _ _ Hrows Hi)
      as [[_ ->]|(r & mi & mc & pc & _ & _ & Hpc & Hrow)].
    + destruct (generate_rows_elem _ _ _ _ Hrows Hj)
        as [[_ ->]|(r & mi & mc & pc & _ & _ & Hpc & Hrow)]; [done|].
      destruct (promoter_row_not_synthetic _ _ _ _ _ _ Hpc Hrow) as (_ & _ & Hne).
      rewrite <- Hc in Hne. done.
    + destruct (promoter_row_not_synthetic _ _ _ _ _ _ Hpc Hrow) as (_ & Hint & _).
      congruence.
  - apply sort_rows_sentinel.
Qed.

Lemma output_sorted_witness :
  key_leb ("Agent Alpha Sensor", "Q", 5) ("Alpha Sensor", "V", 5) = true.
Proof.
  edestruct (output_sorted Sample.shader Sample.csv) as (H & _).
  - vm_compute. reflexivity.
  - exact (H 0%nat 1%nat _ _ ltac:(lia) eq_refl eq_refl).
Defined.

Lemma joined_rows_length amino csv rss :
  mapM_result (csv_row_rows amino) csv = Ok rss →
  length (concat rss) = classified_pairs csv.
Proof.
  rewrite mapM_result_Ok. unfold classified_pairs.
  induction 1 as [|r rs csv rss Hr _ IH]; [done|].
  cbn [concat fmap list_fmap sum_list sum_list_with].
  rewrite length_app. unfold fmap in IH. rewrite IH. f_equal.
  apply csv_row_rows_Ok in Hr as (mi & mc & ds & _ & Hds & ->).
  by eapply promoter_rows_length.
Qed.

(** C7.  The table has one row for every pair of a CSV row and a
    promoter column whose organ name classifies, and one more when the
    synthetic row is appended; the other pairs add nothing. *)
Theorem output_row_count (lines : list string) (csv : list csv_row)
    (table : pydict Param1Entry) (rows : list row) :
  parse_shared_wgsl_param1 lines = Some (Ok table) →
  generate_table lines csv = Some (Ok rows) →
  length rows
  = (classified_pairs csv + if dict_mem 24 table then 1 else 0)%nat.
Proof.
  intros Hparse (table' & Hparse' & Hrows)%generate_table_Ok.
  rewrite Hparse in Hparse'. injection Hparse' as <-.
  apply generate_rows_Ok in Hrows as (rss & Hrss & ->).
  rewrite sort_rows_perm, length_app, (joined_rows_length _ _ _ Hrss).
  by destruct (dict_mem 24 table).
Qed.

Lemma output_row_count_witness :
  ∃ rows, generate_table Sample.shader Sample.csv = Some (Ok rows) ∧
          length rows = (classified_pairs Sample.csv + 1)%nat.
Proof.
  eexists. split; [vm_compute; reflexivity|].
  exact (output_row_count Sample.shader Sample.csv _ _
           ltac:(vm_compute; reflexivity) ltac:(vm_compute; reflexivity)).
Defined.

(** ** Cells of the CSV rows *)

Lemma lstrip_all_spaces s : all_chars is_space s = true → lstrip s = "".
Proof.
  induction s as [|a s IH]; [done|]. simpl.
  intros [-> ?]%andb_true_iff. auto.
Qed.

Lemma strip_all_spaces s : all_chars is_space s = true → strip s = "".
Proof. intros H. unfold strip. by rewrite lstrip_all_spaces. Qed.

Lemma blank_cell_blank r col : blank_cell r col → cell_or_blank r col = "".
Proof.
  unfold cell_or_blank. intros [->|[->|(s & -> & Hs)]]; [done..|].
  simpl. by apply strip_all_spaces.
Qed.

Lemma blank_not_classified : _sensor_kind_from_name "" = None.
Proof. vm_compute. reflexivity. Qed.

Lemma generate_rows_total table csv :
  (∀ r, r ∈ csv → ∃ x, modifier_cells r = Ok x) →
  ∃ rows, generate_rows table csv = Ok rows.
Proof.
  intros Hcsv.
  destruct (mapM_result_total (csv_row_rows (amino_param1_by_code table)) csv)
    as [rss Hrss].
  { intros r [[mi mc] Hx]%Hcsv.
    destruct (promoter_rows_total (amino_param1_by_code table) r mi mc promoters)
      as [ds Hds].
    exists (omap id ds). apply csv_row_rows_Ok. by exists mi, mc, ds. }
  eexists. apply generate_rows_Ok. eauto.
Qed.

Lemma promoter_rows_blank amino r mi mc pcs :
  (∀ pc, pc ∈ pcs → blank_cell r pc.1) →
  mapM_result (promoter_row amino r mi mc) pcs = Ok (replicate (length pcs) None).
Proof.
  induction pcs as [|[col code] pcs IH]; intros Hb; [done|].
  cbn [mapM_result length replicate].
  rewrite promoter_row_None.
  2:{ rewrite (blank_cell_blank r col); [apply blank_not_classified|].
      apply (Hb (col, code)). by left. }
  cbn [bind]. rewrite IH; [done|]. intros pc Hpc. apply Hb. by right.
Qed.

Lemma omap_replicate_None {A} n : omap id (replicate n (@None A)) = [].
Proof. induction n; [done|]. simpl. done. Qed.

(** C9.  A promoter column that the row lacks, or whose cell comes from
    the reader's filler, is empty or holds white space only, is passed
    over like a name that does not classify: no exception, no row.  The
    run succeeds whatever the promoter columns are, as long as the
    modifier cells of every row can be read; with every promoter cell
    blank the output is the synthetic row alone, or nothing. *)
Theorem blank_promoter_cells_skipped (lines : list string) (csv : list csv_row)
    (table : pydict Param1Entry) :
  parse_shared_wgsl_param1 lines = Some (Ok table) →
  (∀ r, r ∈ csv → ∃ x, modifier_cells r = Ok x) →
  (∀ amino r mi mc col code,
     blank_cell r col →
     promoter_row amino r mi mc (col, code) = Ok None ∧
     classified r (col, code) = false)
  ∧ (∃ rows, generate_table lines csv = Some (Ok rows))
  ∧ ((∀ r pc, r ∈ csv → pc ∈ promoters → blank_cell r pc.1) →
     generate_table lines csv
     = Some (Ok (if dict_mem 24 table then [energy_row] else []))).
Proof.
  intros Hparse Hcsv. split_and!.
  - intros amino r mi mc col code Hb.
    assert (_sensor_kind_from_name (cell_or_blank r col) = None) as Hn.
    { rewrite (blank_cell_blank r col Hb). apply blank_not_classified. }
    split; [by apply promoter_row_None|by apply classified_false].
  - destruct (generate_rows_total table csv Hcsv) as [rows Hrows].
    exists rows. apply generate_table_Ok. eauto.
  - intros Hblank. apply generate_table_Ok. exists table. split; [done|].
    apply generate_rows_Ok.
    exists (replicate (length csv) []). split.
    + apply mapM_result_Ok.
      assert (∀ r, r ∈ csv →
                csv_row_rows (amino_param1_by_code table) r = Ok []) as Hrow.
      { intros r Hr. destruct (Hcsv r Hr) as [[mi mc] Hmod].
        apply csv_row_rows_Ok. exists mi, mc, (replicate (length promoters) None).
        split_and!; [done| |by rewrite omap_replicate_None].
        apply promoter_rows_blank. intros pc Hpc. by apply Hblank. }
      clear -Hrow. induction csv as [|r csv IH]; [constructor|].
      simpl. constructor; [apply Hrow; by left|].
      apply IH. intros r' Hr'. apply Hrow. by right.
    + assert (concat (replicate (length csv) (@nil row)) = []) as ->.
      { induction (length csv); [done|]. done. }
      by destruct (dict_mem 24 table).
Qed.

Lemma blank_promoter_cells_skipped_witness :
  generate_table Sample.shader Sample.csv_no_promoters
  = Some (Ok [energy_row]).
Proof.
  edestruct (blank_promoter_cells_skipped Sample.shader Sample.csv_no_promoters)
    as (_ & _ & H).
  - vm_compute. reflexivity.
  - intros r Hr. apply list_elem_of_singleton in Hr as ->.
    eexists. vm_compute. reflexivity.
  - apply H. intros r pc Hr Hpc. apply list_elem_of_singleton in Hr as ->.
    left. unfold promoters in Hpc.
    repeat (apply elem_of_cons in Hpc as [->|Hpc]; [vm_compute; reflexivity|]).
    exfalso. by apply elem_of_nil in Hpc.
Defined.

Lemma bad_modifier_raises r :
  bad_modifier r ↔ ∃ e, modifier_cells r = Raise e.
Proof.
  unfold bad_modifier, modifier_cells, cell_strip, int_of.
  destruct (r !! "Modifier") as [[s|]|] eqn:Hm; cbn [bind].
  - destruct (py_int (strip s)) as [z|] eqn:Hz; cbn [bind].
    + destruct (r !! "Modifier_AA") as [[c|]|] eqn:Ha; cbn [bind].
      * split; [|by intros [? [=]]].
        intros [?|[?|[(s' & [= <-] & ?)|[?|?]]]]; congruence.
      * split; eauto.
      * split; eauto.
    + split; eauto 10.
  - split; eauto.
  - split; eauto.
Qed.

Lemma mapM_result_Raise_some {A B} (f : A → result B) l x e :
  x ∈ l → f x = Raise e → ∃ e', mapM_result f l = Raise e'.
Proof.
  induction l as [|y l IH]; intros Hx He; [by apply elem_of_nil in Hx|].
  simpl. destruct (f y) as [b|e0] eqn:Hy; cbn [bind]; [|eauto].
  apply elem_of_cons in Hx as [->|Hx]; [congruence|].
  destruct (IH Hx He) as [e' ->]. cbn [bind]. eauto.
Qed.

(** C10.  A row whose [Modifier] or [Modifier_AA] column is missing or
    filled in by the reader, or whose [Modifier] cell [int] refuses, ends
    the run with an exception, whatever its promoter cells hold: the
    exception is decided by the modifier cells alone, and it is the one
    the run ends with when the shader table parses and the rows before
    can be read. *)
Theorem bad_modifier_aborts (lines : list string) (csv : list csv_row)
    (r : csv_row) :
  r ∈ csv → bad_modifier r →
  (∃ e, generate_table lines csv = Some (Raise e))
  ∧ (∃ e, modifier_cells r = Raise e ∧
       (∀ amino, csv_row_rows amino r = Raise e) ∧
       ∀ table pre post,
         parse_shared_wgsl_param1 lines = Some (Ok table) →
         csv = (pre ++ r :: post)%list →
         (∀ r', r' ∈ pre → ∃ x, modifier_cells r' = Ok x) →
         generate_table lines csv = Some (Raise e)).
Proof.
  intros Hr [e He]%bad_modifier_raises. split.
  - unfold generate_table.
    destruct (parse_total lines) as [[table|e0] ->]; simpl; [|eauto].
    unfold generate_rows.
    destruct (mapM_result_Raise_some
                (csv_row_rows (amino_param1_by_code table)) csv r e Hr)
      as [e' ->]; [by apply csv_row_rows_Raise|]. cbn [bind]. eauto.
  - exists e. split_and!; [done|by intros; apply csv_row_rows_Raise|].
    intros table pre post Hparse -> Hpre. unfold generate_table.
    rewrite Hparse. simpl. unfold generate_rows.
    rewrite (mapM_result_Raise _ _ (length pre) r e); [done| | |].
    + by rewrite list_lookup_middle.
    + by apply csv_row_rows_Raise.
    + intros k r' Hk Hr'. rewrite lookup_app_l in Hr' by done.
      apply list_elem_of_lookup_2 in Hr'.
      destruct (Hpre r' Hr') as [[mi mc] Hmod].
      destruct (promoter_rows_total (amino_param1_by_code table) r' mi mc
                  promoters) as [ds Hds].
      exists (omap id ds). apply csv_row_rows_Ok. by exists mi, mc, ds.
Qed.

Lemma bad_modifier_aborts_witness :
  ∃ e, generate_table Sample.shader Sample.csv_bad_modifier = Some (Raise e).
Proof.
  edestruct (bad_modifier_aborts Sample.shader Sample.csv_bad_modifier)
    as (H & _).
  - by left.
  - right. right. left. exists "5.0". split; vm_compute; reflexivity.
  - exact H.
Defined.
(** * Further properties *)

(** ** The sort *)

Lemma key_leb_antisym a b :
  key_leb a b = true → key_leb b a = true → a = b.
Proof.
  unfold key_leb. intros Hab Hba. apply key_compare_eq.
  rewrite (key_compare_antisym a b) in Hba.
  destruct (key_compare a b); simpl in *; done.
Qed.

Lemma with_key_cons k d l :
  with_key k (d :: l) = if decide (sort_key d = k) then d :: with_key k l
                        else with_key k l.
Proof. unfold with_key. by rewrite filter_cons. Qed.

Lemma with_key_elem k d l : d ∈ with_key k l ↔ sort_key d = k ∧ d ∈ l.
Proof. unfold with_key. by rewrite list_elem_of_filter. Qed.

(** Two sorted lists with the same rows under every key, in the same
    order, are equal. *)
Lemma sorted_stable_unique (l1 : list row) : ∀ l2,
  StronglySorted row_le l1 → StronglySorted row_le l2 →
  (∀ k, with_key k l1 = with_key k l2) → l1 = l2.
Proof.
  induction l1 as [|x l1 IH]; intros [|y l2] H1 H2 Hk; [done| | |].
  - specialize (Hk (sort_key y)). rewrite with_key_cons in Hk.
    by rewrite decide_True in Hk.
  - specialize (Hk (sort_key x)). rewrite with_key_cons in Hk.
    by rewrite decide_True in Hk.
  - apply StronglySorted_inv in H1 as [H1 Hx].
    apply StronglySorted_inv in H2 as [H2 Hy].
    assert (sort_key x = sort_key y) as Hxy.
    { destruct (decide (sort_key x = sort_key y)) as [|Hne]; [done|].
      apply key_leb_antisym.
      - assert (y ∈ with_key (sort_key y) (x :: l1)) as Hin.
        { rewrite Hk, with_key_cons, decide_True by done. left. }
        apply with_key_elem in Hin as [_ Hin].
        apply elem_of_cons in Hin as [->|Hin]; [done|].
        rewrite Forall_forall in Hx. by apply Hx.
      - assert (x ∈ with_key (sort_key x) (y :: l2)) as Hin.
        { rewrite <- Hk, with_key_cons, decide_True by done. left. }
        apply with_key_elem in Hin as [_ Hin].
        apply elem_of_cons in Hin as [->|Hin]; [done|].
        rewrite Forall_forall in Hy. by apply Hy. }
    assert (x = y) as ->.
    { specialize (Hk (sort_key x)). rewrite !with_key_cons in Hk.
      rewrite decide_True in Hk by done.
      rewrite decide_True in Hk by (by symmetry). congruence. }
    f_equal. apply IH; [done..|]. intros k. specialize (Hk k).
    rewrite !with_key_cons in Hk. destruct (decide (sort_key y = k)); [|done].
    congruence.
Qed.

(** X1.  [rows.sort(key=sort_key)] is a stable sort: its result has the
    rows of the list, is ordered by the key, keeps the rows of equal key
    in the order they had, and is the only list that is ordered by the
    key and keeps, under every key, the rows of the list in their
    order. *)
Theorem sort_rows_is_the_stable_sort (l : list row) :
  sort_rows l ≡ₚ l
  ∧ StronglySorted row_le (sort_rows l)
  ∧ (∀ k, with_key k (sort_rows l) = with_key k l)
  ∧ ∀ l', StronglySorted row_le l' →
          (∀ k, with_key k l' = with_key k l) → l' = sort_rows l.
Proof.
  split_and!.
  - apply sort_rows_perm.
  - apply sort_rows_sorted.
  - intros k. apply sort_rows_stable.
  - intros l' Hs Hk. apply sorted_stable_unique; [done|apply sort_rows_sorted|].
    intros k. rewrite Hk. symmetry. apply sort_rows_stable.
Qed.

(** ** The rows of the output *)

Lemma sensor_ids k id :
  SENSOR_NAME_TO_TYPE_ID !! k = Some id → 22 ≤ id ≤ 41.
Proof.
  unfold SENSOR_NAME_TO_TYPE_ID. intros H%elem_of_list_to_map_2.
  repeat (apply elem_of_cons in H as [[= -> ->]|H]; [lia|]).
  by apply elem_of_nil in H.
Qed.

Lemma promoter_codes pc :
  pc ∈ promoters → pc.2 ∈ ["V"; "M"; "H"; "Q"].
Proof.
  unfold promoters. intros H.
  repeat (apply elem_of_cons in H as [->|H]; [set_solver|]).
  by apply elem_of_nil in H.
Qed.

(** A row appended by the promoter loop is a function of its kind, its
    two codes, its modifier index and the param1 by code. *)
Lemma promoter_row_fields amino r mi mc pc d :
  promoter_row amino r mi mc pc = Ok (Some d) →
  SENSOR_NAME_TO_TYPE_ID !! sensor_kind d = Some (organ_type_id d) ∧
  sensor_kind d = cell_or_blank r pc.1 ∧
  promoter_code d = pc.2 ∧ modifier_index d = VInt mi ∧ modifier_code d = mc ∧
  promoter_param1 d = opt_float (amino !! promoter_code d) ∧
  modifier_param1 d = opt_float (amino !! modifier_code d) ∧
  notes d = (if uses_param1_gain (organ_type_id d)
             then ENV_DYE_NOTE else NON_PARAM1_NOTE) ∧
  (combined_param1 d, gain_abs d, polarity d)
  = match uses_param1_gain (organ_type_id d),
          amino !! promoter_code d, amino !! modifier_code d with
    | true, Some p, Some m =>
        (VFloat (float_add p m), VFloat (float_abs (float_add p m)),
         VInt (if float_ge0 (float_add p m) then 1 else -1))
    | _, _, _ => (VNone, VNone, VNone)
    end.
Proof.
  destruct pc as [col pcode]. unfold promoter_row.
  destruct (_sensor_kind_from_name _) as [kind|] eqn:Hk; [|done].
  apply sensor_kind_Some in Hk as [-> _].
  destruct (SENSOR_NAME_TO_TYPE_ID !! _) as [id|] eqn:Hid; [|done].
  intros [= <-]. cbn [sensor_kind organ_type_id promoter_code modifier_index
    modifier_code promoter_param1 modifier_param1 notes combined_param1
    gain_abs polarity fst snd].
  split_and!; try done.
  by destruct (uses_param1_gain id), (amino !! pcode), (amino !! mc).
Qed.

(** X2.  Every row of the output names one of the sensor kinds of
    [SENSOR_NAME_TO_TYPE_ID], with the organ type of that kind, which
    lies between 22 and 41.  A row other than the synthetic one carries
    one of the four promoter codes and an integer modifier index, and all
    its other fields are functions of its kind, its two codes and the
    parsed table: the two param1 are those found by code among the
    amino-acid records, the note is the one its organ type decides, and
    combined, gain and polarity are derived exactly when the organ type
    is in the allow-list and both param1 were found. *)
Theorem output_row_fields (lines : list string) (csv : list csv_row)
    (table : pydict Param1Entry) (rows : list row) (d : row) :
  parse_shared_wgsl_param1 lines = Some (Ok table) →
  generate_table lines csv = Some (Ok rows) → d ∈ rows →
  SENSOR_NAME_TO_TYPE_ID !! sensor_kind d = Some (organ_type_id d)
  ∧ 22 ≤ organ_type_id d ≤ 41
  ∧ (d = energy_row
     ∨ (promoter_code d ∈ ["V"; "M"; "H"; "Q"]
        ∧ (∃ i, modifier_index d = VInt i)
        ∧ promoter_param1 d
          = opt_float (amino_param1_by_code table !! promoter_code d)
        ∧ modifier_param1 d
          = opt_float (amino_param1_by_code table !! modifier_code d)
        ∧ notes d = (if uses_param1_gain (organ_type_id d)
                     then ENV_DYE_NOTE else NON_PARAM1_NOTE)
        ∧ (combined_param1 d, gain_abs d, polarity d)
          = match uses_param1_gain (organ_type_id d),
                  amino_param1_by_code table !! promoter_code d,
                  amino_param1_by_code table !! modifier_code d with
            | true, Some p, Some m =>
                (VFloat (float_add p m), VFloat (float_abs (float_add p m)),
                 VInt (if float_ge0 (float_add p m) then 1 else -1))
            | _, _, _ => (VNone, VNone, VNone)
            end)).
Proof.
  intros Hparse (table' & Hparse' & Hrows)%generate_table_Ok Hd.
  rewrite Hparse in Hparse'. injection Hparse' as <-.
  destruct (generate_rows_elem _ _ _ _ Hrows Hd)
    as [[_ ->]|(r & mi & mc & pc & _ & _ & Hpc & Hrow)].
  - split_and!; [by vm_compute|by vm_compute..|by left].
  - apply promoter_row_fields in Hrow
      as (Hid & _ & Hcode & Hmi & _ & Hp & Hm & Hnote & Hder).
    split_and!; [done|by eapply sensor_ids..|].
    right. split_and!; try done.
    + rewrite Hcode. by apply promoter_codes.
    + by exists mi.
Qed.

Lemma output_row_fields_witness :
  SENSOR_NAME_TO_TYPE_ID !! "Agent Alpha Sensor" = Some 34.
Proof.
  edestruct (output_row_fields Sample.shader Sample.csv) as (H & _).
  - vm_compute. reflexivity.
  - vm_compute. reflexivity.
  - apply (list_elem_of_lookup_2 _ 0). vm_compute. reflexivity.
  - exact H.
Defined.

Lemma string_compare_opp s t : String.compare t s = CompOpp (String.compare s t).
Proof. apply String.compare_antisym. Qed.

Lemma compare_empty_r s : is_empty s = false → String.compare s "" = Gt.
Proof. by destruct s. Qed.

(** X3.  The synthetic row is the first row of its kind: every row
    before it is of a kind that sorts before "Energy Sensor", and every
    row after it is another row, of that kind or of one that sorts after
    it.  The sentinel 999 of its key plays no part in its place, which
    its empty promoter code decides. *)
Theorem synthetic_row_leads_its_kind (lines : list string)
    (csv : list csv_row) (rows : list row) :
  generate_table lines csv = Some (Ok rows) → energy_row ∈ rows →
  ∃ before after, rows = (before ++ energy_row :: after)%list
    ∧ (∀ d, d ∈ before →
         String.compare (sensor_kind d) "Energy Sensor" = Lt)
    ∧ (∀ d, d ∈ after →
         d ≠ energy_row ∧
         String.compare (sensor_kind d) "Energy Sensor" ≠ Lt).
Proof.
  intros (table & Hparse & Hrows)%generate_table_Ok Hin.
  pose proof Hrows as (rss & Hrss & Heq)%generate_rows_Ok.
  assert (StronglySorted row_le rows) as Hsorted
    by (rewrite Heq; apply sort_rows_sorted).
  assert (length (filter (λ d, synthetic d = true) rows) ≤ 1)%nat as Hone.
  { rewrite Heq, sort_rows_perm, filter_app, length_app.
    rewrite (joined_rows_not_synthetic _ _ _ Hrss).
    destruct (dict_mem 24 table); simpl; lia. }
  assert (∀ d, d ∈ rows → d ≠ energy_row →
            is_empty (promoter_code d) = false) as Hcsv.
  { intros d Hd Hne.
    destruct (generate_rows_elem _ _ _ _ Hrows Hd)
      as [[_ ->]|(r & mi & mc & pc & _ & _ & Hpc & Hrow)]; [done|].
    by destruct (promoter_row_not_synthetic _ _ _ _ _ _ Hpc Hrow)
      as (_ & _ & ?). }
  apply list_elem_of_split in Hin as (before & after & ->).
  exists before, after. split; [done|].
  rewrite filter_app, length_app, filter_cons_True in Hone by done.
  cbn [length] in Hone.
  assert (∀ d, d ∈ before ∨ d ∈ after → d ≠ energy_row) as Hne.
  { intros d Hd ->. destruct Hd as [Hd|Hd].
    - assert (energy_row ∈ filter (λ d, synthetic d = true) before) as Hf
        by (by apply list_elem_of_filter).
      destruct (filter _ before); [by apply elem_of_nil in Hf|].
      cbn [length] in Hone. lia.
    - assert (energy_row ∈ filter (λ d, synthetic d = true) after) as Hf
        by (by apply list_elem_of_filter).
      destruct (filter _ after); [by apply elem_of_nil in Hf|].
      cbn [length] in Hone. lia. }
  assert (rows_at : (before ++ energy_row :: after)%list !! length before
                    = Some energy_row) by (by apply list_lookup_middle).
  split.
  - intros d Hd.
    assert (row_le d energy_row) as Hle.
    { apply list_elem_of_lookup in Hd as [i Hi].
      apply (strongly_sorted_lookup _ _ Hsorted i (length before));
        [by eapply lookup_lt_Some| |done].
      rewrite lookup_app_l by (by eapply lookup_lt_Some). exact Hi. }
    assert (is_empty (promoter_code d) = false) as Hpc.
    { apply Hcsv; [|apply Hne; by left]. apply elem_of_app. by left. }
    unfold row_le, key_leb, key_compare, sort_key in Hle.
    cbn [fst snd sensor_kind promoter_code energy_row] in Hle.
    destruct (String.compare (sensor_kind d) "Energy Sensor"); [|done..].
    by rewrite (compare_empty_r _ Hpc) in Hle.
  - intros d Hd. split; [apply Hne; by right|].
    assert (row_le energy_row d) as Hle.
    { apply list_elem_of_lookup in Hd as [j Hj].
      apply (strongly_sorted_lookup _ _ Hsorted (length before)
               (length before + S j)); [lia|done|].
      rewrite lookup_app_r by lia.
      replace (length before + S j - length before)%nat with (S j) by lia.
      exact Hj. }
    unfold row_le, key_leb, key_compare, sort_key in Hle.
    cbn [fst snd sensor_kind promoter_code energy_row] in Hle.
    rewrite (string_compare_opp "Energy Sensor" (sensor_kind d)).
    by destruct (String.compare "Energy Sensor" (sensor_kind d)).
Qed.

Lemma synthetic_row_leads_its_kind_witness :
  ∃ before after,
    [ {| sensor_kind := "Agent Alpha Sensor"; organ_type_id := 34;
         promoter_code := "Q";
         promoter_param1 := VNone; modifier_index := VInt 5;
         modifier_code := "H";
         modifier_param1 := VFloat (S754_finite false 7205759403792794 (-56));
         combined_param1 := VNone; gain_abs := VNone; polarity := VNone;
         notes := NON_PARAM1_NOTE |};
      energy_row;
      {| sensor_kind := "Energy Sensor"; organ_type_id := 24;
         promoter_code := "V";
         promoter_param1 := VFloat (S754_finite true 8286623314361713 (-55));
         modifier_index := VInt 5; modifier_code := "H";
         modifier_param1 := VFloat (S754_finite false 7205759403792794 (-56));
         combined_param1 := VNone; gain_abs := VNone; polarity := VNone;
         notes := NON_PARAM1_NOTE |} ]
    = (before ++ energy_row :: after)%list
    ∧ (∀ d, d ∈ before →
         String.compare (sensor_kind d) "Energy Sensor" = Lt)
    ∧ (∀ d, d ∈ after →
         d ≠ energy_row ∧
         String.compare (sensor_kind d) "Energy Sensor" ≠ Lt).
Proof.
  apply (synthetic_row_leads_its_kind Sample.shader Tables.csv_leading).
  - vm_compute. reflexivity.
  - apply (list_elem_of_lookup_2 _ 1). vm_compute. reflexivity.
Defined.

(** ** What the join reads of the organ table *)

Lemma mapM_result_ext {A A' B} (f : A → result B) (g : A' → result B) l l' :
  Forall2 (λ a b, f a = g b) l l' → mapM_result f l = mapM_result g l'.
Proof. induction 1 as [|a b l l' Hab _ IH]; [done|]. simpl. by rewrite Hab, IH. Qed.

Lemma lstrip_idem s : lstrip (lstrip s) = lstrip s.
Proof.
  induction s as [|a s IH]; [done|]. simpl.
  destruct (is_space a) eqn:Ha; [done|]. simpl. by rewrite Ha.
Qed.

Lemma rstrip_idem s : rstrip (rstrip s) = rstrip s.
Proof.
  induction s as [|a s IH]; [done|]. simpl.
  destruct (is_space a && is_empty (rstrip s)) eqn:Ha; [done|].
  simpl. by rewrite IH, Ha.
Qed.

Lemma rstrip_head s :
  head_is (λ a, negb (is_space a)) s → head_is (λ a, negb (is_space a)) (rstrip s).
Proof.
  destruct s as [|a s]; [done|]. simpl. intros Ha.
  apply negb_true_iff in Ha. rewrite Ha. simpl. by rewrite Ha.
Qed.

Lemma lstrip_head_is s : head_is (λ a, negb (is_space a)) (lstrip s).
Proof.
  induction s as [|a s IH]; [done|]. simpl.
  destruct (is_space a) eqn:Ha; [done|]. simpl. by rewrite Ha.
Qed.

(** [s.strip().strip() == s.strip()] *)
Lemma strip_idem s : strip (strip s) = strip s.
Proof.
  unfold strip.
  rewrite (lstrip_head (rstrip (lstrip s)))
    by apply rstrip_head, lstrip_head_is.
  apply rstrip_idem.
Qed.

Lemma py_int_strip s : py_int (strip s) = py_int s.
Proof. unfold py_int. by rewrite strip_idem. Qed.

Lemma lookup_strip_eq (r r' : csv_row) col :
  fmap (M := option) strip <$> r !! col = fmap (M := option) strip <$> r' !! col →
  cell_strip r col = cell_strip r' col ∧ cell_or_blank r col = cell_or_blank r' col.
Proof.
  unfold cell_strip, cell_or_blank.
  destruct (r !! col) as [[s|]|], (r' !! col) as [[s'|]|]; simpl; try done.
  intros [= H]. by rewrite H.
Qed.

Lemma csv_row_rows_stripped amino r r' :
  same_stripped_cells r r' → csv_row_rows amino r = csv_row_rows amino r'.
Proof.
  intros H. unfold csv_row_rows.
  destruct (lookup_strip_eq r r' "Modifier") as [-> _];
    [apply H; by left|].
  destruct (lookup_strip_eq r r' "Modifier_AA") as [-> _];
    [apply H; right; by left|].
  destruct (let* s := cell_strip r' "Modifier" in int_of s) as [mi|]; [|done].
  cbn [bind]. destruct (cell_strip r' "Modifier_AA") as [mc|]; [|done].
  cbn [bind].
  rewrite (mapM_result_ext (promoter_row amino r mi mc)
             (promoter_row amino r' mi mc) promoters promoters); [done|].
  apply Forall2_same_length_lookup_2; [done|].
  intros i pc pc' Hpc Hpc'. rewrite Hpc in Hpc'. injection Hpc' as <-.
  destruct pc as [col pcode]. unfold promoter_row.
  destruct (lookup_strip_eq r r' col) as [_ ->]; [|done].
  apply H. right. right. apply list_elem_of_fmap. exists (col, pcode).
  split; [done|]. by eapply list_elem_of_lookup_2.
Qed.

(** X4.  The generator reads six columns of the organ table
    ([Modifier], [Modifier_AA] and the four promoter columns), and every
    cell through [strip()]: two tables whose rows agree on these
    columns, up to white space around the text of a cell, give the same
    result, rows or exception, whatever their other columns hold. *)
Theorem cells_read_stripped (lines : list string) (csv csv' : list csv_row) :
  Forall2 same_stripped_cells csv csv' →
  generate_table lines csv = generate_table lines csv'.
Proof.
  intros H. unfold generate_table.
  destruct (parse_shared_wgsl_param1 lines) as [[table|e]|]; [|done..].
  simpl. f_equal. unfold generate_rows.
  rewrite (mapM_result_ext (csv_row_rows (amino_param1_by_code table))
             (csv_row_rows (amino_param1_by_code table)) csv csv'); [done|].
  eapply Forall2_impl; [exact H|]. intros r r' Hr.
  by apply csv_row_rows_stripped.
Qed.

Lemma cells_read_stripped_witness :
  generate_table Sample.shader Sample.csv
  = generate_table Sample.shader Tables.csv_padded.
Proof.
  apply (cells_read_stripped Sample.shader Sample.csv Tables.csv_padded).
  repeat constructor; intros col Hcol; unfold READ_COLUMNS in Hcol;
    simpl in Hcol;
    repeat (apply elem_of_cons in Hcol as [->|Hcol];
            [vm_compute; reflexivity|]);
    by apply elem_of_nil in Hcol.
Defined.

(** ** Floats read from the shader text *)

Section Rounding.
Variables prec emax : Z.

Lemma shr_1_nonneg mrs : 0 ≤ shr_m mrs → 0 ≤ shr_m (shr_1 mrs).
Proof. destruct mrs as [[|[p|p|]|p] r s]; simpl; lia. Qed.

Lemma iter_pos_shr_1_nonneg n : ∀ mrs,
  0 ≤ shr_m mrs → 0 ≤ shr_m (SpecFloat.iter_pos shr_1 n mrs).
Proof.
  induction n as [n IH|n IH|]; intros mrs H; simpl.
  - by apply IH, IH, shr_1_nonneg.
  - by apply IH, IH.
  - by apply shr_1_nonneg.
Qed.

Lemma shr_fexp_nonneg m e l :
  0 ≤ m → 0 ≤ shr_m (shr_fexp prec emax m e l).1.
Proof.
  intros H. unfold shr_fexp, shr.
  assert (0 ≤ shr_m (shr_record_of_loc m l)) as H0
    by (by destruct l as [|[]]).
  destruct (_ - e); simpl; [done| |done].
  by apply iter_pos_shr_1_nonneg.
Qed.

Lemma round_nearest_even_nonneg m l : 0 ≤ m → 0 ≤ round_nearest_even m l.
Proof.
  intros H. destruct l as [|[]]; simpl; [done| |done|lia].
  destruct (Z.even m); lia.
Qed.

(** Rounding a mantissa that is not negative never gives NaN. *)
Lemma binary_round_aux_not_nan sx mx ex lx :
  0 ≤ mx → binary_round_aux prec emax sx mx ex lx ≠ S754_nan.
Proof.
  intros H. unfold binary_round_aux.
  pose proof (shr_fexp_nonneg mx ex lx H) as H1.
  destruct (shr_fexp prec emax mx ex lx) as [mrs' e']. simpl in H1.
  pose proof (shr_fexp_nonneg _ e' loc_Exact
                (round_nearest_even_nonneg _ (loc_of_shr_record mrs') H1)) as H2.
  destruct (shr_fexp prec emax _ e' loc_Exact) as [mrs'' e'']. simpl in H2.
  destruct (shr_m mrs'') as [|m|m]; [done| |lia].
  by destruct (e'' <=? emax - prec).
Qed.

Lemma binary_normalize_not_nan m e sz :
  binary_normalize prec emax m e sz ≠ S754_nan.
Proof.
  destruct m as [|m|m]; simpl; [done| |]; unfold binary_round;
    destruct (shl_align _ _ _) as [mz ez]; by apply binary_round_aux_not_nan.
Qed.

Lemma SFdiv_core_nonneg m1 e1 m2 e2 :
  0 ≤ m1 → 0 < m2 → 0 ≤ (SFdiv_core_binary prec emax m1 e1 m2 e2).1.1.
Proof.
  intros H1 H2. unfold SFdiv_core_binary.
  set (s := e1 - e2 - _).
  set (m' := match s with Z0 => m1 | Zpos _ => Z.shiftl m1 s | Zneg _ => 0 end).
  assert (0 ≤ m') as Hm'.
  { unfold m'. destruct s; [done| |done]. by apply Z.shiftl_nonneg. }
  pose proof (Z.div_pos m' m2 Hm' H2) as Hq. unfold Z.div in Hq.
  by destruct (Z.div_eucl m' m2) as [q r].
Qed.

(** The sum of two floats is NaN only for a NaN operand or for two
    infinities of opposite signs. *)
Lemma SFadd_nan x y :
  SFadd prec emax x y = S754_nan →
  x = S754_nan ∨ y = S754_nan ∨
  ∃ s, x = S754_infinity s ∧ y = S754_infinity (negb s).
Proof.
  destruct x as [sx|sx| |sx mx ex], y as [sy|sy| |sy my ey]; simpl;
    try (by auto); try (destruct sx, sy; by eauto).
  intros H. by apply binary_normalize_not_nan in H.
Qed.

End Rounding.

Lemma span_fst_all p s : all_chars p (span p s).1 = true.
Proof.
  induction s as [|a s IH]; [done|]. simpl.
  destruct (p a) eqn:Ha; [|done].
  destruct (span p s) as [t u]. simpl in *. by rewrite Ha.
Qed.

Lemma round_decimal_not_nan neg m e : 0 ≤ m → round_decimal neg m e ≠ S754_nan.
Proof.
  intros Hm. unfold round_decimal.
  destruct (m =? 0); [done|].
  destruct (0 <=? e) eqn:He; [apply binary_normalize_not_nan|].
  apply Z.leb_gt in He.
  pose proof (SFdiv_core_nonneg binary64_prec binary64_emax m 0 (10 ^ (- e)) 0 Hm)
    as Hq.
  destruct (SFdiv_core_binary _ _ m 0 (10 ^ (- e)) 0) as [[q e'] l].
  apply binary_round_aux_not_nan. apply Hq. apply Z.pow_pos_nonneg; lia.
Qed.

(** [float] of a decimal literal is never NaN. *)
Lemma py_float_not_nan s f : py_float s = Some f → f ≠ S754_nan.
Proof.
  unfold py_float, parse_decimal.
  destruct (split_sign s) as [neg s1].
  pose proof (span_fst_all is_digit s1) as Hip.
  destruct (span is_digit s1) as [ip s2]. simpl in Hip.
  set (sp := match s2 with
             | String a t => if is_char "." a then span is_digit t else ("", s2)
             | EmptyString => ("", s2) end).
  assert (all_chars is_digit sp.1 = true) as Hfp.
  { unfold sp. destruct s2 as [|a t]; [done|].
    destruct (is_char "." a); [apply span_fst_all|done]. }
  destruct sp as [fp s3]. simpl in Hfp.
  destruct (is_empty ip && is_empty fp); [done|].
  destruct (parse_exponent s3) as [x|]; [|done]. simpl.
  intros [= <-]. apply round_decimal_not_nan.
  apply digits_value_nonneg; [|done].
  unfold digits. by rewrite all_chars_app, Hip, Hfp.
Qed.

Lemma parse_component_not_nan p f : parse_component p = Ok f → f ≠ S754_nan.
Proof.
  unfold parse_component. destruct (search _ p) as [m|]; [|done].
  destruct (py_float (m_text m)) as [f'|] eqn:Hf; [|done].
  intros [= <-]. by eapply py_float_not_nan.
Qed.

Lemma float_ge0_cases x :
  float_ge0 x
  = match x with
    | S754_nan => false
    | S754_zero _ => true
    | S754_infinity s | S754_finite s _ _ => negb s
    end.
Proof. by destruct x as [[]|[]| |[] m e]. Qed.

(** ** The Float Extractor and the components of a vector *)

Lemma any_char_split p s :
  any_char p s = true ↔ ∃ pre a post, s = pre ++ String a post ∧ p a = true.
Proof.
  split.
  - induction s as [|a s IH]; [done|]. simpl.
    destruct (p a) eqn:Ha.
    + intros _. by exists "", a, s.
    + intros (pre & b & post & -> & Hb)%IH.
      by exists (String a pre), b, post.
  - intros (pre & a & post & -> & Ha).
    induction pre as [|b pre IH]; [simpl; by rewrite Ha|].
    rewrite app_cons. simpl. rewrite IH. apply orb_true_r.
Qed.

Lemma any_char_app p s t : any_char p (s ++ t) = any_char p s || any_char p t.
Proof.
  induction s as [|a s IH]; [done|].
  rewrite app_cons. simpl. by rewrite IH, orb_assoc.
Qed.

Lemma any_char_all p s : s ≠ "" → all_chars p s = true → any_char p s = true.
Proof. destruct s as [|a s]; [done|]. simpl. by intros _ [-> _]%andb_true_iff. Qed.

(** A fragment contains a numeric literal exactly when it contains a
    digit. *)
Lemma contains_literal_digit p :
  contains_literal p ↔ any_char is_digit p = true.
Proof.
  split.
  - intros (lit & (sg & ip & pt & fp & ex & -> & _ & _ & _ & Hfp & Hne & _)
            & pre & post & ->).
    rewrite !any_char_app. rewrite (any_char_all _ fp Hne Hfp).
    by rewrite !orb_true_r.
  - intros (pre & a & post & -> & Ha)%any_char_split.
    exists (String a ""). split.
    + exists "", "", "", (String a ""), "".
      split_and!; [done|by left|done|by left| |done|by left].
      unfold digits. simpl. by rewrite Ha.
    + by exists pre, post.
Qed.

Lemma split_length sep s :
  length (split sep s) = S (count_char sep s).
Proof.
  induction s as [|a s IH]; [done|]. simpl.
  destruct (Ascii.eqb a sep); simpl; [by rewrite IH|].
  destruct (split sep s) as [|w ws]; simpl in *; [done|lia].
Qed.

Lemma parse_component_digit p :
  (∃ f, parse_component p = Ok f) ↔ any_char is_digit p = true.
Proof.
  rewrite <- contains_literal_digit. split.
  - intros [f Hf]. destruct (contains_literal_dec p) as [|Hn]; [done|].
    rewrite parse_component_no_literal in Hf by done. done.
  - intros (_ & _ & _ & f & _ & _ & _ & Hf & _)%parse_component_literal.
    eauto.
Qed.

Lemma parsed_components g fs :
  _parse_vec4_components g = Ok fs →
  length fs = S (count_char "," g) ∧ ∀ f, f ∈ fs → f ≠ S754_nan.
Proof.
  unfold _parse_vec4_components. intros Hfs. split.
  - rewrite (mapM_result_length _ _ _ Hfs).
    by rewrite length_fmap, split_length.
  - apply mapM_result_Ok in Hfs. intros f Hf.
    apply list_elem_of_lookup in Hf as [i Hi].
    destruct (Forall2_lookup_r _ _ _ _ _ Hfs Hi) as (p & _ & Hp).
    by eapply parse_component_not_nan.
Qed.

(** X5.  The Float Extractor returns a float exactly on the fragments
    that hold a digit, and the float is never NaN.  So
    [_parse_vec4_components] returns a list exactly when every
    comma-separated component of its argument holds a digit; the list
    then has one float per component, that is one more than the
    argument has commas, none of them NaN; otherwise it raises
    [ParseError] with a component that holds no digit. *)
Theorem vec4_components_need_digits (vec4_src : string) :
  ((∃ floats, _parse_vec4_components vec4_src = Ok floats)
   ↔ ∀ p, p ∈ components vec4_src → any_char is_digit p = true)
  ∧ (∀ floats, _parse_vec4_components vec4_src = Ok floats →
       length floats = S (count_char "," vec4_src)
       ∧ ∀ f, f ∈ floats → f ≠ S754_nan)
  ∧ (∀ e, _parse_vec4_components vec4_src = Raise e →
       ∃ p, e = ParseError p ∧ p ∈ components vec4_src
            ∧ any_char is_digit p = false).
Proof.
  unfold _parse_vec4_components. fold (components vec4_src). split_and!.
  - split.
    + intros [fs Hfs%mapM_result_Ok] p Hp.
      apply list_elem_of_lookup in Hp as [i Hi].
      destruct (Forall2_lookup_l _ _ _ _ _ Hfs Hi) as (f & _ & Hf).
      apply parse_component_digit. eauto.
    + intros H. apply mapM_result_total. intros p Hp.
      by apply parse_component_digit, H.
  - intros fs Hfs. by apply parsed_components.
  - intros e (p & Hp & He)%mapM_result_Raise_inv.
    destruct (any_char is_digit p) eqn:Hd.
    { apply parse_component_digit in Hd as [f Hf]. congruence. }
    exists p. split_and!; [|done..].
    rewrite parse_component_no_literal in He; [congruence|].
    rewrite contains_literal_digit. congruence.
Qed.

(** ** The table of the parser *)

Lemma dict_get_set {V} (k n : Z) (v : V) d :
  dict_get n (dict_set k v d) = if k =? n then Some v else dict_get n d.
Proof.
  induction d as [|[k' v'] d IH]; simpl.
  - by destruct (k =? n).
  - destruct (Z.eqb_spec k' k) as [->|Hne]; simpl.
    + by destruct (k =? n).
    + destruct (Z.eqb_spec k' n) as [->|Hne'].
      * by destruct (Z.eqb_spec k n); [congruence|].
      * by rewrite IH.
Qed.

Lemma dict_set_elem {V} (k k' : Z) (v v' : V) d :
  (k', v') ∈ dict_set k v d → (k' = k ∧ v' = v) ∨ (k', v') ∈ d.
Proof.
  induction d as [|[k0 v0] d IH]; simpl.
  - intros [= -> ->]%list_elem_of_singleton. by left.
  - destruct (k0 =? k).
    + intros [[= -> ->]|H]%elem_of_cons; [by left|]. right. by right.
    + intros [[= -> ->]|H]%elem_of_cons; [right; by left|].
      destruct (IH H) as [?|?]; [by left|]. right. by right.
Qed.

Lemma dict_set_key_elem {V} (k k' : Z) (v : V) d :
  k' ∈ (dict_set k v d).*1 → k' = k ∨ k' ∈ d.*1.
Proof.
  intros ([k0 v0] & -> & H)%list_elem_of_fmap.
  apply dict_set_elem in H as [[-> _]|H]; [by left|]. right.
  apply list_elem_of_fmap. by exists (k0, v0).
Qed.

Lemma dict_set_NoDup {V} (k : Z) (v : V) d :
  NoDup d.*1 → NoDup (dict_set k v d).*1.
Proof.
  induction d as [|[k0 v0] d IH]; simpl; intros Hd.
  - apply NoDup_singleton.
  - apply NoDup_cons in Hd as [Hk0 Hd].
    destruct (Z.eqb_spec k0 k) as [->|Hne]; simpl.
    + by apply NoDup_cons.
    + apply NoDup_cons. split; [|by apply IH].
      intros [?|?]%dict_set_key_elem; done.
Qed.

Lemma dict_get_elem {V} (k : Z) (v : V) d :
  NoDup d.*1 → (k, v) ∈ d ↔ dict_get k d = Some v.
Proof.
  induction d as [|[k0 v0] d IH]; simpl; intros Hd.
  - split; [by intros ?%elem_of_nil|done].
  - apply NoDup_cons in Hd as [Hk0 Hd].
    destruct (Z.eqb_spec k0 k) as [->|Hne].
    + split.
      * intros [[= ->]|H]%elem_of_cons; [done|].
        destruct Hk0. apply list_elem_of_fmap. by exists (k, v).
      * intros [= ->]. by left.
    + rewrite <- IH by done. split.
      * intros [[= -> ->]|H]%elem_of_cons; done.
      * intros H. by right.
Qed.

Lemma rmatch_header_empty : rmatch header_re "" = None.
Proof. vm_compute. reflexivity. Qed.

(** The entries after a turn of the loop, from the record of its line. *)
Lemma scan_body_entries lines i E st' :
  scan_body lines {| st_i := i; st_entries := E |} = Ok st' →
  st_entries st'
  = match record_at lines i with
    | Some e => dict_set (idx e) e E
    | None => E
    end.
Proof.
  unfold record_at, scan_body. cbn [st_i st_entries].
  destruct (rmatch header_re _) as [m|]; [|by intros [= <-]].
  destruct (int_of (grp 1 m)) as [n|]; [|done]. cbn [bind].
  destruct (find_data_line _) as [d|]; [|by intros [= <-]].
  destruct (length (findall vec4_re d) <? 4)%nat; [done|].
  destruct (_parse_vec4_components _) as [d3|]; [|done]. cbn [bind].
  destruct (negb _); [done|]. by intros [= <-].
Qed.

(** A record comes from a header line: its index, code and name are the
    groups of the header, its param1 a float of the data line. *)
Lemma record_at_header lines i e :
  record_at lines i = Some e →
  ∃ h m, lines !! i = Some h ∧ rmatch header_re h = Some m ∧
    py_int (grp 1 m) = Some (idx e) ∧ code e = grp 2 m ∧ name e = grp 3 m ∧
    param1 e ≠ S754_nan.
Proof.
  unfold record_at, scan_body. cbn [st_i st_entries].
  destruct (lines !! i) as [h|] eqn:Hh.
  2:{ rewrite nth_overflow by (by apply lookup_ge_None).
      by rewrite rmatch_header_empty. }
  rewrite (nth_lookup_s _ _ _ Hh).
  destruct (rmatch header_re h) as [m|] eqn:Hm; [|done].
  unfold int_of. destruct (py_int (grp 1 m)) as [n|] eqn:Hn; [|done].
  cbn [bind].
  destruct (find_data_line _) as [d|]; [|done].
  destruct (length (findall vec4_re d) <? 4)%nat; [done|].
  destruct (_parse_vec4_components _) as [d3|] eqn:Hd3; [|done]. cbn [bind].
  destruct (length d3 =? 4)%nat eqn:Hlen; [|done]. cbn [negb].
  cbn [st_entries dict_set head fmap option_fmap option_map snd].
  intros [= <-]. exists h, m. cbn [idx code name param1].
  split_and!; try done.
  apply Nat.eqb_eq in Hlen.
  destruct d3 as [|f0 [|f1 [|f2 [|f3 [|]]]]]; try done. cbn [nth].
  destruct (parsed_components _ _ Hd3) as [_ Hnan].
  apply Hnan. set_solver.
Qed.

Lemma record_at_lt lines i e : record_at lines i = Some e → (i < length lines)%nat.
Proof.
  intros (h & _ & Hh & _)%record_at_header. by eapply lookup_lt_Some.
Qed.



Lemma no_record_from_step lines i n :
  no_record_from lines i n ↔
  (∀ e, record_at lines i = Some e → idx e ≠ n) ∧ no_record_from lines (S i) n.
Proof.
  unfold no_record_from. split.
  - intros H. split; [intros e; apply H; lia|].
    intros j e Hj. apply H. lia.
  - intros [H0 H] j e Hj.
    destruct (decide (j = i)) as [->|]; [apply H0|apply H; lia].
Qed.

Lemma last_record_from_step lines i n e :
  last_record_from lines i n e ↔
  (record_at lines i = Some e ∧ idx e = n ∧ no_record_from lines (S i) n)
  ∨ last_record_from lines (S i) n e.
Proof.
  unfold last_record_from. split.
  - intros (j & Hj & H).
    destruct (decide (j = i)) as [->|]; [by left|].
    right. exists j. split; [lia|done].
  - intros [H|(j & Hj & H)]; [by exists i|].
    exists j. split; [lia|done].
Qed.

Lemma no_record_from_end lines lo n :
  (length lines ≤ lo)%nat → no_record_from lines lo n.
Proof. intros Hlo j e Hj He%record_at_lt. lia. Qed.

Lemma last_record_from_end lines lo n e :
  (length lines ≤ lo)%nat → ¬ last_record_from lines lo n e.
Proof. intros Hlo (j & Hj & He%record_at_lt & _). lia. Qed.

(** What the loop leaves under a key: the record of the last line that
    yields one of that index, or what was under the key before. *)
Lemma scan_loop_get lines : ∀ fuel st table n e,
  scan_loop fuel lines st = Some (Ok table) →
  dict_get n table = Some e ↔
  last_record_from lines (st_i st) n e
  ∨ (dict_get n (st_entries st) = Some e ∧ no_record_from lines (st_i st) n).
Proof.
  induction fuel as [|fuel IH]; intros [i E] table n e; cbn [st_i st_entries].
  - simpl. destruct (Nat.leb_spec (length lines) i) as [Hle|]; [|done].
    intros [= <-]. split.
    + intros H. right. split; [done|by apply no_record_from_end].
    + intros [H|[H _]]; [by apply last_record_from_end in H|done].
  - destruct (Nat.le_gt_cases (length lines) i) as [Hle|Hlt].
    { rewrite scan_loop_end by done. intros [= <-]. split.
      - intros H. right. split; [done|by apply no_record_from_end].
      - intros [H|[H _]]; [by apply last_record_from_end in H|done]. }
    rewrite scan_loop_unfold by done.
    destruct (scan_body lines _) as [[i' E']|e'] eqn:Hb; [|done].
    pose proof (scan_body_advance _ _ _ Hb) as Hi'.
    pose proof (scan_body_entries _ _ _ _ Hb) as HE'.
    cbn [st_i st_entries] in Hi', HE'. subst i'.
    intros Hloop. rewrite (IH _ _ _ _ Hloop). cbn [st_i st_entries].
    replace (i + 1)%nat with (S i) by lia.
    rewrite (last_record_from_step lines i), (no_record_from_step lines i).
    destruct (record_at lines i) as [e0|] eqn:Hrec; subst E'.
    + rewrite dict_get_set. destruct (Z.eqb_spec (idx e0) n) as [Heq|Hne].
      * split.
        -- intros [H|[[= ->] H]]; [left; by right|]. left. by left.
        -- intros [[([= ->] & _ & H)|H]|[_ [H _]]].
           ++ right. done.
           ++ by left.
           ++ by destruct (H e0).
      * split.
        -- intros [H|[H1 H2]]; [left; by right|]. right.
           split_and!; [done| |done]. by intros ? [= <-].
        -- intros [[([= ->] & ? & _)|H]|(H1 & _ & H2)]; [done|by left|by right].
    + split.
      * intros [H|[H1 H2]]; [left; by right|]. right. done.
      * intros [[(? & _)|H]|(H1 & _ & H2)]; [done|by left|by right].
Qed.

(** X6.  Under every key of the parsed table sits the record of the
    last line of the text that yields a record of that index: a later
    header with the same index replaces the record of an earlier one,
    and a key is in the table exactly when some line yields a record of
    that index. *)
Theorem last_header_wins (lines : list string) (table : pydict Param1Entry)
    (n : Z) (e : Param1Entry) :
  parse_shared_wgsl_param1 lines = Some (Ok table) →
  dict_get n table = Some e ↔ last_record_from lines 0 n e.
Proof.
  intros Hparse. unfold parse_shared_wgsl_param1 in Hparse.
  rewrite (scan_loop_get _ _ _ _ n e Hparse). cbn [st_i st_entries dict_get].
  split; [by intros [?|[? _]]|by left].
Qed.

Lemma last_header_wins_witness :
  dict_get 3 [(3, {| idx := 3; code := "B"; name := "Other";
                     param1 := S754_finite false 5404319552844595 (-54) |})]
  = Some {| idx := 3; code := "B"; name := "Other";
            param1 := S754_finite false 5404319552844595 (-54) |}
  ↔ last_record_from Texts.twice 0 3
      {| idx := 3; code := "B"; name := "Other";
         param1 := S754_finite false 5404319552844595 (-54) |}.
Proof.
  apply (last_header_wins Texts.twice). vm_compute. reflexivity.
Defined.




Lemma scan_loop_invariant lines (I : pydict Param1Entry → Prop) :
  (∀ i E e, I E → record_at lines i = Some e → I (dict_set (idx e) e E)) →
  ∀ fuel st table,
    I (st_entries st) → scan_loop fuel lines st = Some (Ok table) → I table.
Proof.
  intros Hstep. induction fuel as [|fuel IH]; intros [i E] table HI;
    cbn [st_entries] in HI.
  - simpl. destruct (length lines <=? i)%nat; [|done]. by intros [= <-].
  - destruct (Nat.le_gt_cases (length lines) i) as [Hle|Hlt].
    { rewrite scan_loop_end by done. by intros [= <-]. }
    rewrite scan_loop_unfold by done.
    destruct (scan_body lines _) as [[i' E']|e'] eqn:Hb; [|done].
    apply IH. 
    rewrite (scan_body_entries _ _ _ _ Hb).
    destruct (record_at lines i) as [e|] eqn:He; [|done]. by eapply Hstep.
Qed.

(** The records of the parsed table: one per index, each under its own
    index, each the record of some line. *)
Lemma parsed_table_inv lines table :
  parse_shared_wgsl_param1 lines = Some (Ok table) →
  NoDup table.*1 ∧
  ∀ k e, (k, e) ∈ table → idx e = k ∧ ∃ i, record_at lines i = Some e.
Proof.
  apply (scan_loop_invariant lines
           (λ E, NoDup E.*1 ∧
                 ∀ k e, (k, e) ∈ E → idx e = k ∧ ∃ i, record_at lines i = Some e)).
  - intros i E e [Hnd Hrec] He. split; [by apply dict_set_NoDup|].
    intros k e' [[-> ->]|Hin]%dict_set_elem; [|by apply Hrec].
    split; [done|]. by exists i.
  - cbn [st_entries]. split; [apply NoDup_nil_2|]. by intros ?? ?%elem_of_nil.
Qed.

(** X9.  In the parsed table no index has two records, and every record
    sits under its own index, which is not negative; its code is one
    capital letter, its name is not empty and holds no newline, its
    param1 is not NaN; the three come from the groups of a header line
    of the text. *)
Theorem parsed_table_records (lines : list string)
    (table : pydict Param1Entry) :
  parse_shared_wgsl_param1 lines = Some (Ok table) →
  NoDup table.*1
  ∧ ∀ k e, (k, e) ∈ table →
      idx e = k ∧ 0 ≤ k
      ∧ (∃ u, code e = String u "" ∧ is_upper u = true)
      ∧ name e ≠ "" ∧ all_chars not_newline (name e) = true
      ∧ param1 e ≠ S754_nan
      ∧ ∃ i h m, lines !! i = Some h ∧ rmatch header_re h = Some m ∧
          py_int (grp 1 m) = Some k ∧ code e = grp 2 m ∧ name e = grp 3 m.
Proof.
  intros [Hnd Hrec]%parsed_table_inv.
  split; [done|]. intros k e [<- [i Hi]]%Hrec.
  destruct (record_at_header _ _ _ Hi)
    as (h & m & Hh & Hm & Hidx & Hcode & Hname & Hnan).
  destruct (header_groups _ _ Hm) as (Hd & Hne & Hu & Hnl & Hne3).
  destruct (py_int_digits _ Hd Hne) as [Hint Hpos].
  rewrite Hint in Hidx. injection Hidx as Hidx.
  split_and!; [done|lia|by rewrite Hcode|by rewrite Hname..|done|].
  exists i, h, m. split_and!; try done. by rewrite Hint, Hidx.
Qed.

Lemma parsed_table_records_witness :
  NoDup [17; 8; 24].
Proof.
  edestruct (parsed_table_records Sample.shader) as (H & _).
  - vm_compute. reflexivity.
  - exact H.
Defined.

(** ** The param1 of a code *)

Lemma amino_fold l : ∀ (m : gmap string spec_float) c,
  foldl (λ m e, if (0 <=? idx e) && (idx e <=? 19)
                then <[ code e := param1 e ]> m else m) m l !! c
  = match last (filter (λ e, 0 ≤ idx e ≤ 19 ∧ code e = c) l) with
    | Some e => Some (param1 e)
    | None => m !! c
    end.
Proof.
  induction l as [|e l IH]; intros m c; [done|]. cbn [foldl].
  rewrite IH, filter_cons.
  destruct (decide (0 ≤ idx e ≤ 19 ∧ code e = c)) as [[Hr <-]|Hn].
  - rewrite last_cons.
    destruct (last (filter _ l)); [done|].
    replace ((0 <=? idx e) && (idx e <=? 19)) with true by lia.
    by rewrite lookup_insert_eq.
  - destruct (last (filter _ l)); [done|].
    destruct ((0 <=? idx e) && (idx e <=? 19)) eqn:Hr; [|done].
    rewrite lookup_insert_ne; [done|]. intros Hc. apply Hn. split; [lia|done].
Qed.

(** X10.  The param1 found for a code is that of the last record, in
    the order of the table, among the records of indices 0 to 19 with
    that code; a record of another index never gives a param1. *)
Theorem amino_param1_last_wins (table : pydict Param1Entry) (c : string) :
  amino_param1_by_code table !! c
  = param1 <$> last (filter (λ e, 0 ≤ idx e ≤ 19 ∧ code e = c)
                            (dict_values table)).
Proof.
  unfold amino_param1_by_code. rewrite amino_fold.
  by destruct (last _).
Qed.

(** ** The derived fields *)

Lemma amino_not_nan lines table c p :
  parse_shared_wgsl_param1 lines = Some (Ok table) →
  amino_param1_by_code table !! c = Some p → p ≠ S754_nan.
Proof.
  intros [_ Hrec]%parsed_table_inv (e & He & _ & _ & <-)%amino_lookup.
  apply list_elem_of_fmap in He as ([k e'] & -> & Hin).
  destruct (Hrec _ _ Hin) as [_ [i Hi]]. cbn [snd].
  by destruct (record_at_header _ _ _ Hi) as (_ & _ & _ & _ & _ & _ & _ & ?).
Qed.

(** X11.  A row of the output with a derived [combined] carries the two
    param1 it is the sum of, neither of them NaN; its gain is the sum
    with the sign cleared; its polarity is 1 for a sum that is zero (of
    either sign) or positive and -1 for a sum that is negative or NaN;
    and the sum is NaN only when the two param1 are infinities of
    opposite signs. *)
Theorem derived_fields_signs (lines : list string) (csv : list csv_row)
    (table : pydict Param1Entry) (rows : list row) (d : row) (c : spec_float) :
  parse_shared_wgsl_param1 lines = Some (Ok table) →
  generate_table lines csv = Some (Ok rows) → d ∈ rows →
  combined_param1 d = VFloat c →
  ∃ p m, promoter_param1 d = VFloat p ∧ modifier_param1 d = VFloat m
    ∧ p ≠ S754_nan ∧ m ≠ S754_nan ∧ c = float_add p m
    ∧ gain_abs d = VFloat (SFabs c)
    ∧ polarity d
      = VInt match c with
             | S754_zero _ => 1
             | S754_infinity s | S754_finite s _ _ => if s then -1 else 1
             | S754_nan => -1
             end
    ∧ (c = S754_nan ↔ ∃ s, p = S754_infinity s ∧ m = S754_infinity (negb s)).
Proof.
  intros Hparse (table' & Hparse' & Hrows)%generate_table_Ok Hd Hc.
  rewrite Hparse in Hparse'. injection Hparse' as <-.
  destruct (generate_rows_elem _ _ _ _ Hrows Hd)
    as [[_ ->]|(r & mi & mc & pc & _ & _ & Hpc & Hrow)]; [done|].
  apply promoter_row_fields in Hrow
    as (_ & _ & _ & _ & _ & Hp & Hm & _ & Hder).
  destruct (uses_param1_gain (organ_type_id d)); [|congruence].
  destruct (amino_param1_by_code table !! promoter_code d) as [p|] eqn:Hpp;
    [|congruence].
  destruct (amino_param1_by_code table !! modifier_code d) as [m|] eqn:Hmm;
    [|congruence].
  injection Hder as Hcomb Hgain Hpol.
  rewrite Hc in Hcomb. injection Hcomb as ->.
  pose proof (amino_not_nan _ _ _ _ Hparse Hpp) as Hpn.
  pose proof (amino_not_nan _ _ _ _ Hparse Hmm) as Hmn.
  exists p, m. split_and!; try done.
  - rewrite Hpol, float_ge0_cases.
    by destruct (float_add p m) as [[]|[]| |[] ? ?].
  - split.
    + intros H. unfold float_add in H.
      by apply SFadd_nan in H as [?|[?|?]].
    + intros [s [-> ->]]. by destruct s.
Qed.

Lemma derived_fields_signs_witness :
  ∃ p m,
    VFloat (S754_finite true 8286623314361713 (-55)) = VFloat p
    ∧ VFloat (S754_finite false 7205759403792794 (-56)) = VFloat m
    ∧ p ≠ S754_nan ∧ m ≠ S754_nan
    ∧ S754_finite true 4683743612465316 (-55) = float_add p m
    ∧ VFloat (S754_finite false 4683743612465316 (-55))
      = VFloat (SFabs (S754_finite true 4683743612465316 (-55)))
    ∧ VInt (-1) = VInt (-1)
    ∧ (S754_finite true 4683743612465316 (-55) = S754_nan
       ↔ ∃ s, p = S754_infinity s ∧ m = S754_infinity (negb s)).
Proof.
  eapply (derived_fields_signs Sample.shader Sample.csv _ _
           {| sensor_kind := "Alpha Sensor"; organ_type_id := 22;
              promoter_code := "V";
              promoter_param1 := VFloat (S754_finite true 8286623314361713 (-55));
              modifier_index := VInt 5; modifier_code := "H";
              modifier_param1 := VFloat (S754_finite false 7205759403792794 (-56));
              combined_param1 := VFloat (S754_finite true 4683743612465316 (-55));
              gain_abs := VFloat (S754_finite false 4683743612465316 (-55));
              polarity := VInt (-1); notes := ENV_DYE_NOTE |}).
  - vm_compute. reflexivity.
  - vm_compute. reflexivity.
  - apply (list_elem_of_lookup_2 _ 1). vm_compute. reflexivity.
  - reflexivity.
Defined.

(** ** The forward search and the vector groups *)

(** X12.  The forward search of a header returns the first data line
    after it, stripped, when no comment line comes before that line,
    and nothing otherwise; the lines it passes over are neither.  A
    header line is itself a comment line and no data line, so the
    search never goes past the next header. *)
Theorem forward_search_first_data_line (rest : list string) (s : string) :
  (find_data_line rest = Some s ↔
   ∃ j d, rest !! j = Some d ∧ data_line d = true ∧ s = strip d ∧
     ∀ k l, (k < j)%nat → rest !! k = Some l →
       comment_line l = false ∧ data_line l = false)
  ∧ (∀ h m, rmatch header_re h = Some m →
       comment_line h = true ∧ data_line h = false ∧
       find_data_line (h :: rest) = None).
Proof.
  split.
  - split; [apply find_data_line_Some|].
    intros (j & d & Hj & Hd & -> & Hbefore). by eapply find_data_line_found.
  - intros h m Hc%header_is_comment.
    assert (data_line h = false) as Hd.
    { unfold comment_line in Hc. unfold data_line.
      apply andb_true_iff in Hc as [-> ->]. done. }
    split_and!; [done..|].
    apply (find_data_line_comment_first _ 0 h); [done..|]. intros; lia.
Qed.

Lemma attempt_caps r pos s m :
  attempt r pos s = Some m →
  den_caps r pos s [] (m_end m) (m_rest m) (m_caps m).
Proof.
  unfold attempt.
  by intros (pos' & s' & c' & Hden & [= <-])%run_sound_caps.
Qed.

(** Every match of [matches_from] is a match of the pattern somewhere
    in the text. *)
Lemma matches_from_sound r : ∀ fuel pos s m,
  m ∈ matches_from fuel r pos s →
  ∃ pre pos0, s = pre ++ m_text m ++ m_rest m ∧
              attempt r pos0 (m_text m ++ m_rest m) = Some m.
Proof.
  induction fuel as [|fuel IH]; intros pos s m; cbn [matches_from];
    [by intros ?%elem_of_nil|].
  destruct (search_from r pos s) as [m0|] eqn:Hs; [|by intros ?%elem_of_nil].
  apply search_from_Some in Hs as (pre & s0 & -> & Hm0 & _).
  pose proof (attempt_Some _ _ _ _ Hm0) as (_ & Hs0 & _).
  intros [->|Hin]%elem_of_cons.
  - exists pre, (pos + String.length pre)%nat. by rewrite <- Hs0.
  - destruct (is_empty (m_text m0)).
    + destruct (m_rest m0) as [|a s'] eqn:Hrest; [by apply elem_of_nil in Hin|].
      apply IH in Hin as (pre' & pos0 & -> & Hm).
      exists (pre ++ m_text m0 ++ String a pre'), pos0. split; [|done].
      rewrite Hs0. norm_app. done.
    + apply IH in Hin as (pre' & pos0 & Hrest & Hm).
      exists (pre ++ m_text m0 ++ pre'), pos0. split; [|done].
      rewrite Hs0, Hrest. norm_app. done.
Qed.

(** X13.  Every group [re.findall] returns for a data line is the text
    between a [vec4<f32>(] of the line and the first [)] after it: it
    holds no [)], and the vector it was taken from stands in the line. *)
Theorem findall_vec4_groups (line g : string) :
  g ∈ findall vec4_re line →
  all_chars not_rparen g = true ∧ occurs_in ("vec4<f32>(" ++ g ++ ")") line.
Proof.
  unfold findall. intros (m & -> & Hm)%list_elem_of_fmap.
  apply matches_from_sound in Hm as (pre & pos0 & Hline & Hm).
  apply attempt_caps in Hm. unfold vec4_re in Hm. cbn [cat den_caps den] in Hm.
  destruct Hm as (p1 & s1 & c1 & [[Hs ->] ->] & p2 & s2 & c2 &
                  (c0 & [(t & Ht & -> & ->) ->] & ->) & [[Hlit _] Hc]).
  unfold grp, group. rewrite Hc.
  cbn [List.find Nat.eqb fmap option_fmap option_map snd default].
  replace (pos0 + String.length "vec4<f32>(" + String.length t
           - (pos0 + String.length "vec4<f32>("))%nat
    with (String.length t) by lia.
  rewrite str_take_app. split; [done|].
  exists pre, (m_rest m). rewrite Hline, Hs, Hlit. norm_app. done.
Qed.

Lemma findall_vec4_groups_witness :
  all_chars not_rparen "0.0, 0.3, -0.73, -0.23" = true
  ∧ occurs_in ("vec4<f32>(" ++ "0.0, 0.3, -0.73, -0.23" ++ ")")
      (Sample.data "0.0, 0.3, -0.73, -0.23").
Proof.
  apply (findall_vec4_groups (Sample.data "0.0, 0.3, -0.73, -0.23")).
  apply (list_elem_of_lookup_2 _ 3). vm_compute. reflexivity.
Defined.

(** ** The exceptions of a run *)



(** ** The lines that are headers *)




Section HeaderMatch.
Context {A : Type} (k : @cont A).
Hypothesis k_total : ∀ pos s c, is_Some (k pos s c).







Abbreviation R_name :=
  (cat [Group 3 (PlusLazy not_newline); Star is_space; Eol]).
Abbreviation R_sp5 := (Seq (Plus is_space) R_name).
Abbreviation R_dash := (Seq (Lit "-") R_sp5).
Abbreviation R_sp4 := (Seq (Plus is_space) R_dash).
Abbreviation R_code := (Seq (Group 2 (Chr is_upper)) R_sp4).
Abbreviation R_sp3 := (Seq (Plus is_space) R_code).
Abbreviation R_idx := (Seq (Group 1 (Plus is_digit)) R_sp3).
Abbreviation R_sp2 := (Seq (Star is_space) R_idx).
Abbreviation R_slash := (Seq (Lit "//") R_sp2).
Abbreviation R_sp1 := (Seq (Star is_space) R_slash).










End HeaderMatch.



(** * The energy-storage patch *)

Section PatchFacts.
Import Patch.

Lemma lookup_store_eq k v d : dict_lookup k (dict_store k v d) = Some v.
Proof.
  induction d as [|[k' v'] d IH]; simpl.
  - by rewrite decide_True.
  - destruct (decide (k' = k)); simpl; [by rewrite decide_True|].
    by rewrite decide_False.
Qed.

Lemma lookup_store_ne k k' v d :
  k ≠ k' → dict_lookup k' (dict_store k v d) = dict_lookup k' d.
Proof.
  intros Hne. induction d as [|[k0 v0] d IH]; simpl.
  - by rewrite decide_False.
  - destruct (decide (k0 = k)) as [->|]; simpl.
    + by rewrite !decide_False.
    + by rewrite IH.
Qed.

Lemma store_store k v v' d :
  dict_store k v (dict_store k v' d) = dict_store k v d.
Proof.
  induction d as [|[k0 v0] d IH]; simpl.
  - by rewrite decide_True.
  - destruct (decide (k0 = k)) as [->|]; simpl.
    + by rewrite decide_True.
    + by rewrite decide_False, IH.
Qed.

Lemma getitem_Done part k x :
  getitem part k = Done x →
  ∃ d, part = JDict d ∧ dict_lookup (KStr k) d = Some x.
Proof.
  destruct part as [| | | | | |d]; try done. simpl.
  destruct (dict_lookup _ d) as [y|] eqn:Hy; [|done]. intros [= ->]. eauto.
Qed.

(** The assignment, case by case. *)
Lemma store_energy_Done part x part' :
  store_energy part x = Done part' →
  ∃ d vec4 row vec4' row',
    part = JDict d ∧ dict_lookup (KStr "vec4") d = Some vec4 ∧
    getindex vec4 2 = Done row ∧ setindex row 3 (JFloat x) = Done row' ∧
    setindex vec4 2 row' = Done vec4' ∧
    part' = JDict (dict_store (KStr "vec4") vec4' d).
Proof.
  unfold store_energy.
  destruct (getitem part "vec4") as [vec4|] eqn:Hv; [|done].
  apply getitem_Done in Hv as (d & -> & Hv). cbn [and_then].
  destruct (getindex vec4 2) as [row|] eqn:Hr; [|done]. cbn [and_then].
  destruct (setindex row 3 (JFloat x)) as [row'|] eqn:Hs; [|done].
  cbn [and_then].
  destruct vec4 as [| | | |s|l|t]; try done.
  - cbn [getindex] in Hr. destruct (char_at 2 s); [|done]. injection Hr as <-.
    simpl in Hs. done.
  - intros [= <-]. exists d, (JList l), row, (JList (<[2%nat:=row']> l)), row'.
    split_and!; try done. simpl.
    simpl in Hr. destruct (l !! 2%nat) eqn:Hl; [|done].
    apply lookup_lt_Some in Hl. by rewrite decide_True.
  - intros [= <-].
    by exists d, (JDict t), row, (JDict (dict_store (KInt 2) row' t)), row'.
Qed.

Lemma getindex_setindex v i x v' :
  setindex v i x = Done v' → getindex v' i = Done x.
Proof.
  destruct v as [| | | | |l|d]; try done; simpl.
  - destruct (decide _) as [Hi|]; [|done]. intros [= <-]. simpl.
    by rewrite list_lookup_insert_eq.
  - intros [= <-]. simpl. by rewrite lookup_store_eq.
Qed.

Lemma setindex_again v i x v' :
  setindex v i x = Done v' → setindex v' i x = Done v'.
Proof.
  destruct v as [| | | | |l|d]; try done; simpl.
  - destruct (decide _) as [Hi|]; [|done]. intros [= <-]. simpl.
    rewrite decide_True by (by rewrite length_insert).
    by rewrite list_insert_insert_eq.
  - intros [= <-]. simpl. by rewrite store_store.
Qed.

(** After the assignment the part holds the energy, and the assignment
    done again changes nothing. *)
Lemma store_energy_energy part x part' :
  store_energy part x = Done part' →
  energy part' = Done (JFloat x) ∧ store_energy part' x = Done part' ∧
  ∀ k, k ≠ "vec4" → getitem part' k = getitem part k.
Proof.
  intros (d & vec4 & row & vec4' & row' & -> & Hv & Hr & Hs & Hs2 & ->)
    %store_energy_Done.
  assert (getindex vec4' 2 = Done row') as Hr' by (by eapply getindex_setindex).
  assert (getindex row' 3 = Done (JFloat x)) as Hx
    by (by eapply getindex_setindex).
  split_and!.
  - unfold energy. simpl. rewrite lookup_store_eq. cbn [and_then].
    by rewrite Hr'.
  - unfold store_energy. simpl. rewrite lookup_store_eq. cbn [and_then].
    rewrite Hr'. cbn [and_then].
    rewrite (setindex_again _ _ _ _ Hs). cbn [and_then].
    destruct vec4 as [| | | | |l|t]; try done; simpl in Hs2.
    + destruct (decide _); [|done]. injection Hs2 as <-.
      by rewrite store_store, list_insert_insert_eq.
    + injection Hs2 as <-. by rewrite !store_store.
  - intros k Hk. simpl. rewrite lookup_store_ne; [done|]. by intros [= <-].
Qed.

Lemma SFeqb_finite_eq f s m e :
  SFeqb f (S754_finite s m e) = true → f = S754_finite s m e.
Proof.
  unfold SFeqb, SFcompare.
  destruct f as [s1|s1| |s1 m1 e1].
  - destruct s; discriminate.
  - destruct s1; discriminate.
  - discriminate.
  - destruct s1, s; try discriminate.
    + destruct (Z.compare_spec e1 e) as [->| |]; try discriminate.
      destruct (Pos.compare_cont Eq m1 m) eqn:Hm; try discriminate.
      apply Pos.compare_eq in Hm as ->. reflexivity.
    + destruct (Z.compare_spec e1 e) as [->| |]; try discriminate.
      destruct (Pos.compare_cont Eq m1 m) eqn:Hm; try discriminate.
      apply Pos.compare_eq in Hm as ->. reflexivity.
Qed.

(** The index of a part that is at most 19 is not 28. *)
Lemma le_19_not_28 i : le_19 i = Done true → eq_28 i = false.
Proof.
  destruct (eq_28 i) eqn:H28; [|reflexivity].
  destruct i as [|b|z|f| | |]; try discriminate; cbn [eq_28 le_19] in *.
  - intros [= H]. lia.
  - apply SFeqb_finite_eq in H28 as ->. intros H. vm_compute in H.
    discriminate.
Qed.

Lemma update_index part x r :
  update part x = Done r → getitem r.1 "index" = getitem part "index".
Proof.
  unfold update.
  destruct (store_energy part x) as [part'|] eqn:Hs; [|done]. cbn [and_then].
  destruct (getitem part' "name") as [n|]; [|done]. cbn [and_then].
  destruct (getitem part' "index") as [i|]; [|done]. cbn [and_then].
  intros [= <-]. simpl.
  by apply store_energy_energy in Hs as (_ & _ & ->).
Qed.

(** The body of the loop, by the energy the index of the part calls
    for. *)
Lemma update_part_eq part :
  update_part part
  = do* i := getitem part "index" in
    do* lo := ge_0 i in
    match target part with
    | Some x => update part x
    | None => Done (part, [])
    end.
Proof.
  unfold update_part, target.
  destruct (getitem part "index") as [i|] eqn:Hi; [|done].
  pose proof Hi as (d & -> & Hd)%getitem_Done. rewrite Hd. cbn [and_then].
  destruct (ge_0 i) as [lo|] eqn:Hlo; [|done]. cbn [and_then].
  assert (∀ x r, update (JDict d) x = Done r →
            getitem r.1 "index" = Done i) as Hidx.
  { intros x r Hu. by rewrite (update_index _ _ _ Hu). }
  assert (∀ r : json * list message, (r.1, ([] ++ r.2)%list) = r) as Heta
    by (by intros []).
  destruct i as [|b|z|f| | |]; try done; cbn [ge_0 le_19] in *;
    injection Hlo as <-.
  - (* a Boolean *)
    cbn [and_then].
    destruct (update (JDict d) float_1) as [r|] eqn:Hu; [|done].
    cbn [and_then]. by rewrite (Hidx _ _ Hu).
  - (* an integer *)
    destruct (0 <=? z) eqn:H0; cbn [and_then andb].
    + destruct (z <=? 19) eqn:H19; cbn [and_then].
      * destruct (update (JDict d) float_1) as [r|] eqn:Hu; [|done].
        cbn [and_then]. rewrite (Hidx _ _ Hu). cbn [and_then eq_28].
        by replace (z =? 28) with false by lia.
      * cbn [fst snd]. rewrite Hi. cbn [and_then eq_28].
        destruct (z =? 28); [|done].
        destruct (update (JDict d) float_10) as [r|]; [|done].
        cbn [and_then]. by rewrite Heta.
    + cbn [fst snd]. rewrite Hi. cbn [and_then eq_28].
      destruct (z =? 28); [|done].
      destruct (update (JDict d) float_10) as [r|]; [|done].
      cbn [and_then]. by rewrite Heta.
  - (* a float *)
    destruct (SFleb (S754_zero false) f) eqn:H0; cbn [and_then andb].
    + destruct (SFleb f float_19) eqn:H19; cbn [and_then].
      * destruct (update (JDict d) float_1) as [r|] eqn:Hu; [|done].
        cbn [and_then]. rewrite (Hidx _ _ Hu). cbn [and_then].
        rewrite (le_19_not_28 (JFloat f)); [done|]. cbn [le_19]. by rewrite H19.
      * cbn [fst snd]. rewrite Hi. cbn [and_then eq_28].
        destruct (SFeqb f float_28); [|done].
        destruct (update (JDict d) float_10) as [r|]; [|done].
        cbn [and_then]. by rewrite Heta.
    + cbn [fst snd]. rewrite Hi. cbn [and_then eq_28].
      destruct (SFeqb f float_28); [|done].
      destruct (update (JDict d) float_10) as [r|]; [|done].
      cbn [and_then]. by rewrite Heta.
Qed.

Lemma update_part_target part r :
  update_part part = Done r →
  match target part with
  | Some x => update part x = Done r
  | None => r = (part, [])
  end.
Proof.
  rewrite update_part_eq.
  destruct (getitem part "index") as [i|]; [|done]. cbn [and_then].
  destruct (ge_0 i); [|done]. cbn [and_then].
  destruct (target part); [done|]. by intros [= <-].
Qed.

(** The energy a part calls for depends on its index only. *)
Lemma target_index p p' :
  getitem p "index" = getitem p' "index" → target p = target p'.
Proof.
  destruct p as [| | | | | |d], p' as [| | | | | |d']; try done; simpl.
  - by destruct (dict_lookup _ d').
  - by destruct (dict_lookup _ d').
  - by destruct (dict_lookup _ d').
  - by destruct (dict_lookup _ d').
  - by destruct (dict_lookup _ d').
  - by destruct (dict_lookup _ d').
  - by destruct (dict_lookup _ d).
  - by destruct (dict_lookup _ d).
  - by destruct (dict_lookup _ d).
  - by destruct (dict_lookup _ d).
  - by destruct (dict_lookup _ d).
  - by destruct (dict_lookup _ d).
  - destruct (dict_lookup _ d), (dict_lookup _ d'); try done.
    by intros [= ->].
Qed.

(** A part whose index calls for no energy has a readable index. *)
Lemma target_Some_index part x :
  target part = Some x → ∃ i lo, getitem part "index" = Done i ∧ ge_0 i = Done lo.
Proof.
  destruct part as [| | | | | |d]; try done. simpl.
  destruct (dict_lookup _ d) as [[|b|z|f| | |]|]; try done; simpl; eauto.
Qed.

(** One turn of the loop: the part after it and the line printed. *)
Lemma update_part_patched part r :
  update_part part = Done r →
  patched part r.1 ∧ r.2 = report r.1 ∧ update_part r.1 = Done r.
Proof.
  intros Hu. pose proof (update_part_target _ _ Hu) as Ht. unfold patched.
  destruct (target part) as [x|] eqn:Htar.
  - unfold update in Ht.
    destruct (store_energy part x) as [part'|] eqn:Hs; [|done].
    cbn [and_then] in Ht.
    destruct (store_energy_energy _ _ _ Hs) as (_ & Hagain & Hkeep).
    destruct (getitem part' "name") as [n|] eqn:Hn; [|done].
    cbn [and_then] in Ht.
    destruct (getitem part' "index") as [i|] eqn:Hi; [|done].
    cbn [and_then] in Ht. injection Ht as <-. cbn [fst snd].
    assert (target part' = Some x) as Htar'.
    { rewrite <- Htar. apply target_index. by rewrite Hkeep. }
    split_and!; [done| |].
    + unfold report. by rewrite Htar', Hn, Hi.
    + rewrite update_part_eq, Hi. cbn [and_then].
      destruct (target_Some_index _ _ Htar') as (i' & lo & Hi' & Hlo).
      rewrite Hi in Hi'. injection Hi' as <-. rewrite Hlo.
      cbn [and_then]. rewrite Htar'. unfold update.
      rewrite Hagain. cbn [and_then]. by rewrite Hn, Hi.
  - subst r. cbn [fst snd]. split_and!; [done| |done].
    unfold report. by rewrite Htar.
Qed.

Lemma update_parts_patched l r :
  update_parts l = Done r →
  Forall2 patched l r.1 ∧ r.2 = concat (report <$> r.1)
  ∧ update_parts r.1 = Done r.
Proof.
  revert r. induction l as [|p l IH]; intros r; simpl.
  - by intros [= <-].
  - destruct (update_part p) as [rp|] eqn:Hp; [|done]. cbn [and_then].
    destruct (update_parts l) as [rl|] eqn:Hl; [|done]. cbn [and_then].
    intros [= <-]. cbn [fst snd].
    destruct (update_part_patched _ _ Hp) as (H1 & H2 & H3).
    destruct (IH _ eq_refl) as (H4 & H5 & H6).
    split_and!.
    + by constructor.
    + cbn [fmap list_fmap concat]. by rewrite <- H2, <- H5.
    + cbn [update_parts]. rewrite H3. cbn [and_then]. rewrite H6.
      cbn [and_then]. by destruct rp, rl.
Qed.

(** The loop over anything but a list runs no turn or fails. *)
Lemma update_parts_items parts items r :
  iterate parts = Done items → (∀ l, parts ≠ JList l) →
  update_parts items = Done r → items = [] ∧ r = ([], []).
Proof.
  intros Hit Hnl.
  destruct parts as [| | | |s|l|d]; try done; [| by destruct (Hnl l) |];
    injection Hit as <-.
  - destruct s as [|a s]; [by intros [= <-]|]. done.
  - destruct d as [|[[k|k] v] d]; [by intros [= <-]|done..].
Qed.


Lemma update_energy_storage_Done data data' msgs :
  update_energy_storage data = Done (data', msgs) →
  ∃ d parts, data = JDict d ∧ dict_lookup (KStr "parts") d = Some parts ∧
    ((∃ l l', parts = JList l ∧
        update_parts l = Done (l', concat (report <$> l')) ∧
        data' = JDict (dict_store (KStr "parts") (JList l') d) ∧
        Forall2 patched l l' ∧
        msgs = (concat (report <$> l') ++ [Success])%list)
     ∨ ((∀ l, parts ≠ JList l) ∧ iterate parts = Done [] ∧
        data' = data ∧ msgs = [Success])).
Proof.
  unfold update_energy_storage.
  destruct (getitem data "parts") as [parts|] eqn:Hp; [|done].
  apply getitem_Done in Hp as (d & -> & Hd). cbn [and_then].
  destruct (iterate parts) as [items|] eqn:Hit; [|done]. cbn [and_then].
  destruct (update_parts items) as [r|] eqn:Hu; [|done]. cbn [and_then].
  intros [= <- <-]. exists d, parts. split_and!; [done..|].
  assert ((∃ l, parts = JList l) ∨ ∀ l, parts ≠ JList l) as [[l ->]|Hnl]
    by (destruct parts; eauto).
  - left. injection Hit as <-.
    destruct (update_parts_patched _ _ Hu) as (H1 & H2 & _).
    exists l, r.1. rewrite <- H2. split_and!; try done. by destruct r.
  - right.
    destruct (update_parts_items _ _ _ Hit Hnl Hu) as [-> ->].
    split_and!; try done. destruct parts as [| | | | |l|]; try done.
    by destruct (Hnl l).
Qed.

(** X15.  A run of the patch that ends well read a document that is a
    dictionary with a key [parts].  When [parts] is a list, the document
    written is the one read with, under [parts], a list of as many
    parts, in the same order: a part whose index is among 0 to 19 or
    28 with [part['vec4'][2][3]] assigned, every other part as it was;
    one line is printed for each part assigned to, then the closing
    line.  Otherwise [parts] is an empty dictionary or string and the
    document is written back as read. *)
Theorem patch_changes_only_the_energy (data data' : json)
    (msgs : list message) :
  update_energy_storage data = Done (data', msgs) →
  ∃ d parts, data = JDict d ∧ dict_lookup (KStr "parts") d = Some parts ∧
    ((∃ l l', parts = JList l ∧
        data' = JDict (dict_store (KStr "parts") (JList l') d) ∧
        Forall2 patched l l' ∧
        msgs = (concat (report <$> l') ++ [Success])%list)
     ∨ ((∀ l, parts ≠ JList l) ∧ iterate parts = Done [] ∧
        data' = data ∧ msgs = [Success])).
Proof.
  intros (d & parts & Hd & Hp & H)%update_energy_storage_Done.
  exists d, parts. split_and!; [done..|].
  destruct H as [(l & l' & ? & _ & ? & ? & ?)|?]; [left|by right].
  by exists l, l'.
Qed.

Lemma patch_changes_only_the_energy_witness :
  ∃ d parts, sample = JDict d ∧ dict_lookup (KStr "parts") d = Some parts ∧
    ((∃ l l', parts = JList l ∧
        sample_written = JDict (dict_store (KStr "parts") (JList l') d) ∧
        Forall2 patched l l' ∧
        sample_printed = (concat (report <$> l') ++ [Success])%list)
     ∨ ((∀ l, parts ≠ JList l) ∧ iterate parts = Done [] ∧
        sample_written = sample ∧ sample_printed = [Success])).
Proof.
  apply (patch_changes_only_the_energy sample sample_written sample_printed).
  vm_compute. reflexivity.
Defined.

(** X16.  After a run of the patch that ends well, every part of the
    document written whose index calls for an energy holds it at
    [part['vec4'][2][3]]: 1.0 for an index from 0 to 19, 10.0 for the
    index 28. *)
Theorem patch_stores_the_energy (data data' : json) (msgs : list message)
    (l' : list json) (part : json) :
  update_energy_storage data = Done (data', msgs) →
  getitem data' "parts" = Done (JList l') → part ∈ l' →
  (∀ x, target part = Some x → energy part = Done (JFloat x))
  ∧ (∀ z, getitem part "index" = Done (JInt z) →
       (0 ≤ z ≤ 19 → energy part = Done (JFloat float_1))
       ∧ (z = 28 → energy part = Done (JFloat float_10))).
Proof.
  intros (d & parts & -> & Hp & H)%update_energy_storage_Done Hl' Hin.
  assert (∀ x, target part = Some x → energy part = Done (JFloat x)) as Htar.
  { destruct H as [(l & l0 & -> & _ & -> & Hall & _)|(Hnl & _ & -> & _)].
    - simpl in Hl'. rewrite lookup_store_eq in Hl'. injection Hl' as <-.
      apply list_elem_of_lookup in Hin as [i Hi].
      destruct (Forall2_lookup_r _ _ _ _ _ Hall Hi) as (p & _ & Hpat).
      unfold patched in Hpat. intros x Hx.
      destruct (target p) as [y|] eqn:Hy.
      + destruct (store_energy_energy _ _ _ Hpat) as (He & _ & Hkeep).
        rewrite (target_index part p) in Hx by (by apply Hkeep).
        congruence.
      + congruence.
    - simpl in Hl'. rewrite Hp in Hl'. injection Hl' as ->. by destruct (Hnl l'). }
  split; [done|]. intros z Hz.
  apply getitem_Done in Hz as (dp & -> & Hz).
  split; intros Hr; apply Htar; simpl; rewrite Hz.
  - by replace ((0 <=? z) && (z <=? 19)) with true by lia.
  - subst z. done.
Qed.

Lemma patch_stores_the_energy_witness :
  energy (sample_part 28 "Storage" (JFloat float_10)) = Done (JFloat float_10).
Proof.
  edestruct (patch_stores_the_energy sample sample_written sample_printed)
    as [_ H].
  - vm_compute. reflexivity.
  - vm_compute. reflexivity.
  - apply (list_elem_of_lookup_2 _ 1). vm_compute. reflexivity.
  - apply (H 28); [vm_compute; reflexivity|reflexivity].
Defined.

(** X17.  The patch is idempotent on the document it builds: run on
    the value it passed to [json.dump], it builds the same value and
    prints the same lines. *)
Theorem patch_twice (data data' : json) (msgs : list message) :
  update_energy_storage data = Done (data', msgs) →
  update_energy_storage data' = Done (data', msgs).
Proof.
  intros Hrun.
  pose proof Hrun as (d & parts & -> & Hp & H)%update_energy_storage_Done.
  destruct H as [(l & l0 & -> & Hu & -> & _ & ->)|(_ & _ & -> & _)]; [|done].
  apply update_parts_patched in Hu as (_ & _ & Hu). cbn [fst] in Hu.
  unfold update_energy_storage. simpl. rewrite lookup_store_eq.
  cbn [and_then iterate]. rewrite Hu. cbn [and_then fst snd].
  by rewrite store_store.
Qed.

Lemma patch_twice_witness :
  update_energy_storage sample_written = Done (sample_written, sample_printed).
Proof.
  apply (patch_twice sample). vm_compute. reflexivity.
Defined.

End PatchFacts.

(** * The shader-energy patch *)

Section SubstFacts.
Import Subst.

(** The script on a text with the header on the line of the vectors. *)
Example update_one_line :
  update_shader_energy one_line
  = "  // 17 V - Valine: array<vec4<f32>,6>( vec4<f32>(1.0, 0.5, 0.0, 0.0), "
    ++ "vec4<f32>(0.0, 0.0, 0.0, 0.0), vec4<f32>(0.2, 0.0, 0.0, 1.0), "
    ++ "vec4<f32>(0.0, 0.3, -0.73, -0.23) )," ++ Sample.nl.
Proof. vm_compute. reflexivity. Qed.

Lemma star_lazy_sound {A} p s : ∀ pos c (k : @cont A) x,
  star_lazy p pos s c k = Some x →
  ∃ t s', all_chars p t = true ∧ s = t ++ s' ∧
          k (pos + String.length t)%nat s' c = Some x.
Proof.
  induction s as [|a s IH]; intros pos c k x; cbn [star_lazy].
  - intros [H|[_ H]]%orelse_Some; [|done].
    exists "", "". by rewrite Nat.add_0_r.
  - intros [H|[_ H]]%orelse_Some.
    + exists "", (String a s). by rewrite Nat.add_0_r.
    + destruct (p a) eqn:Ha; [|done].
      apply IH in H as (t & s' & Ht & -> & Hk).
      exists (String a t), s'. cbn [all_chars String.length].
      rewrite Ha, Ht. split_and!; [done..|].
      by replace (pos + S (String.length t))%nat
        with (S pos + String.length t)%nat by lia.
Qed.

Lemma run_pattern_sound {A} pat : ∀ pos s c (k : @cont A) x,
  run_pattern pat pos s c k = Some x →
  ∃ pos' s' c', den_pattern pat pos s c pos' s' c' ∧ k pos' s' c' = Some x.
Proof.
  induction pat as [r|p|p1 IH1 p2 IH2|n p1 IH1]; intros pos s c k x;
    cbn [run_pattern den_pattern].
  - apply run_sound_caps.
  - intros (t & s' & Ht & -> & Hk)%star_lazy_sound.
    exists (pos + String.length t)%nat, s', c. split; [|done]. by exists t.
  - intros (q1 & s1 & c1 & H1 & (pos' & s' & c' & H2 & Hk)%IH2)%IH1.
    exists pos', s', c'. split; [|done]. by exists q1, s1, c1.
  - intros (pos' & s' & c1 & H1 & Hk)%IH1.
    exists pos', s', ((n, str_take (pos' - pos) s) :: c1). split; [|done].
    by exists c1.
Qed.

Lemma den_caps_den r : ∀ pos s c pos' s' c',
  den_caps r pos s c pos' s' c' → den r pos s pos' s'.
Proof.
  induction r as [p|l|r1 IH1 r2 IH2|r1 IH1|p|p|p|n r1 IH1| |];
    intros pos s c pos' s' c'; cbn [den_caps den]; try (by intros [? _]).
  - intros (p1 & s1 & c1 & H1%IH1 & H2%IH2). by exists p1, s1.
  - intros [H%IH1|(-> & -> & _)]; [by left|by right].
  - intros (c1 & H%IH1 & _). done.
Qed.

Lemma den_pattern_span pat : ∀ pos s c pos' s' c',
  den_pattern pat pos s c pos' s' c' →
  ∃ t, s = t ++ s' ∧ pos' = (pos + String.length t)%nat.
Proof.
  induction pat as [r|p|p1 IH1 p2 IH2|n p1 IH1]; intros pos s c pos' s' c';
    cbn [den_pattern].
  - intros H%den_caps_den. by apply den_span in H.
  - intros (t & _ & -> & -> & _). by exists t.
  - intros (q1 & s1 & c1 & (t1 & -> & ->)%IH1 & (t2 & -> & ->)%IH2).
    exists (t1 ++ t2). rewrite app_assoc_s, length_app_s. split; [done|lia].
  - intros (c1 & H%IH1 & _). done.
Qed.

Lemma find_Some pat : ∀ s pos pre m,
  find pat pos s = Some (pre, m) →
  ∃ s0, s = pre ++ s0 ∧ attempt pat (pos + String.length pre)%nat s0 = Some m.
Proof.
  induction s as [|a s IH]; intros pos pre m; cbn [find].
  - destruct (attempt pat pos "") as [m0|] eqn:Hm; [|done].
    intros [= <- <-]. exists "". by rewrite Nat.add_0_r.
  - destruct (attempt pat pos (String a s)) as [m0|] eqn:Hm.
    + intros [= <- <-]. exists (String a s). by rewrite Nat.add_0_r.
    + destruct (find pat (S pos) s) as [[pre' m']|] eqn:Hf; [|done].
      intros [= <- <-]. apply IH in Hf as (s0 & -> & Ha).
      exists s0. split; [done|]. cbn [String.length].
      by replace (pos + S (String.length pre'))%nat
        with (S pos + String.length pre')%nat by lia.
Qed.

Lemma attempt_split pat pos s m :
  attempt pat pos s = Some m →
  s = m_text m ++ m_rest m ∧ m_end m = (pos + String.length (m_text m))%nat.
Proof.
  unfold attempt. intros (pos' & s' & c' & Hden & [= <-])%run_pattern_sound.
  cbn [m_text m_end m_rest].
  apply den_pattern_span in Hden as (t & -> & ->).
  replace (pos + String.length t - pos)%nat with (String.length t) by lia.
  by rewrite str_take_app.
Qed.

(** [re.sub] ends within [len(s) + 1] searches. *)
Lemma sub_fuel pat repl : ∀ fuel fuel' pos s,
  (String.length s < fuel)%nat → (String.length s < fuel')%nat →
  sub fuel pat repl pos s = sub fuel' pat repl pos s.
Proof.
  induction fuel as [|fuel IH]; intros [|fuel'] pos s Hf Hf'; try lia.
  cbn [sub]. destruct (find pat pos s) as [[pre m]|] eqn:Hfind; [|done].
  apply find_Some in Hfind as (s0 & -> & [Hs0 _]%attempt_split).
  rewrite Hs0, !length_app_s in Hf, Hf'.
  f_equal. f_equal. destruct (is_empty (m_text m)) eqn:He.
  - destruct (m_rest m) as [|a s'] eqn:Hr; [done|]. f_equal.
    cbn [String.length] in Hf, Hf'. apply IH; lia.
  - assert (0 < String.length (m_text m))%nat
      by (destruct (m_text m); [done|cbn [String.length]; lia]).
    apply IH; lia.
Qed.

Lemma den_seq r1 r2 pos s pos' s' :
  den (Seq r1 r2) pos s pos' s' ↔
  ∃ p1 s1, den r1 pos s p1 s1 ∧ den r2 p1 s1 pos' s'.
Proof. reflexivity. Qed.

(** The text of a header ends in a word character. *)
Lemma header_ends_in_word pos s pos' s' :
  den header pos s pos' s' →
  ∃ x w, s = (x ++ String w "") ++ s' ∧ is_word w = true ∧
         pos' = (pos + String.length (x ++ String w ""))%nat.
Proof.
  intros H. pose proof (den_span _ _ _ _ _ H) as (th & Hth & ->).
  revert H. unfold header. cbn [cat den].
  intros (p1 & s1 & [-> _] & p2 & s2 & (t2 & _ & _ & -> & _) &
          p3 & s3 & (t3 & _ & _ & -> & _) & p4 & s4 & (t4 & _ & _ & -> & _) &
          p5 & s5 & (u & -> & _ & _) & p6 & s6 & (t6 & _ & _ & -> & _) &
          p7 & s7 & [-> _] & p8 & s8 & (t8 & _ & _ & -> & _) &
          (w & Hw & Hne & -> & _)).
  destruct (string_snoc w Hne) as (w0 & b & ->).
  rewrite all_chars_app in Hw. apply andb_true_iff in Hw as [_ Hb].
  cbn [all_chars] in Hb. rewrite andb_true_r in Hb.
  exists ("//" ++ t2 ++ t3 ++ t4 ++ String u (t6 ++ "-" ++ t8 ++ w0)), b.
  assert (th = ("//" ++ t2 ++ t3 ++ t4 ++ String u (t6 ++ "-" ++ t8 ++ w0))
               ++ String b "") as ->.
  { apply (app_inv_tail_s _ _ s'). rewrite <- Hth. norm_app. done. }
  split_and!; [|done..]. norm_app. done.
Qed.

(** The text of the vectors begins with the opening of the array. *)
Lemma vectors_open pos s pos' s' :
  den vectors pos s pos' s' →
  ∃ y, s = (ARRAY_OPEN ++ y) ++ s' ∧
       pos' = (pos + String.length (ARRAY_OPEN ++ y))%nat.
Proof.
  unfold vectors. cbn [cat].
  intros (p1 & s1 & [-> ->] & (y & -> & ->)%den_span)%den_seq.
  exists y. rewrite app_assoc_s, length_app_s. split; [done|lia].
Qed.

(** A match of the pattern: the header, on one line with the opening of
    the array, the text up to [0.0] as group 1, and group 2. *)
Lemma pattern_match pos s m :
  attempt pattern_ pos s = Some m →
  ∃ g1 g2,
    s = (g1 ++ "0.0" ++ g2) ++ m_rest m ∧ m_text m = g1 ++ "0.0" ++ g2 ∧
    m_end m = (pos + String.length (m_text m))%nat ∧
    grp 1 m = g1 ∧ grp 2 m = g2 ∧
    ∃ x w d y, g1 = x ++ String w (d ++ ARRAY_OPEN ++ y) ∧
               is_word w = true ∧ all_chars not_newline d = true.
Proof.
  unfold attempt. intros (pos' & s' & c' & Hden & [= <-])%run_pattern_sound.
  cbn [m_text m_end m_rest m_caps]. unfold pattern_ in Hden.
  cbn [den_pattern] in Hden.
  destruct Hden as (q1 & s1 & c1 & (c0 & Hhead & ->) & q2 & s2 & c2 &
                    [Hlit ->] & c3 & Htail & ->).
  destruct Hhead as (qa & sa & ca & Hh%den_caps_den & qb & sb & cb &
                     (d & Hd & -> & -> & _) & Hv%den_caps_den).
  apply header_ends_in_word in Hh as (x & w & -> & Hw & ->).
  apply vectors_open in Hv as (y & -> & Hq1).
  cbn [den] in Hlit. destruct Hlit as [-> ->].
  cbn [cat den_caps den] in Htail.
  destruct Htail as (p3 & s3 & c3' & [(ws & _ & -> & ->) ->] & [[-> ->] ->]).
  set (g2 := ws ++ "),").
  replace (ws ++ ")," ++ s') with (g2 ++ s') by (unfold g2; by rewrite app_assoc_s).
  replace (q1 + String.length "0.0" + String.length ws + String.length "),")%nat
    with (q1 + String.length "0.0" + String.length g2)%nat
    by (unfold g2; rewrite length_app_s; lia).
  clearbody g2.
  set (g1 := (x ++ String w "") ++ d ++ ARRAY_OPEN ++ y).
  assert (∀ t, ((x ++ String w "") ++ d ++ (ARRAY_OPEN ++ y) ++ t) = g1 ++ t)
    as Hg1 by (intros t; unfold g1; by rewrite !app_assoc_s).
  assert (String.length g1
          = String.length (x ++ String w "") + String.length d
            + String.length (ARRAY_OPEN ++ y))%nat as Hlen
    by (unfold g1; by rewrite !length_app_s, Nat.add_assoc).
  rewrite Hg1.
  replace q1 with (pos + String.length g1)%nat by lia.
  assert (∃ x w d y, g1 = x ++ String w (d ++ ARRAY_OPEN ++ y) ∧
                     is_word w = true ∧ all_chars not_newline d = true) as Hline.
  { exists x, w, d, y. split_and!; [|done..]. unfold g1. norm_app. done. }
  clearbody g1. clear Hg1 Hlen Hq1.
  exists g1, g2. split_and!.
  - by rewrite !app_assoc_s.
  - replace (pos + String.length g1 + String.length "0.0"
             + String.length g2 - pos)%nat
      with (String.length (g1 ++ "0.0" ++ g2)) by norm_len.
    replace (g1 ++ "0.0" ++ g2 ++ s') with ((g1 ++ "0.0" ++ g2) ++ s')
      by (by rewrite !app_assoc_s).
    by rewrite str_take_app.
  - replace (pos + String.length g1 + String.length "0.0"
             + String.length g2 - pos)%nat
      with (String.length (g1 ++ "0.0" ++ g2)) by norm_len.
    replace (g1 ++ "0.0" ++ g2 ++ s') with ((g1 ++ "0.0" ++ g2) ++ s')
      by (by rewrite !app_assoc_s).
    rewrite str_take_app. norm_len.
  - unfold grp, group. cbn [m_caps List.find Nat.eqb fmap option_fmap
      option_map snd default].
    replace (pos + String.length g1 - pos)%nat with (String.length g1) by lia.
    by rewrite str_take_app.
  - unfold grp, group. cbn [m_caps List.find Nat.eqb fmap option_fmap
      option_map snd default].
    replace (pos + String.length g1 + String.length "0.0" + String.length g2
             - (pos + String.length g1 + String.length "0.0"))%nat
      with (String.length g2) by lia.
    by rewrite str_take_app.
  - done.
Qed.

Lemma flipped_refl s : flipped s s.
Proof. induction s as [|a s IH]; [done|]. split; [by left|done]. Qed.

Lemma flipped_app s s' t t' :
  flipped s s' → flipped t t' → flipped (s ++ t) (s' ++ t').
Proof.
  revert s'. induction s as [|a s IH]; intros [|b s']; try done.
  rewrite !app_cons. intros [Hab Hs] Ht. split; [done|]. by apply IH.
Qed.

Lemma flipped_length s : ∀ s', flipped s s' → String.length s' = String.length s.
Proof.
  induction s as [|a s IH]; intros [|b s']; try done.
  intros [_ H]. cbn [String.length]. by rewrite (IH _ H).
Qed.

Lemma flipped_number : flipped "0.0" "1.0".
Proof. cbn [flipped]. repeat split; auto. Qed.

(** Every replacement turns one "0" into "1". *)
Lemma sub_flipped fuel : ∀ pos s,
  flipped s (sub fuel pattern_ replace_func pos s).
Proof.
  induction fuel as [|fuel IH]; intros pos s; cbn [sub];
    [apply flipped_refl|].
  destruct (find pattern_ pos s) as [[pre m]|] eqn:Hf; [|apply flipped_refl].
  apply find_Some in Hf as (s0 & -> & Hm).
  apply pattern_match in Hm as (g1 & g2 & -> & Htext & Hend & H1 & H2 & _).
  unfold replace_func. rewrite H1, H2, Htext.
  assert (is_empty (g1 ++ "0.0" ++ g2) = false) as ->.
  { destruct g1; [done|]. by rewrite app_cons. }
  apply flipped_app; [apply flipped_refl|].
  rewrite !app_assoc_s.
  apply flipped_app; [apply flipped_refl|].
  apply (flipped_app "0.0" "1.0" (g2 ++ m_rest m)); [apply flipped_number|].
  apply flipped_app; [apply flipped_refl|apply IH].
Qed.

(** X18.  The text written back has the length of the text read and
    differs from it only in characters "0" turned into "1": the patch
    inserts and deletes nothing.  The replacement ends within
    [len(content) + 1] searches. *)
Theorem energy_patch_flips (content : string) :
  flipped content (update_shader_energy content)
  ∧ String.length (update_shader_energy content) = String.length content
  ∧ ∀ fuel, (String.length content < fuel)%nat →
      sub fuel pattern_ replace_func 0 content = update_shader_energy content.
Proof.
  assert (flipped content (update_shader_energy content)) as H
    by apply sub_flipped.
  split_and!; [done|by apply flipped_length|].
  intros fuel Hf. apply sub_fuel; [done|lia].
Qed.

Lemma opener_mono s : ∀ seen seen',
  (seen = true → seen' = true) →
  opener_after_word seen s = true → opener_after_word seen' s = true.
Proof.
  induction s as [|a s IH]; intros seen seen' Hle; cbn [opener_after_word].
  - rewrite !orb_false_r. intros [Hs Hsw]%andb_true_iff.
    by rewrite (Hle Hs), Hsw.
  - intros [[Hs Hsw]%andb_true_iff|H]%orb_true_iff; apply orb_true_iff.
    + left. by rewrite (Hle Hs), Hsw.
    + right. revert H. apply IH.
      destruct (Ascii.eqb a newline); [done|].
      intros [Hs|Hw]%orb_true_iff; apply orb_true_iff; [left; auto|by right].
Qed.

Lemma opener_later seen s :
  opener_after_word false s = true → opener_after_word seen s = true.
Proof. by apply opener_mono. Qed.

Lemma opener_on_line d : ∀ post,
  all_chars not_newline d = true →
  opener_after_word true (d ++ ARRAY_OPEN ++ post) = true.
Proof.
  induction d as [|a d IH]; intros post Hd.
  - rewrite app_empty_l. destruct (ARRAY_OPEN ++ post) eqn:Heq; [done|].
    cbn [opener_after_word andb]. rewrite <- Heq.
    unfold startswith. by rewrite strip_prefix_app.
  - cbn [all_chars] in Hd. apply andb_true_iff in Hd as [Ha Hd].
    rewrite app_cons. cbn [opener_after_word]. apply orb_true_iff. right.
    unfold not_newline in Ha. apply negb_true_iff in Ha. rewrite Ha.
    cbn [orb]. by apply IH.
Qed.

Lemma opener_found x w d post :
  is_word w = true → all_chars not_newline d = true →
  opener_after_word false (x ++ String w (d ++ ARRAY_OPEN ++ post)) = true.
Proof.
  intros Hw Hd. induction x as [|a x IH].
  - rewrite app_empty_l. cbn [opener_after_word andb orb].
    assert (Ascii.eqb w newline = false) as ->.
    { destruct (Ascii.eqb_spec w newline) as [->|]; [|done].
      by vm_compute in Hw. }
    rewrite Hw. by apply opener_on_line.
  - rewrite app_cons. cbn [opener_after_word andb orb].
    destruct (Ascii.eqb a newline); [done|]. by apply opener_later.
Qed.

(** X19.  The pattern matches only where a header and the opening of
    the array stand on one line: on a text in which no line holds
    [array<vec4<f32>,6>(] after a word character, the script writes the
    text back as it read it. *)
Theorem energy_patch_needs_one_line (content : string) :
  opener_after_word false content = false →
  update_shader_energy content = content.
Proof.
  intros Hno. unfold update_shader_energy. cbn [sub].
  destruct (find pattern_ 0 content) as [[pre m]|] eqn:Hf; [|done].
  apply find_Some in Hf as (s0 & -> & Hm).
  apply pattern_match in Hm
    as (g1 & g2 & -> & _ & _ & _ & _ & x & w & d & y & -> & Hw & Hd).
  rewrite (opener_later _ (pre ++ _)) in Hno; [done|].
  replace (pre ++ ((x ++ String w (d ++ ARRAY_OPEN ++ y)) ++ "0.0" ++ g2)
               ++ m_rest m)
    with ((pre ++ x) ++ String w (d ++ ARRAY_OPEN ++ y ++ "0.0" ++ g2 ++ m_rest m))
    by (norm_app; done).
  by apply opener_found.
Qed.

Lemma energy_patch_needs_one_line_witness :
  update_shader_energy two_lines = two_lines.
Proof.
  apply (energy_patch_needs_one_line two_lines). vm_compute. reflexivity.
Defined.

End SubstFacts.
